(** * Evidence-of-Pubmed: the retrieval and enrichment pipeline

    A shallow embedding of [src/services/pubmedService.ts] (the resilient
    fetch layer, the search and the summary, abstract, full-text and
    reference accessors) and of the handlers of the [App] component,
    followed by the properties of the specification that concern them.

    Conventions.
    - A JavaScript string is the list of its UTF-16 code units, so that
      [length], [substring], [trim] and the [\s] class mean what they mean
      in the source.
    - An [async] function is a computation in a state-and-exception monad:
      the state is the log of the observable effects (network requests,
      backoff waits, calls to the synthesis collaborator); a rejected
      promise is [Throw].
    - The remote provider and the synthesis collaborator are the
      environment [Env]: every statement quantifies over it.
    - The value of [res.json()] is read at the shape the accessors expect
      of it: each property they touch is either missing or of the type
      the provider documents (a string where the source annotates
      [string], an array where it iterates).
    - A plain object used as a dictionary ([data.result], [results],
      [fullTexts]) is a finite map over strings; keys that name members
      of [Object.prototype] are not considered.
    - An awaited promise settles: it resolves or rejects.
    - The component is rendered between events: the state updates a
      handler makes before it suspends at an [await] are shown before the
      next event is handled, and a disabled button dispatches no click.
    - A number is an integer; the arithmetic and the printing of numbers
      are those of the integers on safe integers (below 2^53 in
      magnitude), and are left to the environment beyond.
    - [console.error] is not an effect of interest. *)

From Stdlib Require Import String Ascii.
From stdpp Require Import base option list gmap.
From Stdlib Require Import ZArith NArith Lia.

Set Warnings "-register-all,-abstract-large-number".
Local Open Scope Z_scope.
Local Open Scope list_scope.

(* ===================================================================== *)
(** ** JavaScript strings *)
(* ===================================================================== *)

Module JsString.

(** One UTF-16 code unit. *)
Definition char : Type := N.

(** A string value. *)
Definition jsstr : Type := list char.

(** A string literal of the source (ASCII). *)
Definition lit (s : string) : jsstr :=
  List.map N_of_ascii (list_ascii_of_string s).

(** [WhiteSpace] and [LineTerminator] of ECMAScript: what [\s] matches
    and what [String.prototype.trim] strips. *)
Definition isSpace (c : char) : bool :=
  ((9 <=? c) && (c <=? 13) || (c =? 32) || (c =? 160) || (c =? 5760)
   || (8192 <=? c) && (c <=? 8202) || (c =? 8232) || (c =? 8233)
   || (c =? 8239) || (c =? 8287) || (c =? 12288) || (c =? 65279))%N.

Fixpoint trimStart (s : jsstr) : jsstr :=
  match s with
  | [] => []
  | c :: r => if isSpace c then trimStart r else s
  end.

Definition trimEnd (s : jsstr) : jsstr := rev (trimStart (rev s)).

(** [s.trim()] *)
Definition trim (s : jsstr) : jsstr := trimEnd (trimStart s).

(** [s.replace(/\s+/g, ' ')]: every maximal run of white space becomes
    one space.  [inrun] tells that the previous code unit was white
    space. *)
Fixpoint collapseFrom (inrun : bool) (s : jsstr) : jsstr :=
  match s with
  | [] => []
  | c :: r =>
      if isSpace c
      then (if inrun then collapseFrom true r else 32%N :: collapseFrom true r)
      else c :: collapseFrom false r
  end.

Definition collapseSpaces (s : jsstr) : jsstr := collapseFrom false s.

(** [s.substring(0, n)] *)
Definition substring0 (n : nat) (s : jsstr) : jsstr := take n s.

(** [parts.join(sep)] on an array of strings. *)
Fixpoint join (sep : jsstr) (parts : list jsstr) : jsstr :=
  match parts with
  | [] => []
  | [p] => p
  | p :: rest => p ++ sep ++ join sep rest
  end.

(** Truthiness of a string: the empty string is falsy. *)
Definition truthy (s : jsstr) : bool :=
  match s with [] => false | _ :: _ => true end.

(** [s || d] on strings. *)
Definition orElse (s d : jsstr) : jsstr := if truthy s then s else d.

(** [o || d] where [o] may be [undefined]. *)
Definition optOrElse (o : option jsstr) (d : jsstr) : jsstr :=
  match o with
  | Some s => orElse s d
  | None => d
  end.

End JsString.
Export JsString.

(* ===================================================================== *)
(** ** Promises: state and exceptions *)
(* ===================================================================== *)

(** What a rejected promise carries. *)
Inductive Exn : Type :=
| NetworkError                (* [fetch] itself rejects *)
| NcbiApiFailed (status : Z)  (* [new Error(`NCBI API failed: ${res.status}`)] *)
| BodyError                   (* [res.json()] or [res.text()] rejects *)
| TypeError                   (* property read on [undefined] *)
| SynthesisError.             (* the synthesis collaborator rejects *)

Inductive Result (A : Type) : Type :=
| Ok (a : A)
| Throw (e : Exn).
Arguments Ok {A} a.
Arguments Throw {A} e.

(** A computation over a state [S] that returns an [A] or throws. *)
Definition M (S A : Type) : Type := S -> Result A * S.

Definition ret {S A} (a : A) : M S A := fun s => (Ok a, s).

Definition throw {S A} (e : Exn) : M S A := fun s => (Throw e, s).

Definition bind {S A B} (m : M S A) (k : A -> M S B) : M S B :=
  fun s =>
    match m s with
    | (Ok a, s') => k a s'
    | (Throw e, s') => (Throw e, s')
    end.

(** [try { m } catch (e) { h e }] *)
Definition try_catch {S A} (m : M S A) (h : Exn -> M S A) : M S A :=
  fun s =>
    match m s with
    | (Ok a, s') => (Ok a, s')
    | (Throw e, s') => h e s'
    end.

Declare Scope promise_scope.
Delimit Scope promise_scope with promise.
Notation "x <- m ;; k" := (bind m (fun x => k))
  (at level 100, m at next level, right associativity) : promise_scope.
Notation "m ;;; k" := (bind m (fun _ => k))
  (at level 100, right associativity) : promise_scope.
Local Open Scope promise_scope.

(** [for (const x of xs) { body x }] with an accumulator. *)
Fixpoint forOf {S A B} (xs : list A) (body : B -> A -> M S B) (acc : B) : M S B :=
  match xs with
  | [] => ret acc
  | x :: rest => acc' <- body acc x ;; forOf rest body acc'
  end.

(* ===================================================================== *)
(** ** The provider's data, as the accessors read it *)
(* ===================================================================== *)

(** An [option] stands for a property that may be missing: [None] is
    [undefined]. *)

(** An author entry of a summary record: [a.name]. *)
Record Author := { name : jsstr }.

(** One record of [data.result], with the properties [fetchSummary]
    reads.  [authors] may be missing ([d.authors?.map]). *)
Record DocSum := {
  ds_title : jsstr;
  ds_authors : option (list Author);
  ds_source : jsstr;
  ds_pubdate : jsstr
}.

(** One entry of [ls.linksetdbs]: [db.linkname] and [db.links]. *)
Record LinkSetDb := {
  linkname : option jsstr;
  links : option (list jsstr)
}.

(** One entry of [data.linksets]: [ls.linksetdbs]. *)
Record LinkSet := { linksetdbs : option (list LinkSetDb) }.

(** The value [res.json()] resolves to: an object whose properties
    [result] (summary endpoint) and [linksets] (link endpoint) may each
    be missing. *)
Record JsonData := {
  result : option (gmap jsstr DocSum);
  linksets : option (list LinkSet)
}.

(** A node of a parsed XML document: a text node or an element with its
    attributes and children. *)
Inductive XNode : Type :=
| XText (data : jsstr)
| XElem (tag : jsstr) (attrs : list (jsstr * jsstr)) (children : list XNode).

(** A [Response] of the Fetch API, as far as the service looks at it:
    [res.status], [res.ok], what [res.json()] resolves to ([None]: it
    rejects) and the document that
    [new DOMParser().parseFromString(await res.text(), "text/xml")]
    yields ([None]: [res.text()] rejects). *)
Record Response := {
  status : Z;
  ok : bool;
  body_json : option JsonData;
  body_xml : option XNode
}.

(** What one call of [fetch] does: it resolves to a response or rejects. *)
Inductive FetchOutcome : Type :=
| Resolves (res : Response)
| Rejects.

(* ===================================================================== *)
(** ** DOM queries *)
(* ===================================================================== *)

Module Dom.

(** The descendants of a node, in document order. *)
Fixpoint descendants (n : XNode) : list XNode :=
  match n with
  | XText _ => []
  | XElem _ _ cs =>
      (fix go (l : list XNode) : list XNode :=
         match l with
         | [] => []
         | c :: r => c :: descendants c ++ go r
         end) cs
  end.

(** [node.textContent] *)
Fixpoint textContent (n : XNode) : jsstr :=
  match n with
  | XText s => s
  | XElem _ _ cs =>
      (fix go (l : list XNode) : jsstr :=
         match l with
         | [] => []
         | c :: r => textContent c ++ go r
         end) cs
  end.

Definition jsstr_eqb (a b : jsstr) : bool := bool_decide (a = b).

(** Is the node an element with this tag name? *)
Definition isElement (t : jsstr) (n : XNode) : bool :=
  match n with
  | XText _ => false
  | XElem t' _ _ => jsstr_eqb t' t
  end.

(** [node.querySelectorAll(t)] for a type selector [t]: the matching
    descendants of the node (the node itself is not a candidate). *)
Definition querySelectorAll (t : jsstr) (n : XNode) : list XNode :=
  List.filter (isElement t) (descendants n).

(** [node.querySelector(t)] *)
Definition querySelector (t : jsstr) (n : XNode) : option XNode :=
  head (querySelectorAll t n).

(** [xml.getElementsByTagName(t)] on the document whose root element is
    [root]: the root is a candidate. *)
Definition getElementsByTagName (t : jsstr) (root : XNode) : list XNode :=
  List.filter (isElement t) (root :: descendants root).

(** [xml.querySelector(t)] on the document. *)
Definition docQuerySelector (t : jsstr) (root : XNode) : option XNode :=
  head (getElementsByTagName t root).

(** [el.getAttribute(a)]: the first attribute of that name, or [null]. *)
Fixpoint getAttribute (a : jsstr) (attrs : list (jsstr * jsstr)) : option jsstr :=
  match attrs with
  | [] => None
  | (k, v) :: r => if jsstr_eqb k a then Some v else getAttribute a r
  end.

Definition attributes (n : XNode) : list (jsstr * jsstr) :=
  match n with
  | XText _ => []
  | XElem _ a _ => a
  end.

End Dom.

(* ===================================================================== *)
(** ** Observable effects *)
(* ===================================================================== *)

(** The articles handed around by the component ([PubMedArticle] of
    [types.ts]).  [fullText?: string | null] has three states: missing,
    [null], a string. *)
Record PubMedArticle := {
  id : jsstr;
  pmid : jsstr;
  title : jsstr;
  titleJa : option jsstr;
  authors : jsstr;
  journal : jsstr;
  pubdate : jsstr;
  abstract : option jsstr;
  fullText : option (option jsstr)
}.

Inductive Event : Type :=
| EvFetch (url : jsstr)           (* one call of [fetch] *)
| EvSleep (ms : Z)                (* one [await sleep(ms)] *)
| EvReview (target : jsstr) (selected refs : list PubMedArticle).
                                  (* one call of [callGeminiReview] *)

(** The log of effects, oldest first. *)
Definition Log : Type := list Event.

Definition isFetch (e : Event) : bool :=
  match e with EvFetch _ => true | _ => false end.

Definition isSleep (e : Event) : bool :=
  match e with EvSleep _ => true | _ => false end.

Definition isReview (e : Event) : bool :=
  match e with EvReview _ _ _ => true | _ => false end.

(** Number of requests issued so far. *)
Definition fetchCount (w : Log) : nat := length (List.filter isFetch w).

(** The environment of a run.  [network url n] is what the provider does
    with the request for [url] when [n] requests were issued before it;
    [synthesis] is the collaborator behind [callGeminiReview] ([None]: it
    rejects). *)
Record Env := {
  network : jsstr -> nat -> FetchOutcome;
  synthesis : jsstr -> list PubMedArticle -> list PubMedArticle -> option jsstr
}.

(* ===================================================================== *)
(** ** [services/pubmedService.ts] *)
(* ===================================================================== *)

(** [Array.prototype.map] with a callback that may throw: the first throw
    aborts the whole map. *)
Fixpoint mapThrowing {A B} (f : A -> Result B) (l : list A) : Result (list B) :=
  match l with
  | [] => Ok []
  | x :: r =>
      match f x with
      | Throw e => Throw e
      | Ok y =>
          match mapThrowing f r with
          | Throw e => Throw e
          | Ok ys => Ok (y :: ys)
          end
      end
  end.

(** [Set.prototype.add] on a [Set<string>], kept in insertion order (the
    order [Array.from] reads it back in). *)
Definition setAdd (s : list jsstr) (x : jsstr) : list jsstr :=
  if bool_decide (x ∈ s) then s else s ++ [x].

(** What the outermost [try] of one [fetchWithRetry] activation ends
    with: [return res], or [return fetchWithRetry(url, options, retries - 1)].
    The latter hands a promise back without awaiting it, so the
    activation's own [catch] does not cover the nested call. *)
Inductive Attempt : Type :=
| Done (res : Response)
| Again.

Section Service.

Context (E : Env).

Definition EUTILS_BASE : jsstr :=
  lit "https://eutils.ncbi.nlm.nih.gov/entrez/eutils".

(** [fetch(url, options)] *)
Definition fetch (url : jsstr) : M Log Response :=
  fun w =>
    match network E url (fetchCount w) with
    | Resolves res => (Ok res, w ++ [EvFetch url])
    | Rejects => (Throw NetworkError, w ++ [EvFetch url])
    end.

(** [sleep(ms)] *)
Definition sleep (ms : Z) : M Log unit :=
  fun w => (Ok tt, w ++ [EvSleep ms]).

(** The [try]/[catch] statement of [fetchWithRetry] (lines 9-25). *)
Definition attempt (url : jsstr) (retries : nat) : M Log Attempt :=
  try_catch
    (res <- fetch url ;;
     if negb (ok res) then
       if (0 <? retries)%nat && ((status res =? 429) || (500 <=? status res))
       then sleep 1000 ;;; ret Again
       else throw (NcbiApiFailed (status res))
     else ret (Done res))
    (fun error =>
       if (0 <? retries)%nat
       then sleep 1000 ;;; ret Again
       else throw error).

(** [fetchWithRetry(url, options = {}, retries = 3)].  Every caller
    leaves [options] and [retries] at their defaults.  [Again] only
    arises under [retries > 0], so its branch at [0] is never taken
    (lemma [attempt_zero_not_again]). *)
Fixpoint fetchWithRetry (url : jsstr) (retries : nat) : M Log Response :=
  a <- attempt url retries ;;
  match a with
  | Done res => ret res
  | Again =>
      match retries with
      | S r => fetchWithRetry url r
      | O => throw NetworkError
      end
  end.

(** [await res.json()] *)
Definition json (res : Response) : M Log JsonData :=
  match body_json res with
  | Some d => ret d
  | None => throw BodyError
  end.

(** [new DOMParser().parseFromString(await res.text(), "text/xml")] *)
Definition parsedXml (res : Response) : M Log XNode :=
  match body_xml res with
  | Some x => ret x
  | None => throw BodyError
  end.

(** The callback of [ids.map] in [fetchSummary] (lines 49-59).  Reading
    a property of [undefined] throws. *)
Definition summaryRecord (data : JsonData) (id0 : jsstr) : Result PubMedArticle :=
  match result data with
  | None => Throw TypeError
  | Some r =>
      match r !! id0 with
      | None => Throw TypeError
      | Some d =>
          Ok {| id := id0;
                pmid := id0;
                title := ds_title d;
                titleJa := None;
                authors :=
                  optOrElse
                    ((fun l => join (lit ", ") (List.map name l)) <$> ds_authors d)
                    (lit "Unknown Authors");
                journal := ds_source d;
                pubdate := ds_pubdate d;
                abstract := None;
                fullText := None |}
      end
  end.

(** The address built on line 45. *)
Definition summaryUrl (ids : list jsstr) : jsstr :=
  EUTILS_BASE ++ lit "/esummary.fcgi?db=pubmed&id="
    ++ join (lit ",") ids ++ lit "&retmode=json".

Definition fetchSummary (ids : list jsstr) : M Log (list PubMedArticle) :=
  match ids with
  | [] => ret []
  | _ :: _ =>
      let url := summaryUrl ids in
      res <- fetchWithRetry url 3 ;;
      data <- json res ;;
      match mapThrowing (summaryRecord data) ids with
      | Ok records => ret records
      | Throw e => throw e
      end
  end.

(** [node.querySelector("PMID")?.textContent || ""] *)
Definition pmidOf (node : XNode) : jsstr :=
  optOrElse (Dom.textContent <$> Dom.querySelector (lit "PMID") node) [].

(** One step of the [AbstractText] loop (lines 74-75). *)
Definition appendSegment (abstract0 : jsstr) (t : XNode) : jsstr :=
  let label := Dom.getAttribute (lit "Label") (Dom.attributes t) in
  abstract0 ++
    ((match label with
      | Some l => if truthy l then lit "[" ++ l ++ lit "] " else []
      | None => []
      end) ++ Dom.textContent t ++ lit " ").

(** The value stored for one [PubmedArticle] node (lines 72-77). *)
Definition abstractOf (node : XNode) : jsstr :=
  let abstract0 :=
    fold_left appendSegment (Dom.querySelectorAll (lit "AbstractText") node) [] in
  orElse (trim abstract0) (lit "No abstract available.").

(** The [forEach] over the article nodes (lines 69-78). *)
Definition collectAbstracts (nodes : list XNode) : gmap jsstr jsstr :=
  fold_left (fun results node => <[pmidOf node := abstractOf node]> results)
            nodes ∅.

(** The address built on line 64. *)
Definition abstractsUrl (ids : list jsstr) : jsstr :=
  EUTILS_BASE ++ lit "/efetch.fcgi?db=pubmed&id="
    ++ join (lit ",") ids ++ lit "&retmode=xml".

Definition fetchAbstracts (ids : list jsstr) : M Log (gmap jsstr jsstr) :=
  match ids with
  | [] => ret ∅
  | _ :: _ =>
      let url := abstractsUrl ids in
      res <- fetchWithRetry url 3 ;;
      xml <- parsedXml res ;;
      ret (collectAbstracts (Dom.getElementsByTagName (lit "PubmedArticle") xml))
  end.

(** [linkData.linksets?.[0]?.linksetdbs?.[0]?.links?.[0]] *)
Definition firstLink (linkData : JsonData) : option jsstr :=
  lss ← linksets linkData;
  ls ← head lss;
  dbs ← linksetdbs ls;
  db ← head dbs;
  ls' ← links db;
  head ls'.

(** Lines 89-92: [pmcid] stays [null] unless the first link is truthy. *)
Definition pmcidOf (linkData : JsonData) : option jsstr :=
  match firstLink linkData with
  | Some l => if truthy l then Some (lit "PMC" ++ l) else None
  | None => None
  end.

(** The string returned on line 105; code unit 10 is the line feed. *)
Definition fullTextString (pmcid : jsstr) (bodyNode : XNode) : jsstr :=
  (lit "[FULL TEXT FROM " ++ pmcid ++ lit "]" ++ [10%N])
    ++ substring0 10000 (collapseSpaces (Dom.textContent bodyNode)).

(** The addresses built on lines 85 and 97. *)
Definition pmcLinkUrl (pmid0 : jsstr) : jsstr :=
  EUTILS_BASE ++ lit "/elink.fcgi?dbfrom=pubmed&linkname=pubmed_pmc&id="
    ++ pmid0 ++ lit "&retmode=json".

Definition pmcTextUrl (pmcid : jsstr) : jsstr :=
  EUTILS_BASE ++ lit "/efetch.fcgi?db=pmc&id=" ++ pmcid ++ lit "&retmode=xml".

(** The [try] block of [fetchFullText] (lines 84-105). *)
Definition fetchFullTextTry (pmid0 : jsstr) : M Log (option jsstr) :=
  let linkUrl := pmcLinkUrl pmid0 in
  linkRes <- fetchWithRetry linkUrl 3 ;;
  linkData <- json linkRes ;;
  match pmcidOf linkData with
  | None => ret None
  | Some pmcid =>
      let pmcUrl := pmcTextUrl pmcid in
      pmcRes <- fetchWithRetry pmcUrl 3 ;;
      xml <- parsedXml pmcRes ;;
      match Dom.docQuerySelector (lit "body") xml with
      | None => ret None
      | Some bodyNode => ret (Some (fullTextString pmcid bodyNode))
      end
  end.

Definition fetchFullText (pmid0 : jsstr) : M Log (option jsstr) :=
  try_catch (fetchFullTextTry pmid0) (fun _ => ret None).

(** Line 122-123: what one [db] adds to the working set. *)
Definition admitted (db : LinkSetDb) : list jsstr :=
  match linkname db, links db with
  | Some n, Some l =>
      if bool_decide (n = lit "pubmed_pubmed_refs") then take 3 l else []
  | _, _ => []
  end.

(** Lines 120-126: the inner [forEach] over [ls.linksetdbs]. *)
Definition addLinkSet (refIds : list jsstr) (ls : LinkSet) : list jsstr :=
  match linksetdbs ls with
  | Some dbs =>
      fold_left (fun acc db => fold_left setAdd (admitted db) acc) dbs refIds
  | None => refIds
  end.

(** Lines 117-129. *)
Definition collectReferences (data : JsonData) : list jsstr :=
  match linksets data with
  | Some lss => fold_left addLinkSet lss []
  | None => []
  end.

(** The address built on line 113. *)
Definition referencesUrl (pmids : list jsstr) : jsstr :=
  EUTILS_BASE ++ lit "/elink.fcgi?dbfrom=pubmed&linkname=pubmed_pubmed_refs&id="
    ++ join (lit "&id=") pmids ++ lit "&retmode=json".

Definition fetchReferences (pmids : list jsstr) : M Log (list jsstr) :=
  match pmids with
  | [] => ret []
  | _ :: _ =>
      let url := referencesUrl pmids in
      res <- fetchWithRetry url 3 ;;
      data <- json res ;;
      ret (collectReferences data)
  end.

End Service.

(* ===================================================================== *)
(** ** The [App] component: [handleDeepReview] *)
(* ===================================================================== *)

(** [ProcessStatus] of [types.ts]. *)
Inductive ProcessStatus : Type := IDLE | LOADING | SUCCESS | ERROR.

Global Instance ProcessStatus_eq_dec : EqDecision ProcessStatus.
Proof. solve_decision. Defined.

(** The state cells of the component that the handler reads or writes.
    A [Set<string>] is the list of its members in insertion order. *)
Record AppState := {
  inputText : jsstr;
  translatedText : jsstr;
  articles : list PubMedArticle;
  selectedArticleIds : list jsstr;
  reviewStatus : ProcessStatus;
  statusMessage : jsstr;
  reportOutput : jsstr
}.

Definition withReviewStatus (v : ProcessStatus) (st : AppState) : AppState :=
  {| inputText := inputText st; translatedText := translatedText st;
     articles := articles st; selectedArticleIds := selectedArticleIds st;
     reviewStatus := v; statusMessage := statusMessage st;
     reportOutput := reportOutput st |}.

Definition withStatusMessage (v : jsstr) (st : AppState) : AppState :=
  {| inputText := inputText st; translatedText := translatedText st;
     articles := articles st; selectedArticleIds := selectedArticleIds st;
     reviewStatus := reviewStatus st; statusMessage := v;
     reportOutput := reportOutput st |}.

Definition withReportOutput (v : jsstr) (st : AppState) : AppState :=
  {| inputText := inputText st; translatedText := translatedText st;
     articles := articles st; selectedArticleIds := selectedArticleIds st;
     reviewStatus := reviewStatus st; statusMessage := statusMessage st;
     reportOutput := v |}.

(** [{...a, abstract: v}] *)
Definition withAbstract (v : jsstr) (a : PubMedArticle) : PubMedArticle :=
  {| id := id a; pmid := pmid a; title := title a; titleJa := titleJa a;
     authors := authors a; journal := journal a; pubdate := pubdate a;
     abstract := Some v; fullText := fullText a |}.

(** [{...a, fullText: v}] *)
Definition withFullText (v : option jsstr) (a : PubMedArticle) : PubMedArticle :=
  {| id := id a; pmid := pmid a; title := title a; titleJa := titleJa a;
     authors := authors a; journal := journal a; pubdate := pubdate a;
     abstract := abstract a; fullText := Some v |}.

(** [o || null] where [o] may be [undefined]. *)
Definition optOrNull (o : option jsstr) : option jsstr :=
  match o with
  | Some s => if truthy s then Some s else None
  | None => None
  end.

(** The message of the [catch] block (line 135). *)
Definition synthesisErrorMessage : jsstr :=
  lit "An error occurred during synthesis. Please check the console for details.".

Section App.

Context (E : Env).

(** The handler's world: the component state and the effect log. *)
Definition World : Type := AppState * Log.

(** A service call made from the component. *)
Definition svc {A} (m : M Log A) : M World A :=
  fun s =>
    match m (snd s) with
    | (r, w') => (r, (fst s, w'))
    end.

Definition modify (f : AppState -> AppState) : M World unit :=
  fun s => (Ok tt, (f (fst s), snd s)).

Definition setReviewStatus (v : ProcessStatus) : M World unit :=
  modify (withReviewStatus v).
Definition setStatusMessage (v : jsstr) : M World unit :=
  modify (withStatusMessage v).
Definition setReportOutput (v : jsstr) : M World unit :=
  modify (withReportOutput v).

(** [callGeminiReview(targetText, articlesData, referenceData)]: the
    prompt is built from the three arguments and sent to the model;
    the result is [response.text || "Report generation failed."]. *)
Definition callGeminiReview (targetText : jsstr)
    (articlesData referenceData : list PubMedArticle) : M Log jsstr :=
  fun w =>
    let w' := w ++ [EvReview targetText articlesData referenceData] in
    match synthesis E targetText articlesData referenceData with
    | Some text => (Ok (orElse text (lit "Report generation failed.")), w')
    | None => (Throw SynthesisError, w')
    end.

(** Lines 103-104: one turn of the full-text loop. *)
Definition fullTextStep (fullTexts : gmap jsstr jsstr) (pmid0 : jsstr)
  : M Log (gmap jsstr jsstr) :=
  text <- fetchFullText E pmid0 ;;
  ret (match text with
       | Some t => if truthy t then <[pmid0 := t]> fullTexts else fullTexts
       | None => fullTexts
       end).

(** Lines 101-105: the sequential full-text loop.  It makes service
    calls only. *)
Definition fullTextLoop (ids : list jsstr) : M Log (gmap jsstr jsstr) :=
  forOf ids fullTextStep ∅.

(** Lines 109-118: the reference detail.  It makes service calls
    only. *)
Definition referenceDetail (refIds : list jsstr) : M Log (list PubMedArticle) :=
  match refIds with
  | [] => ret []
  | _ :: _ =>
      let topRefs := take 8 refIds in
      refSummaries <- fetchSummary E topRefs ;;
      refAbs <- fetchAbstracts E topRefs ;;
      ret (List.map (fun s => withAbstract (optOrElse (refAbs !! id s) []) s)
                    refSummaries)
  end.

(** [selectedArticleIds.has(x)] *)
Definition has (s : list jsstr) (x : jsstr) : bool := bool_decide (x ∈ s).

(** Lines 121-127: the merge of the selected articles. *)
Definition mergeSelected (cl : AppState)
    (abstracts fullTexts : gmap jsstr jsstr) : list PubMedArticle :=
  List.map
    (fun a => withFullText (optOrNull (fullTexts !! id a))
                (withAbstract (optOrElse (abstracts !! id a) []) a))
    (List.filter (fun a => has (selectedArticleIds cl) (id a)) (articles cl)).

(** The [try] block of [handleDeepReview] (lines 95-131).  [cl] is the
    render the handler closes over. *)
Definition deepReviewTry (cl : AppState) : M World unit :=
  let ids := selectedArticleIds cl in
  setStatusMessage (lit "Retrieving abstracts...") ;;;
  abstracts <- svc (fetchAbstracts E ids) ;;
  setStatusMessage (lit "Attempting full text retrieval (PMC)...") ;;;
  fullTexts <- svc (fullTextLoop ids) ;;
  setStatusMessage (lit "Analyzing citation network...") ;;;
  refIds <- svc (fetchReferences E ids) ;;
  refData <- svc (referenceDetail refIds) ;;
  setStatusMessage (lit "Gemini is synthesizing report...") ;;;
  let selectedData := mergeSelected cl abstracts fullTexts in
  report <- svc (callGeminiReview (orElse (translatedText cl) (inputText cl))
                                  selectedData refData) ;;
  setReportOutput report ;;;
  setReviewStatus SUCCESS.

Definition deepReviewCatch (e : Exn) : M World unit :=
  setReviewStatus ERROR ;;;
  setReportOutput synthesisErrorMessage.

(** [handleDeepReview], called on the render [cl] with the log [w]. *)
Definition handleDeepReview (cl : AppState) (w : Log) : World :=
  match selectedArticleIds cl with
  | [] => (cl, w)
  | _ :: _ =>
      snd ((setReviewStatus LOADING ;;;
            try_catch (deepReviewTry cl) deepReviewCatch) (cl, w))
  end.

(** The "Synthesize Evidence" button (lines 364-367):
    [disabled={reviewStatus === ProcessStatus.LOADING ||
               selectedArticleIds.size === 0}]. *)
Definition synthesizeDisabled (st : AppState) : bool :=
  bool_decide (reviewStatus st = LOADING)
  || bool_decide (selectedArticleIds st = []).

(** A click on the button: a disabled button dispatches nothing,
    otherwise [onClick={handleDeepReview}] runs. *)
Definition clickSynthesize (st : AppState) (w : Log) : World :=
  if synthesizeDisabled st then (st, w) else handleDeepReview st w.

End App.

(* ===================================================================== *)
(** ** The renders of a run of [handleDeepReview] *)
(* ===================================================================== *)

(** A run together with its renders: the states the component shows while
    the run is suspended at an [await], in order.  The handler runs
    without interruption from one [await] to the next, and the state
    updates made on the way are rendered before any other event is
    handled, so these are the only states in which a click can arrive
    while the run is in flight. *)
Definition Traced (A : Type) : Type := World -> (Result A * World) * list AppState.

Definition tret {A} (a : A) : Traced A := fun s => ((Ok a, s), []).

Definition tbind {A B} (m : Traced A) (k : A -> Traced B) : Traced B :=
  fun s =>
    match m s with
    | ((Ok a, s'), shown) =>
        match k a s' with
        | (r, shown') => (r, shown ++ shown')
        end
    | ((Throw e, s'), shown) => ((Throw e, s'), shown)
    end.

Definition ttry {A} (m : Traced A) (h : Exn -> Traced A) : Traced A :=
  fun s =>
    match m s with
    | ((Ok a, s'), shown) => ((Ok a, s'), shown)
    | ((Throw e, s'), shown) =>
        match h e s' with
        | (r, shown') => (r, shown ++ shown')
        end
    end.

(** A call of a state setter: nothing is awaited. *)
Definition setting (m : M World unit) : Traced unit := fun s => (m s, []).

(** [await m] for a call [m] of the service: the state at the call is
    what the component shows until the call settles (the awaits inside
    the call do not change the state). *)
Definition await {A} (m : M Log A) : Traced A := fun s => (svc m s, [fst s]).

Declare Scope traced_scope.
Delimit Scope traced_scope with traced.
Notation "x <- m ;; k" := (tbind m (fun x => k))
  (at level 100, m at next level, right associativity) : traced_scope.
Notation "m ;;; k" := (tbind m (fun _ => k))
  (at level 100, right associativity) : traced_scope.

Section Renders.

Context (E : Env).

(** The [try] block of [handleDeepReview] (lines 95-131), with its
    renders. *)
Definition deepReviewTryRenders (cl : AppState) : Traced unit :=
  (let ids := selectedArticleIds cl in
   setting (setStatusMessage (lit "Retrieving abstracts...")) ;;;
   abstracts <- await (fetchAbstracts E ids) ;;
   setting (setStatusMessage (lit "Attempting full text retrieval (PMC)...")) ;;;
   fullTexts <- await (fullTextLoop E ids) ;;
   setting (setStatusMessage (lit "Analyzing citation network...")) ;;;
   refIds <- await (fetchReferences E ids) ;;
   refData <- await (referenceDetail E refIds) ;;
   setting (setStatusMessage (lit "Gemini is synthesizing report...")) ;;;
   let selectedData := mergeSelected cl abstracts fullTexts in
   report <- await (callGeminiReview E (orElse (translatedText cl) (inputText cl))
                                     selectedData refData) ;;
   setting (setReportOutput report) ;;;
   setting (setReviewStatus SUCCESS))%traced.

(** [handleDeepReview] with its renders: the final world, and the states
    shown while the run was in flight. *)
Definition handleDeepReviewRenders (cl : AppState) (w : Log)
  : World * list AppState :=
  match selectedArticleIds cl with
  | [] => ((cl, w), [])
  | _ :: _ =>
      match (setting (setReviewStatus LOADING) ;;;
             ttry (deepReviewTryRenders cl)
                  (fun e => setting (deepReviewCatch e)))%traced (cl, w) with
      | ((_, s), shown) => (s, shown)
      end
  end.

End Renders.

(* ===================================================================== *)
(** ** Notions used by the statements *)
(* ===================================================================== *)

(** The effects of a call with budget [n] against a provider that fails
    every time: [n + 1] requests with a backoff wait between them. *)
Fixpoint retryTrace (url : jsstr) (n : nat) : Log :=
  match n with
  | O => [EvFetch url]
  | S k => EvFetch url :: EvSleep 1000 :: retryTrace url k
  end.

(** The label of a text segment, when it has one (an empty [Label]
    attribute is no label). *)
Definition segmentLabel (t : XNode) : option jsstr :=
  match Dom.getAttribute (lit "Label") (Dom.attributes t) with
  | Some l => if truthy l then Some l else None
  | None => None
  end.

(** A segment as it enters the abstract: the label in brackets when there
    is one, the text, and a separating space. *)
Definition labelledSegment (t : XNode) : jsstr :=
  (match segmentLabel t with
   | Some l => lit "[" ++ l ++ lit "] "
   | None => []
   end) ++ Dom.textContent t ++ lit " ".

(** The sentinel for a document without abstract. *)
Definition unavailable : jsstr := lit "No abstract available.".

(** The segments of a document in document order, concatenated. *)
Definition segmentsText (node : XNode) : jsstr :=
  concat (List.map labelledSegment
            (Dom.querySelectorAll (lit "AbstractText") node)).

(** The abstract of a document in the words of the specification: its
    segments in document order, each with its label, concatenated and
    trimmed; the sentinel when nothing is left. *)
Definition labelledAbstract (node : XNode) : jsstr :=
  match trim (segmentsText node) with
  | [] => unavailable
  | c :: s => c :: s
  end.

(** One step of the loop of [collectAbstracts]. *)
Definition storeAbstract (results : gmap jsstr jsstr) (node : XNode)
  : gmap jsstr jsstr :=
  <[pmidOf node := abstractOf node]> results.

(** The link databases of a response, in the order the loops of
    [fetchReferences] visit them. *)
Definition databases (data : JsonData) : list LinkSetDb :=
  match linksets data with
  | Some lss => concat (List.map (fun ls => default [] (linksetdbs ls)) lss)
  | None => []
  end.

(** The raw reference list of a link database: its links, when it is the
    database of the relation [pubmed_pubmed_refs]. *)
Definition rawReferences (db : LinkSetDb) : option (list jsstr) :=
  match linkname db, links db with
  | Some n, Some l =>
      if bool_decide (n = lit "pubmed_pubmed_refs") then Some l else None
  | _, _ => None
  end.

(** The raw reference lists of a response: one per database of the
    relation [pubmed_pubmed_refs], in the order visited.  A link set (the
    answer for one source document) may hold several such databases, or
    none. *)
Definition referenceLists (data : JsonData) : list (list jsstr) :=
  omap rawReferences (databases data).

(** The provenance marker of a full text. *)
Definition provenance (pmcid : jsstr) : jsstr :=
  lit "[FULL TEXT FROM " ++ pmcid ++ lit "]" ++ [10%N].

(** A computation whose only effects are events satisfying [P], appended
    to the log. *)
Definition emits {A} (P : Event -> Prop) (m : M Log A) : Prop :=
  forall w, exists evs, snd (m w) = w ++ evs /\ Forall P evs.

(** A request to one of the addresses [urls], or a backoff wait. *)
Definition requestTo (urls : list jsstr) (ev : Event) : Prop :=
  ev = EvSleep 1000 \/ exists u, u ∈ urls /\ ev = EvFetch u.

(** A request or a wait: anything but a call of the synthesis. *)
Definition networkEvent (ev : Event) : Prop := isReview ev = false.

(** The log [w'] extends [w] by requests and waits only. *)
Definition quiet (w w' : Log) : Prop :=
  exists evs, w' = w ++ evs /\ Forall networkEvent evs.

(** The component state while each phase of [handleDeepReview] runs, and
    at its two ends. *)
Definition duringAbstracts (cl : AppState) : AppState :=
  withStatusMessage (lit "Retrieving abstracts...") (withReviewStatus LOADING cl).

Definition duringFullText (cl : AppState) : AppState :=
  withStatusMessage (lit "Attempting full text retrieval (PMC)...")
                    (duringAbstracts cl).

Definition duringReferences (cl : AppState) : AppState :=
  withStatusMessage (lit "Analyzing citation network...") (duringFullText cl).

Definition duringSynthesis (cl : AppState) : AppState :=
  withStatusMessage (lit "Gemini is synthesizing report...") (duringReferences cl).

Definition failed (st : AppState) : AppState :=
  withReportOutput synthesisErrorMessage (withReviewStatus ERROR st).

Definition succeeded (report : jsstr) (cl : AppState) : AppState :=
  withReviewStatus SUCCESS (withReportOutput report (duringSynthesis cl)).

(** [translatedText || inputText] *)
Definition targetText (cl : AppState) : jsstr :=
  orElse (translatedText cl) (inputText cl).

(** The stages of the pipeline whose failure is not absorbed. *)
Inductive Stage : Type :=
| AbstractFetch
| ReferenceLookup
| ReferenceSummary
| ReferenceAbstracts
| SynthesisCall.

(** [StageRaises E cl w stage wf]: in the run of the pipeline on the
    render [cl] from the log [w], the stages before [stage] go through and
    [stage] throws, leaving the log [wf]. *)
Inductive StageRaises (E : Env) (cl : AppState) (w : Log) : Stage -> Log -> Prop :=
| raises_abstracts e w1 :
    fetchAbstracts E (selectedArticleIds cl) w = (Throw e, w1) ->
    StageRaises E cl w AbstractFetch w1
| raises_references abstracts w1 fullTexts w2 e w3 :
    fetchAbstracts E (selectedArticleIds cl) w = (Ok abstracts, w1) ->
    fullTextLoop E (selectedArticleIds cl) w1 = (Ok fullTexts, w2) ->
    fetchReferences E (selectedArticleIds cl) w2 = (Throw e, w3) ->
    StageRaises E cl w ReferenceLookup w3
| raises_reference_summary abstracts w1 fullTexts w2 refIds w3 e w4 :
    fetchAbstracts E (selectedArticleIds cl) w = (Ok abstracts, w1) ->
    fullTextLoop E (selectedArticleIds cl) w1 = (Ok fullTexts, w2) ->
    fetchReferences E (selectedArticleIds cl) w2 = (Ok refIds, w3) ->
    refIds <> [] ->
    fetchSummary E (take 8 refIds) w3 = (Throw e, w4) ->
    StageRaises E cl w ReferenceSummary w4
| raises_reference_abstracts abstracts w1 fullTexts w2 refIds w3
                             refSummaries w4 e w5 :
    fetchAbstracts E (selectedArticleIds cl) w = (Ok abstracts, w1) ->
    fullTextLoop E (selectedArticleIds cl) w1 = (Ok fullTexts, w2) ->
    fetchReferences E (selectedArticleIds cl) w2 = (Ok refIds, w3) ->
    refIds <> [] ->
    fetchSummary E (take 8 refIds) w3 = (Ok refSummaries, w4) ->
    fetchAbstracts E (take 8 refIds) w4 = (Throw e, w5) ->
    StageRaises E cl w ReferenceAbstracts w5
| raises_synthesis abstracts w1 fullTexts w2 refIds w3 refData w4 :
    fetchAbstracts E (selectedArticleIds cl) w = (Ok abstracts, w1) ->
    fullTextLoop E (selectedArticleIds cl) w1 = (Ok fullTexts, w2) ->
    fetchReferences E (selectedArticleIds cl) w2 = (Ok refIds, w3) ->
    referenceDetail E refIds w3 = (Ok refData, w4) ->
    synthesis E (targetText cl) (mergeSelected cl abstracts fullTexts) refData
    = None ->
    StageRaises E cl w SynthesisCall
      (w4 ++ [EvReview (targetText cl) (mergeSelected cl abstracts fullTexts)
                       refData]).

(* ===================================================================== *)
(** ** Providers and renders used as examples *)
(* ===================================================================== *)

(** A provider that answers every request with 404 Not Found. *)
Definition notFound : Response :=
  {| status := 404; ok := false; body_json := None; body_xml := None |}.

Definition envNotFound : Env :=
  {| network := fun _ _ => Resolves notFound;
     synthesis := fun _ _ _ => None |}.

(** The provider answers a two-identifier batch with the record of the
    first identifier only. *)
Definition docSumOne : DocSum :=
  {| ds_title := lit "Metformin in type 2 diabetes";
     ds_authors := Some [ {| name := lit "Doe J" |}; {| name := lit "Roe R" |} ];
     ds_source := lit "Lancet";
     ds_pubdate := lit "2021 Mar" |}.

Definition articleOne : XNode :=
  XElem (lit "PubmedArticle") []
    [ XElem (lit "PMID") [] [XText (lit "1")];
      XElem (lit "Abstract") []
        [ XElem (lit "AbstractText") [(lit "Label", lit "BACKGROUND")]
            [XText (lit "Aa")];
          XElem (lit "AbstractText") [] [XText (lit "Bb")] ] ].

Definition responseOmits : Response :=
  {| status := 200; ok := true;
     body_json := Some {| result := Some {[ lit "1" := docSumOne ]};
                          linksets := None |};
     body_xml := Some (XElem (lit "PubmedArticleSet") [] [articleOne]) |}.

Definition envOmits : Env :=
  {| network := fun _ _ => Resolves responseOmits;
     synthesis := fun _ _ _ => Some (lit "report") |}.

(** A response of the link endpoint with three sources: the first cites
    five documents, the second shares two of them, the third has no
    reference list. *)
Definition refsDb (l : list jsstr) : LinkSetDb :=
  {| linkname := Some (lit "pubmed_pubmed_refs"); links := Some l |}.

Definition linkData : JsonData :=
  {| result := None;
     linksets := Some
       [ {| linksetdbs := Some [refsDb [lit "11"; lit "12"; lit "13"; lit "14"; lit "15"]] |};
         {| linksetdbs := Some [refsDb [lit "12"; lit "13"; lit "21"; lit "22"]] |};
         {| linksetdbs := None |} ] |}.

Definition envLinks : Env :=
  {| network := fun _ _ =>
       Resolves {| status := 200; ok := true;
                   body_json := Some linkData; body_xml := None |};
     synthesis := fun _ _ _ => Some (lit "report") |}.

(** A provider with a full text for every document: the link endpoint
    names the alternate identifier 777, the text endpoint returns a body
    with irregular white space. *)

Definition pmcLinkData : JsonData :=
  {| result := None;
     linksets := Some
       [ {| linksetdbs := Some
              [ {| linkname := Some (lit "pubmed_pmc");
                   links := Some [lit "777"] |} ] |} ] |}.

Definition pmcBody : XNode :=
  XElem (lit "body") []
    [ XElem (lit "p") [] [XText (lit "  Full ")];
      XText [10%N; 9%N];
      XElem (lit "p") [] [XText (lit "text.")] ].

Definition pmcDocument : XNode :=
  XElem (lit "article") []
    [ XElem (lit "front") [] [XText (lit "meta")]; pmcBody ].

Definition pmcResponse : Response :=
  {| status := 200; ok := true;
     body_json := Some pmcLinkData;
     body_xml := Some pmcDocument |}.

Definition envFullText : Env :=
  {| network := fun _ _ => Resolves pmcResponse;
     synthesis := fun _ _ _ => Some (lit "report") |}.

(** A provider without link for the document. *)
Definition noLinkResponse : Response :=
  {| status := 200; ok := true;
     body_json := Some {| result := None; linksets := Some [] |};
     body_xml := Some pmcDocument |}.

Definition envNoLink : Env :=
  {| network := fun _ _ => Resolves noLinkResponse;
     synthesis := fun _ _ _ => Some (lit "report") |}.

(** A render with one article listed and selected, nothing in flight. *)
Definition articleShell (i : jsstr) : PubMedArticle :=
  {| id := i; pmid := i; title := lit "Metformin in type 2 diabetes";
     titleJa := None; authors := lit "Doe J, Roe R"; journal := lit "Lancet";
     pubdate := lit "2021 Mar"; abstract := None; fullText := None |}.

Definition renderSelected : AppState :=
  {| inputText := lit "metformin";
     translatedText := [];
     articles := [articleShell (lit "1"); articleShell (lit "2")];
     selectedArticleIds := [lit "1"];
     reviewStatus := IDLE;
     statusMessage := [];
     reportOutput := [] |}.

(** The same render while a pipeline is in flight. *)
Definition renderInFlight : AppState :=
  withStatusMessage (lit "Retrieving abstracts...")
                    (withReviewStatus LOADING renderSelected).

(** A provider whose answers carry everything at once: summary records
    for the documents 11 and 12, one link set citing 11 and 12, an article
    node for PMID 1 and a [body] element. *)
Definition demoData : JsonData :=
  {| result := Some {[ lit "11" := docSumOne; lit "12" := docSumOne ]};
     linksets := Some [ {| linksetdbs := Some [refsDb [lit "11"; lit "12"]] |} ] |}.

Definition demoDocument : XNode :=
  XElem (lit "root") [] [articleOne; pmcBody].

Definition demoResponse : Response :=
  {| status := 200; ok := true;
     body_json := Some demoData; body_xml := Some demoDocument |}.

Definition envDemo : Env :=
  {| network := fun _ _ => Resolves demoResponse;
     synthesis := fun _ _ _ => Some (lit "report") |}.

(** What the demo provider yields for the selection of [renderSelected]. *)
Definition demoAbstracts : gmap jsstr jsstr :=
  {[ lit "1" := lit "[BACKGROUND] Aa Bb" ]}.

Definition demoFullTexts : gmap jsstr jsstr :=
  {[ lit "1" := provenance (lit "PMC11") ++ lit " Full text." ]}.

Definition demoRefData : list PubMedArticle :=
  [ withAbstract [] (articleShell (lit "11"));
    withAbstract [] (articleShell (lit "12")) ].

(** The four request addresses of the successful demo run before the
    reference detail. *)
Definition demoLogAbstracts : Log := [EvFetch (abstractsUrl [lit "1"])].

Definition demoLogFullText : Log :=
  demoLogAbstracts ++ [EvFetch (pmcLinkUrl (lit "1"));
                       EvFetch (pmcTextUrl (lit "PMC11"))].

Definition demoLogReferences : Log :=
  demoLogFullText ++ [EvFetch (referencesUrl [lit "1"])].

Definition demoLogDetail : Log :=
  demoLogReferences ++ [EvFetch (summaryUrl [lit "11"; lit "12"]);
                        EvFetch (abstractsUrl [lit "11"; lit "12"])].

(** What one link set, the answer for one source document, adds to the
    working set before deduplication. *)
Definition contribution (ls : LinkSet) : list jsstr :=
  concat (List.map admitted (default [] (linksetdbs ls))).

(** The reference databases of a link set. *)
Definition referenceDatabases (ls : LinkSet) : list (list jsstr) :=
  omap rawReferences (default [] (linksetdbs ls)).

(** A response of the link endpoint for one source document whose link
    set holds two reference databases of four links each. *)
Definition twoDatabases : LinkSet :=
  {| linksetdbs := Some [ refsDb [lit "11"; lit "12"; lit "13"; lit "14"];
                          refsDb [lit "21"; lit "22"; lit "23"; lit "24"] ] |}.

Definition envTwoDatabases : Env :=
  {| network := fun _ _ =>
       Resolves {| status := 200; ok := true;
                   body_json := Some {| result := None;
                                        linksets := Some [twoDatabases] |};
                   body_xml := None |};
     synthesis := fun _ _ _ => Some (lit "report") |}.

(** A response of the abstract endpoint with two article nodes carrying
    the same PMID: the first has a text, the second has no segment. *)
Definition articleFirst : XNode :=
  XElem (lit "PubmedArticle") []
    [ XElem (lit "PMID") [] [XText (lit "9")];
      XElem (lit "AbstractText") [] [XText (lit "first")] ].

Definition articleSecond : XNode :=
  XElem (lit "PubmedArticle") [] [ XElem (lit "PMID") [] [XText (lit "9")] ].

Definition envSamePmid : Env :=
  {| network := fun _ _ =>
       Resolves {| status := 200; ok := true;
                   body_json := None;
                   body_xml := Some (XElem (lit "PubmedArticleSet") []
                                       [articleFirst; articleSecond]) |};
     synthesis := fun _ _ _ => Some (lit "report") |}.

(** A response with two article nodes of different PMIDs: [articleOne]
    followed by a node without segments. *)
Definition articleBare : XNode :=
  XElem (lit "PubmedArticle") [] [ XElem (lit "PMID") [] [XText (lit "2")] ].

Definition responsePair : Response :=
  {| status := 200; ok := true;
     body_json := None;
     body_xml := Some (XElem (lit "PubmedArticleSet") [] [articleOne; articleBare]) |}.

Definition envPair : Env :=
  {| network := fun _ _ => Resolves responsePair;
     synthesis := fun _ _ _ => Some (lit "report") |}.

(* ===================================================================== *)
(** ** Further notions: the fetch layer *)
(* ===================================================================== *)

(** The request number [k] to [url] does not go through: [fetch] rejects
    or the response is not [ok]. *)
Definition failsAt (E : Env) (url : jsstr) (k : nat) : Prop :=
  network E url k = Rejects \/
  exists res, network E url k = Resolves res /\ ok res = false.

(** [k] rounds of a request followed by the backoff wait. *)
Fixpoint backoffTrace (url : jsstr) (k : nat) : Log :=
  match k with
  | O => []
  | S j => EvFetch url :: EvSleep 1000 :: backoffTrace url j
  end.

(** What a failed attempt throws when the budget is spent: the rejection
    of [fetch] itself, or the [Error] built from the status. *)
Definition attemptError (o : FetchOutcome) : Exn :=
  match o with
  | Rejects => NetworkError
  | Resolves res => NcbiApiFailed (status res)
  end.

(** Number of backoff waits so far. *)
Definition sleepCount (w : Log) : nat := length (List.filter isSleep w).

(** A provider that answers 404 twice and then succeeds. *)
Definition envFlaky : Env :=
  {| network := fun _ k => if (k <? 2)%nat then Resolves notFound
                           else Resolves responseOmits;
     synthesis := fun _ _ _ => Some (lit "report") |}.

(** A provider that cannot be reached. *)
Definition envOffline : Env :=
  {| network := fun _ _ => Rejects;
     synthesis := fun _ _ _ => Some (lit "report") |}.

(** The effects of one call of [fetchWithRetry] that needs [k] retries:
    [k] rounds of request and wait, then the last request. *)
Definition attempts (url : jsstr) (k : nat) : Log :=
  backoffTrace url k ++ [EvFetch url].

(** White space only. *)
Definition blank (s : jsstr) : Prop := Forall (fun c => isSpace c = true) s.

(* ===================================================================== *)
(** ** Further providers used as examples *)
(* ===================================================================== *)

(** An article whose only segment is white space, next to [articleOne]. *)
Definition articleBlank : XNode :=
  XElem (lit "PubmedArticle") []
    [ XElem (lit "PMID") [] [XText (lit "2")];
      XElem (lit "AbstractText") [] [XText [32%N; 10%N]] ].

Definition envTwoArticles : Env :=
  {| network := fun _ _ =>
       Resolves {| status := 200; ok := true;
                   body_json := Some demoData;
                   body_xml := Some (XElem (lit "PubmedArticleSet") []
                                       [articleOne; articleBlank]) |};
     synthesis := fun _ _ _ => Some (lit "report") |}.

(* ===================================================================== *)
(** ** The rest of the service: [executePubMedSearch] *)
(* ===================================================================== *)

(** [encodeURIComponent], on UTF-16 code units. *)
Module Uri.

(** The characters left as they are: letters, digits and [-_.!~*'()]. *)
Definition isUnreserved (c : char) : bool :=
  ((65 <=? c) && (c <=? 90) || (97 <=? c) && (c <=? 122)
   || (48 <=? c) && (c <=? 57)
   || (c =? 45) || (c =? 95) || (c =? 46) || (c =? 33) || (c =? 126)
   || (c =? 42) || (c =? 39) || (c =? 40) || (c =? 41))%N.

(** An upper-case hexadecimal digit. *)
Definition hexDigit (n : N) : char :=
  (if n <? 10 then 48 + n else 55 + n)%N.

(** [%XX] for one octet. *)
Definition percent (b : N) : jsstr := [37%N; hexDigit (b / 16); hexDigit (b mod 16)].

(** The UTF-8 octets of a code point. *)
Definition utf8 (cp : N) : list N :=
  (if cp <? 128 then [cp]
   else if cp <? 2048 then [192 + cp / 64; 128 + cp mod 64]
   else if cp <? 65536 then
     [224 + cp / 4096; 128 + (cp / 64) mod 64; 128 + cp mod 64]
   else
     [240 + cp / 262144; 128 + (cp / 4096) mod 64;
      128 + (cp / 64) mod 64; 128 + cp mod 64])%N.

Definition escape (cp : N) : jsstr := concat (List.map percent (utf8 cp)).

Definition isLead (c : char) : bool := ((55296 <=? c) && (c <=? 56319))%N.
Definition isTrail (c : char) : bool := ((56320 <=? c) && (c <=? 57343))%N.

(** [encodeURIComponent(s)]; [None] when it throws a [URIError] (a
    surrogate without its pair). *)
Fixpoint encodeURIComponent (s : jsstr) : option jsstr :=
  match s with
  | [] => Some []
  | c :: r =>
      if isUnreserved c then
        match encodeURIComponent r with
        | Some e => Some (c :: e)
        | None => None
        end
      else if isTrail c then None
      else if isLead c then
        match r with
        | d :: r' =>
            if isTrail d then
              match encodeURIComponent r' with
              | Some e =>
                  Some (escape (65536 + (c - 55296) * 1024 + (d - 56320))%N ++ e)
              | None => None
              end
            else None
        | [] => None
        end
      else
        match encodeURIComponent r with
        | Some e => Some (escape c ++ e)
        | None => None
        end
  end.

End Uri.

(** The decimal digits of a number, most significant first. *)
Fixpoint digits (u : Decimal.uint) : jsstr :=
  match u with
  | Decimal.Nil => []
  | Decimal.D0 r => 48%N :: digits r
  | Decimal.D1 r => 49%N :: digits r
  | Decimal.D2 r => 50%N :: digits r
  | Decimal.D3 r => 51%N :: digits r
  | Decimal.D4 r => 52%N :: digits r
  | Decimal.D5 r => 53%N :: digits r
  | Decimal.D6 r => 54%N :: digits r
  | Decimal.D7 r => 55%N :: digits r
  | Decimal.D8 r => 56%N :: digits r
  | Decimal.D9 r => 57%N :: digits r
  end.

(** The decimal numeral of an integer [z].  It is what [`${z}`] gives when
    [z] is a safe integer (below 2^53 in magnitude), the only use made of
    it. *)
Definition decimal (z : Z) : jsstr :=
  match Z.to_int z with
  | Decimal.Pos u => digits u
  | Decimal.Neg u => 45%N :: digits u
  end.

(** A number the component stores and shows but never computes with: a
    literal of the source, or the value of [parseInt] on a property
    ([None]: the property is missing).  [parseInt] is left
    uninterpreted. *)
Inductive JsNumber : Type :=
| NumLit (z : Z)
| ParseInt (arg : option jsstr).

(** [data.esearchresult], with the properties [executePubMedSearch]
    reads. *)
Record ESearchResult := {
  es_count : option jsstr;
  es_idlist : option (list jsstr)
}.

(** [SearchResult] of [types.ts]. *)
Record SearchResult := {
  count : JsNumber;
  ids : list jsstr
}.

(** [AnalysisResult] of [types.ts], as [handleInitialAnalyze] reads it:
    [JSON.parse(response.text || "{}")] may lack every property. *)
Record AnalysisResult := {
  englishText : option jsstr;
  meshTerms : option (list jsstr)
}.

(** What throws on this side of the component: an exception of the
    service, the [URIError] of [encodeURIComponent], or a failure of the
    language model client ([generateContent] rejects, or [JSON.parse]
    throws outside a [try]). *)
Inductive UiExn : Type :=
| ServiceError (e : Exn)
| URIError
| ModelError.

Inductive UiResult (A : Type) : Type :=
| UiOk (a : A)
| UiThrow (e : UiExn).
Arguments UiOk {A} a.
Arguments UiThrow {A} e.

(** Computations of this side. *)
Definition UI (S A : Type) : Type := S -> UiResult A * S.

Definition uret {S A} (a : A) : UI S A := fun s => (UiOk a, s).

Definition uthrow {S A} (e : UiExn) : UI S A := fun s => (UiThrow e, s).

Definition ubind {S A B} (m : UI S A) (k : A -> UI S B) : UI S B :=
  fun s =>
    match m s with
    | (UiOk a, s') => k a s'
    | (UiThrow e, s') => (UiThrow e, s')
    end.

Definition utry {S A} (m : UI S A) (h : UiExn -> UI S A) : UI S A :=
  fun s =>
    match m s with
    | (UiOk a, s') => (UiOk a, s')
    | (UiThrow e, s') => h e s'
    end.

(** A call of a function of the service. *)
Definition fromService {A} (m : M Log A) : UI Log A :=
  fun w =>
    match m w with
    | (Ok a, w') => (UiOk a, w')
    | (Throw e, w') => (UiThrow (ServiceError e), w')
    end.

Declare Scope ui_scope.
Delimit Scope ui_scope with ui.
Notation "x <~ m ;; k" := (ubind m (fun x => k))
  (at level 100, m at next level, right associativity) : ui_scope.
Notation "m ;;~ k" := (ubind m (fun _ => k))
  (at level 100, right associativity) : ui_scope.
Local Open Scope ui_scope.

(** [Number.isSafeInteger(z)]: an integer that a JavaScript number holds
    exactly, and between two of which the subtraction is exact when the
    difference is one too. *)
Definition safeInteger (z : Z) : bool :=
  (- 2 ^ 53 <? z) && (z <? 2 ^ 53).

(** The environment of the search and analysis handlers: that of the
    service, the year of [new Date().getFullYear()], the text of line 31
    for a number of years with which the subtraction or the printing
    rounds (left uninterpreted: [roundedDates]), the property
    [esearchresult] of the body of the response to request number [n] for
    [url] ([None]: missing), and the language model behind
    [callGeminiAnalysis] ([None]: the call fails) and
    [callGeminiTitleTranslation] ([None]: [generateContent] rejects;
    [Some None]: its text is not JSON). *)
Record UiEnv := {
  base : Env;
  currentYear : Z;
  roundedDates : Z -> jsstr;
  searchBody : jsstr -> nat -> option ESearchResult;
  analysisModel : jsstr -> option AnalysisResult;
  titleModel : list PubMedArticle -> option (option (gmap jsstr jsstr))
}.

Section Search.

Context (U : UiEnv).

(** Line 31: [`&mindate=${currentYear - years}&maxdate=${currentYear}`].
    The numbers are doubles: the text is that of the integers when the
    year, the number of years and their difference are safe integers. *)
Definition dates (years : Z) : jsstr :=
  if safeInteger (currentYear U) && safeInteger years
     && safeInteger (currentYear U - years)
  then lit "&mindate=" ++ decimal (currentYear U - years)
         ++ lit "&maxdate=" ++ decimal (currentYear U)
  else roundedDates U years.

(** The address built on lines 29-33; [None] when [encodeURIComponent]
    throws. *)
Definition searchUrl (keywords : list jsstr) (years : Z) : option jsstr :=
  match Uri.encodeURIComponent (join (lit " AND ") keywords) with
  | Some term =>
      Some (EUTILS_BASE ++ lit "/esearch.fcgi?db=pubmed&term=" ++ term
              ++ dates years
              ++ lit "&retmode=json&retmax=30&sort=relevance")
  | None => None
  end.

(** Lines 37-40: the result built from [data.esearchresult]; reading a
    property of [undefined] throws. *)
Definition searchResultOf (es : option ESearchResult) : UI Log SearchResult :=
  match es with
  | Some e => uret {| count := ParseInt (es_count e);
                      ids := default [] (es_idlist e) |}
  | None => uthrow (ServiceError TypeError)
  end.

(** [executePubMedSearch(keywords, years)].  The response read is the
    answer to the last request of the fetch layer. *)
Definition executePubMedSearch (keywords : list jsstr) (years : Z)
  : UI Log SearchResult :=
  match searchUrl keywords years with
  | None => uthrow URIError
  | Some url =>
      res <~ fromService (fetchWithRetry (base U) url 3) ;;
      data <~ fromService (json res) ;;
      fun w => searchResultOf (searchBody U url (fetchCount w - 1)) w
  end.

End Search.

(* ===================================================================== *)
(** ** The rest of the component: analysis, search and selection *)
(* ===================================================================== *)

(** The state cells the analysis, search and selection handlers read or
    write.  [translatedText] and [meshTerms] can be set to [undefined]
    ([None]) by [handleInitialAnalyze]. *)
Module Ui.

Record State := {
  inputText : jsstr;
  translatedText : option jsstr;
  meshTerms : option (list jsstr);
  selectedTerms : list jsstr;
  analyzeStatus : ProcessStatus;
  articles : list PubMedArticle;
  searchStatus : ProcessStatus;
  totalHits : JsNumber;
  yearRange : Z;
  selectedArticleIds : list jsstr;
  translatingTitles : bool
}.

Definition setTranslatedText (v : option jsstr) (st : State) : State :=
  {| inputText := inputText st; translatedText := v;
     meshTerms := meshTerms st; selectedTerms := selectedTerms st;
     analyzeStatus := analyzeStatus st; articles := articles st;
     searchStatus := searchStatus st; totalHits := totalHits st;
     yearRange := yearRange st; selectedArticleIds := selectedArticleIds st;
     translatingTitles := translatingTitles st |}.

Definition setMeshTerms (v : option (list jsstr)) (st : State) : State :=
  {| inputText := inputText st; translatedText := translatedText st;
     meshTerms := v; selectedTerms := selectedTerms st;
     analyzeStatus := analyzeStatus st; articles := articles st;
     searchStatus := searchStatus st; totalHits := totalHits st;
     yearRange := yearRange st; selectedArticleIds := selectedArticleIds st;
     translatingTitles := translatingTitles st |}.

Definition setSelectedTerms (v : list jsstr) (st : State) : State :=
  {| inputText := inputText st; translatedText := translatedText st;
     meshTerms := meshTerms st; selectedTerms := v;
     analyzeStatus := analyzeStatus st; articles := articles st;
     searchStatus := searchStatus st; totalHits := totalHits st;
     yearRange := yearRange st; selectedArticleIds := selectedArticleIds st;
     translatingTitles := translatingTitles st |}.

Definition setAnalyzeStatus (v : ProcessStatus) (st : State) : State :=
  {| inputText := inputText st; translatedText := translatedText st;
     meshTerms := meshTerms st; selectedTerms := selectedTerms st;
     analyzeStatus := v; articles := articles st;
     searchStatus := searchStatus st; totalHits := totalHits st;
     yearRange := yearRange st; selectedArticleIds := selectedArticleIds st;
     translatingTitles := translatingTitles st |}.

Definition setArticles (v : list PubMedArticle) (st : State) : State :=
  {| inputText := inputText st; translatedText := translatedText st;
     meshTerms := meshTerms st; selectedTerms := selectedTerms st;
     analyzeStatus := analyzeStatus st; articles := v;
     searchStatus := searchStatus st; totalHits := totalHits st;
     yearRange := yearRange st; selectedArticleIds := selectedArticleIds st;
     translatingTitles := translatingTitles st |}.

Definition setSearchStatus (v : ProcessStatus) (st : State) : State :=
  {| inputText := inputText st; translatedText := translatedText st;
     meshTerms := meshTerms st; selectedTerms := selectedTerms st;
     analyzeStatus := analyzeStatus st; articles := articles st;
     searchStatus := v; totalHits := totalHits st;
     yearRange := yearRange st; selectedArticleIds := selectedArticleIds st;
     translatingTitles := translatingTitles st |}.

Definition setTotalHits (v : JsNumber) (st : State) : State :=
  {| inputText := inputText st; translatedText := translatedText st;
     meshTerms := meshTerms st; selectedTerms := selectedTerms st;
     analyzeStatus := analyzeStatus st; articles := articles st;
     searchStatus := searchStatus st; totalHits := v;
     yearRange := yearRange st; selectedArticleIds := selectedArticleIds st;
     translatingTitles := translatingTitles st |}.

Definition setSelectedArticleIds (v : list jsstr) (st : State) : State :=
  {| inputText := inputText st; translatedText := translatedText st;
     meshTerms := meshTerms st; selectedTerms := selectedTerms st;
     analyzeStatus := analyzeStatus st; articles := articles st;
     searchStatus := searchStatus st; totalHits := totalHits st;
     yearRange := yearRange st; selectedArticleIds := v;
     translatingTitles := translatingTitles st |}.

Definition setTranslatingTitles (v : bool) (st : State) : State :=
  {| inputText := inputText st; translatedText := translatedText st;
     meshTerms := meshTerms st; selectedTerms := selectedTerms st;
     analyzeStatus := analyzeStatus st; articles := articles st;
     searchStatus := searchStatus st; totalHits := totalHits st;
     yearRange := yearRange st; selectedArticleIds := selectedArticleIds st;
     translatingTitles := v |}.

End Ui.

(** [Set.prototype.delete] on a [Set<string>] kept in insertion order. *)
Definition setDelete (s : list jsstr) (x : jsstr) : list jsstr :=
  List.filter (fun y => negb (bool_decide (y = x))) s.

(** [new Set(array)]: the elements in the order of their first
    occurrence. *)
Definition setOf (l : list jsstr) : list jsstr := fold_left setAdd l [].

(** Lines 139-151: the body shared by [toggleTerm] and [toggleArticle]:
    a copy of the set with the element removed when it is a member and
    added otherwise. *)
Definition toggled (s : list jsstr) (x : jsstr) : list jsstr :=
  if has s x then setDelete s x else setAdd s x.

Definition toggleTerm (term : jsstr) (st : Ui.State) : Ui.State :=
  Ui.setSelectedTerms (toggled (Ui.selectedTerms st) term) st.

Definition toggleArticle (i : jsstr) (st : Ui.State) : Ui.State :=
  Ui.setSelectedArticleIds (toggled (Ui.selectedArticleIds st) i) st.

(** [{...a, titleJa: v}] *)
Definition withTitleJa (v : jsstr) (a : PubMedArticle) : PubMedArticle :=
  {| id := id a; pmid := pmid a; title := title a; titleJa := Some v;
     authors := authors a; journal := journal a; pubdate := pubdate a;
     abstract := abstract a; fullText := fullText a |}.

(** A call of the language model made by these handlers. *)
Inductive ModelCall : Type :=
| CallAnalysis (text : jsstr)
| CallTitles (listed : list PubMedArticle).

(** The world of these handlers: the state cells, the log of the network
    and the calls of the language model. *)
Definition UiWorld : Type := Ui.State * Log * list ModelCall.

Section Handlers.

Context (U : UiEnv).

Definition onNet {A} (m : UI Log A) : UI UiWorld A :=
  fun s =>
    match s with
    | (st, w, c) => match m w with (r, w') => (r, (st, w', c)) end
    end.

Definition onModel {A} (m : UI (list ModelCall) A) : UI UiWorld A :=
  fun s =>
    match s with
    | (st, w, c) => match m c with (r, c') => (r, (st, w, c')) end
    end.

Definition update (f : Ui.State -> Ui.State) : UI UiWorld unit :=
  fun s =>
    match s with
    | (st, w, c) => (UiOk tt, (f st, w, c))
    end.

(** [callGeminiAnalysis(inputText)] *)
Definition callGeminiAnalysis (text : jsstr) : UI (list ModelCall) AnalysisResult :=
  fun c =>
    match analysisModel U text with
    | Some r => (UiOk r, c ++ [CallAnalysis text])
    | None => (UiThrow ModelError, c ++ [CallAnalysis text])
    end.

(** [callGeminiTitleTranslation(articles)]: nothing is asked for an
    empty list; a text that is not JSON gives the empty mapping. *)
Definition callGeminiTitleTranslation (listed : list PubMedArticle)
  : UI (list ModelCall) (gmap jsstr jsstr) :=
  match listed with
  | [] => uret ∅
  | _ :: _ =>
      fun c =>
        match titleModel U listed with
        | None => (UiThrow ModelError, c ++ [CallTitles listed])
        | Some None => (UiOk ∅, c ++ [CallTitles listed])
        | Some (Some m) => (UiOk m, c ++ [CallTitles listed])
        end
  end.

(** The [try] block of [handleInitialAnalyze] (lines 47-51). *)
Definition analyzeTry (cl : Ui.State) : UI UiWorld unit :=
  result <~ onModel (callGeminiAnalysis (Ui.inputText cl)) ;;
  update (Ui.setTranslatedText (englishText result)) ;;~
  update (Ui.setMeshTerms (meshTerms result)) ;;~
  match meshTerms result with
  | None => uthrow (ServiceError TypeError)
  | Some terms =>
      update (Ui.setSelectedTerms (setOf (take 5 terms))) ;;~
      update (Ui.setAnalyzeStatus SUCCESS)
  end.

(** [handleInitialAnalyze] (lines 42-56). *)
Definition handleInitialAnalyze (cl : Ui.State) (w : Log) (c : list ModelCall)
  : UiWorld :=
  if truthy (trim (Ui.inputText cl)) then
    snd ((update (Ui.setAnalyzeStatus LOADING) ;;~
          update (Ui.setMeshTerms (Some [])) ;;~
          utry (analyzeTry cl)
               (fun _ => update (Ui.setAnalyzeStatus ERROR))) (cl, w, c))
  else (cl, w, c).

(** The translated titles merged into the listed articles (lines 76-79):
    [setArticles(prev => prev.map(...))]. *)
Definition mergeTitles (jpTitles : gmap jsstr jsstr) (st : Ui.State) : Ui.State :=
  Ui.setArticles
    (List.map (fun a => withTitleJa (optOrElse (jpTitles !! id a) []) a)
              (Ui.articles st)) st.

(** The [try] block of [handleSearch] (lines 65-83). *)
Definition searchTry (cl : Ui.State) : UI UiWorld unit :=
  found <~ onNet (executePubMedSearch U (Ui.selectedTerms cl) (Ui.yearRange cl)) ;;
  update (Ui.setTotalHits (count found)) ;;~
  match ids found with
  | _ :: _ =>
      summaries <~ onNet (fromService (fetchSummary (base U) (ids found))) ;;
      update (Ui.setArticles summaries) ;;~
      update (Ui.setSearchStatus SUCCESS) ;;~
      update (Ui.setTranslatingTitles true) ;;~
      jpTitles <~ onModel (callGeminiTitleTranslation summaries) ;;
      update (mergeTitles jpTitles) ;;~
      update (Ui.setTranslatingTitles false)
  | [] => update (Ui.setSearchStatus SUCCESS)
  end.

(** [handleSearch] (lines 58-88). *)
Definition handleSearch (cl : Ui.State) (w : Log) (c : list ModelCall) : UiWorld :=
  match Ui.selectedTerms cl with
  | [] => (cl, w, c)
  | _ :: _ =>
      snd ((update (Ui.setSearchStatus LOADING) ;;~
            update (Ui.setArticles []) ;;~
            update (Ui.setSelectedArticleIds []) ;;~
            utry (searchTry cl)
                 (fun _ => update (Ui.setSearchStatus ERROR))) (cl, w, c))
  end.

End Handlers.

(** A character an encoded component consists of: one left as it is, or
    the percent sign (the hexadecimal digits are among the former). *)
Definition urlSafe (c : char) : bool := Uri.isUnreserved c || (c =? 37)%N.

(** A UTF-16 code unit. *)
Definition codeUnit (c : char) : Prop := (c < 65536)%N.

(** Neither half of a surrogate pair. *)
Definition scalar (c : char) : Prop := Uri.isLead c = false /\ Uri.isTrail c = false.

(* ===================================================================== *)
(** ** Further examples: the search and the analysis *)
(* ===================================================================== *)

Definition demoTerms : list jsstr :=
  [lit "Metformin"; lit "Diabetes"; lit "Metformin"; lit "Insulin";
   lit "HbA1c"; lit "Obesity"; lit "Kidney"].

Definition demoHits : ESearchResult :=
  {| es_count := Some (lit "2"); es_idlist := Some [lit "11"; lit "12"] |}.

(** A provider that finds two documents, and a model that answers. *)
Definition uiDemo : UiEnv :=
  {| base := envDemo;
     currentYear := 2024;
     roundedDates := fun _ => [];
     searchBody := fun _ _ => Some demoHits;
     analysisModel := fun text =>
       Some {| englishText := Some text; meshTerms := Some demoTerms |};
     titleModel := fun _ => Some (Some {[ lit "11" := lit "JA title" ]}) |}.

(** The same provider finding nothing. *)
Definition uiNoHits : UiEnv :=
  {| base := envDemo;
     currentYear := 2024;
     roundedDates := fun _ => [];
     searchBody := fun _ _ =>
       Some {| es_count := Some (lit "0"); es_idlist := Some [] |};
     analysisModel := analysisModel uiDemo;
     titleModel := titleModel uiDemo |}.

(** The model cannot be reached. *)
Definition uiMute : UiEnv :=
  {| base := envDemo;
     currentYear := 2024;
     roundedDates := fun _ => [];
     searchBody := searchBody uiDemo;
     analysisModel := fun _ => None;
     titleModel := fun _ => None |}.

(** The model answers without the list of terms. *)
Definition uiPartial : UiEnv :=
  {| base := envDemo;
     currentYear := 2024;
     roundedDates := fun _ => [];
     searchBody := searchBody uiDemo;
     analysisModel := fun text =>
       Some {| englishText := Some text; meshTerms := None |};
     titleModel := titleModel uiDemo |}.

(** The provider cannot be reached. *)
Definition uiOffline : UiEnv :=
  {| base := envOffline;
     currentYear := 2024;
     roundedDates := fun _ => [];
     searchBody := searchBody uiDemo;
     analysisModel := analysisModel uiDemo;
     titleModel := titleModel uiDemo |}.

(** The provider answers the search but omits the records. *)
Definition uiOmits : UiEnv :=
  {| base := envOmits;
     currentYear := 2024;
     roundedDates := fun _ => [];
     searchBody := searchBody uiDemo;
     analysisModel := analysisModel uiDemo;
     titleModel := titleModel uiDemo |}.

Definition uiStart : Ui.State :=
  {| Ui.inputText := lit "metformin and kidney";
     Ui.translatedText := Some [];
     Ui.meshTerms := Some [];
     Ui.selectedTerms := [];
     Ui.analyzeStatus := IDLE;
     Ui.articles := [];
     Ui.searchStatus := IDLE;
     Ui.totalHits := NumLit 0;
     Ui.yearRange := 5;
     Ui.selectedArticleIds := [];
     Ui.translatingTitles := false |}.

(** A render with two terms chosen and an earlier result on display. *)
Definition uiReady : Ui.State :=
  {| Ui.inputText := lit "metformin and kidney";
     Ui.translatedText := Some (lit "metformin and kidney");
     Ui.meshTerms := Some demoTerms;
     Ui.selectedTerms := [lit "Metformin"; lit "Diabetes"];
     Ui.analyzeStatus := SUCCESS;
     Ui.articles := [articleShell (lit "99")];
     Ui.searchStatus := SUCCESS;
     Ui.totalHits := NumLit 1;
     Ui.yearRange := 5;
     Ui.selectedArticleIds := [lit "99"];
     Ui.translatingTitles := false |}.

(* ===================================================================== *)
(** ** Further notions: the search handler *)
(* ===================================================================== *)

(** The state after the three resets that open [handleSearch]. *)
Definition searchCleared (cl : Ui.State) : Ui.State :=
  Ui.setSelectedArticleIds [] (Ui.setArticles [] (Ui.setSearchStatus LOADING cl)).

(** The state once the summaries are listed and the translation is
    announced. *)
Definition searchListed (cl : Ui.State) (found : SearchResult)
    (summaries : list PubMedArticle) : Ui.State :=
  Ui.setTranslatingTitles true
    (Ui.setSearchStatus SUCCESS
       (Ui.setArticles summaries
          (Ui.setTotalHits (count found) (searchCleared cl)))).



(* ===================================================================== *)
(** ** The content of a paper in the prompt of the synthesis *)
(* ===================================================================== *)

(** Line 513, in [callGeminiReview]:
    [a.fullText || a.abstract || "Abstract unavailable"]. *)
Definition contentOf (a : PubMedArticle) : jsstr :=
  match fullText a with
  | Some (Some t) =>
      if truthy t then t
      else optOrElse (abstract a) (lit "Abstract unavailable")
  | _ => optOrElse (abstract a) (lit "Abstract unavailable")
  end.

(** Line 520: [r.abstract || "Abstract unavailable"]. *)
Definition referenceContentOf (r : PubMedArticle) : jsstr :=
  optOrElse (abstract r) (lit "Abstract unavailable").

(* ===================================================================== *)
(** ** Laws of the promise monad *)
(* ===================================================================== *)

Section MonadLaws.

Context {S A B : Type}.

Lemma bind_ok (m : M S A) (k : A -> M S B) s a s' :
  m s = (Ok a, s') -> bind m k s = k a s'.
Proof. intros H. unfold bind. by rewrite H. Qed.

Lemma bind_throw (m : M S A) (k : A -> M S B) s e s' :
  m s = (Throw e, s') -> bind m k s = (Throw e, s').
Proof. intros H. unfold bind. by rewrite H. Qed.

Lemma bind_inv_ok (m : M S A) (k : A -> M S B) s b s2 :
  bind m k s = (Ok b, s2) ->
  exists a s1, m s = (Ok a, s1) /\ k a s1 = (Ok b, s2).
Proof.
  unfold bind. destruct (m s) as [[a|e] s1]; intros H; [eauto | discriminate].
Qed.

Lemma try_catch_ok (m : M S A) h s a s' :
  m s = (Ok a, s') -> try_catch m h s = (Ok a, s').
Proof. intros H. unfold try_catch. by rewrite H. Qed.

Lemma try_catch_throw (m : M S A) h s e s' :
  m s = (Throw e, s') -> try_catch m h s = h e s'.
Proof. intros H. unfold try_catch. by rewrite H. Qed.

End MonadLaws.

(* ===================================================================== *)
(** ** The resilient fetch layer *)
(* ===================================================================== *)


Section FetchLayer.

Context (E : Env).

Lemma attempt_zero_not_again url w w' :
  attempt E url 0 w <> (Ok Again, w').
Proof.
  unfold attempt, try_catch, bind, fetch.
  destruct (network E url (fetchCount w)) as [res|]; simpl; [|discriminate].
  destruct (ok res); simpl; discriminate.
Qed.

(** A successful response is returned at once: one request, no wait. *)
Lemma fetchWithRetry_success url n w res :
  network E url (fetchCount w) = Resolves res ->
  ok res = true ->
  fetchWithRetry E url n w = (Ok res, w ++ [EvFetch url]).
Proof.
  intros Hn Hok.
  destruct n; simpl; unfold bind, attempt, try_catch, bind, fetch;
    rewrite Hn; simpl; rewrite Hok; reflexivity.
Qed.

(** With budget left, a failed attempt of any kind (a rejected [fetch]
    or any status that is not [ok]) is followed by the 1000 ms wait and
    a new call with the budget decreased. *)
Lemma fetchWithRetry_again url n w :
  (network E url (fetchCount w) = Rejects \/
   exists res, network E url (fetchCount w) = Resolves res /\ ok res = false) ->
  fetchWithRetry E url (Datatypes.S n) w
  = fetchWithRetry E url n (w ++ [EvFetch url; EvSleep 1000]).
Proof.
  intros H.
  assert (Hw : (w ++ [EvFetch url]) ++ [EvSleep 1000]
               = w ++ [EvFetch url; EvSleep 1000])
    by (rewrite <- app_assoc; reflexivity).
  cbn [fetchWithRetry]. unfold bind at 1.
  assert (Ha : attempt E url (Datatypes.S n) w
               = (Ok Again, w ++ [EvFetch url; EvSleep 1000])).
  { unfold attempt, try_catch, bind, fetch, sleep, ret, throw.
    destruct H as [H | (res & H & Hok)]; rewrite H; simpl.
    - by rewrite Hw.
    - rewrite Hok. simpl.
      destruct ((status res =? 429) || (500 <=? status res)); simpl;
        by rewrite Hw. }
  by rewrite Ha.
Qed.

(** With the budget exhausted, a failed attempt surfaces. *)
Lemma fetchWithRetry_exhausted_status url w res :
  network E url (fetchCount w) = Resolves res ->
  ok res = false ->
  fetchWithRetry E url 0 w = (Throw (NcbiApiFailed (status res)), w ++ [EvFetch url]).
Proof.
  intros Hn Hok. simpl.
  unfold bind, attempt, try_catch, bind, fetch. rewrite Hn. simpl.
  rewrite Hok. reflexivity.
Qed.

Lemma fetchWithRetry_exhausted_reject url w :
  network E url (fetchCount w) = Rejects ->
  fetchWithRetry E url 0 w = (Throw NetworkError, w ++ [EvFetch url]).
Proof.
  intros Hn. simpl.
  unfold bind, attempt, try_catch, bind, fetch. by rewrite Hn.
Qed.

(** Against a provider that answers every request with the same failed
    response, whatever its status, the whole budget is spent. *)
Lemma fetchWithRetry_always_failing url res n w :
  (forall k, network E url k = Resolves res) ->
  ok res = false ->
  fetchWithRetry E url n w
  = (Throw (NcbiApiFailed (status res)), w ++ retryTrace url n).
Proof.
  intros Hnet Hok. revert w.
  induction n as [|n IH]; intros w.
  - by apply fetchWithRetry_exhausted_status.
  - rewrite fetchWithRetry_again by eauto.
    rewrite IH. by rewrite <- app_assoc.
Qed.

Lemma fetchCount_app (w evs : Log) :
  fetchCount (w ++ evs) = (fetchCount w + fetchCount evs)%nat.
Proof. unfold fetchCount. by rewrite List.filter_app, length_app. Qed.

(** A call with budget [n] issues at most [n + 1] requests. *)
Lemma fetchWithRetry_bounded url n w :
  (fetchCount (snd (fetchWithRetry E url n w)) <= fetchCount w + n + 1)%nat.
Proof.
  assert (H1 : forall w0, fetchCount (w0 ++ [EvFetch url])
                          = Datatypes.S (fetchCount w0)).
  { intros w0. rewrite fetchCount_app. change (fetchCount [EvFetch url]) with 1%nat. lia. }
  assert (H2 : forall w0, fetchCount (w0 ++ [EvFetch url; EvSleep 1000])
                          = Datatypes.S (fetchCount w0)).
  { intros w0. rewrite fetchCount_app.
    change (fetchCount [EvFetch url; EvSleep 1000]) with 1%nat. lia. }
  revert w. induction n as [|n IH]; intros w.
  - destruct (network E url (fetchCount w)) as [res|] eqn:Hn.
    + destruct (ok res) eqn:Hok.
      * rewrite (fetchWithRetry_success _ _ _ _ Hn Hok). cbn [snd]. rewrite H1. lia.
      * rewrite (fetchWithRetry_exhausted_status _ _ _ Hn Hok). cbn [snd].
        rewrite H1. lia.
    + rewrite (fetchWithRetry_exhausted_reject _ _ Hn). cbn [snd]. rewrite H1. lia.
  - destruct (network E url (fetchCount w)) as [res|] eqn:Hn.
    + destruct (ok res) eqn:Hok.
      * rewrite (fetchWithRetry_success _ _ _ _ Hn Hok). cbn [snd]. rewrite H1. lia.
      * rewrite fetchWithRetry_again by eauto.
        specialize (IH (w ++ [EvFetch url; EvSleep 1000])).
        rewrite H2 in IH. lia.
    + rewrite fetchWithRetry_again by eauto.
      specialize (IH (w ++ [EvFetch url; EvSleep 1000])).
      rewrite H2 in IH. lia.
Qed.

End FetchLayer.


(** C1.  A 404 answer is neither the rate-limit status nor a server-class
    status, yet [fetchWithRetry] with the default budget of 3 does not fail
    at once: the [Error] thrown on line 16 is caught by the function's own
    [catch], which waits and retries.  Four requests and three 1000 ms
    waits happen before the failure surfaces. *)
Theorem fetchWithRetry_retries_not_found :
  status notFound <> 429 /\ status notFound < 500 /\ ok notFound = false /\
  fetchWithRetry envNotFound (lit "u") 3 []
  = (Throw (NcbiApiFailed 404),
     [EvFetch (lit "u"); EvSleep 1000;
      EvFetch (lit "u"); EvSleep 1000;
      EvFetch (lit "u"); EvSleep 1000;
      EvFetch (lit "u")]).
Proof.
  split; [discriminate|]. repeat split.
Qed.

(* ===================================================================== *)
(** ** Empty input *)
(* ===================================================================== *)

(** C9.  On the empty identifier list, [fetchSummary] returns the empty
    list, [fetchAbstracts] the empty mapping and [fetchReferences] the
    empty list, and the log of effects is left as it was: no request is
    issued. *)
Theorem empty_input_no_request (E : Env) (w : Log) :
  fetchSummary E [] w = (Ok [], w) /\
  fetchAbstracts E [] w = (Ok ∅, w) /\
  fetchReferences E [] w = (Ok [], w).
Proof. repeat split. Qed.

(* ===================================================================== *)
(** ** The abstract accessor *)
(* ===================================================================== *)


Section AbstractAccessor.

Lemma appendSegment_labelled acc t :
  appendSegment acc t = acc ++ labelledSegment t.
Proof.
  unfold appendSegment, labelledSegment, segmentLabel.
  destruct (Dom.getAttribute _ _) as [l|]; [destruct (truthy l)|]; reflexivity.
Qed.

Lemma fold_appendSegment segs acc :
  fold_left appendSegment segs acc = acc ++ concat (List.map labelledSegment segs).
Proof.
  revert acc. induction segs as [|t segs IH]; intros acc; simpl.
  - by rewrite app_nil_r.
  - rewrite IH, appendSegment_labelled. by rewrite <- app_assoc.
Qed.

(** The source's loop computes the abstract of the specification. *)
Lemma abstractOf_labelled node : abstractOf node = labelledAbstract node.
Proof.
  unfold abstractOf, labelledAbstract, segmentsText.
  rewrite fold_appendSegment. simpl.
  unfold orElse. by destruct (trim _).
Qed.

Lemma labelledAbstract_nonempty node : labelledAbstract node <> [].
Proof.
  unfold labelledAbstract. destruct (trim _); [|discriminate].
  vm_compute. discriminate.
Qed.

Lemma labelledAbstract_blank node :
  trim (segmentsText node) = [] -> labelledAbstract node = unavailable.
Proof. unfold labelledAbstract. by intros ->. Qed.

Lemma labelledAbstract_no_segment node :
  Dom.querySelectorAll (lit "AbstractText") node = [] ->
  labelledAbstract node = unavailable.
Proof.
  intros H. apply labelledAbstract_blank. unfold segmentsText. by rewrite H.
Qed.


Lemma fold_store_other (nodes : list XNode) (m : gmap jsstr jsstr) (k : jsstr) :
  Forall (fun n => pmidOf n <> k) nodes ->
  fold_left storeAbstract nodes m !! k = m !! k.
Proof.
  revert m. induction nodes as [|n nodes IH]; intros m Hall; [done|].
  inversion Hall as [|? ? Hn Hrest]; subst. simpl.
  rewrite IH by done. unfold storeAbstract. by rewrite lookup_insert_ne.
Qed.

Lemma fold_store_last (pre : list XNode) (node : XNode) (post : list XNode)
    (m : gmap jsstr jsstr) :
  Forall (fun n => pmidOf n <> pmidOf node) post ->
  fold_left storeAbstract (pre ++ node :: post) m !! pmidOf node
  = Some (abstractOf node).
Proof.
  intros Hpost. rewrite fold_left_app. simpl.
  rewrite fold_store_other by done.
  unfold storeAbstract. by rewrite lookup_insert_eq.
Qed.

(** Every value of the mapping is the abstract of one of the nodes. *)
Lemma fold_store_values (nodes : list XNode) (m : gmap jsstr jsstr)
    (k v : jsstr) :
  fold_left storeAbstract nodes m !! k = Some v ->
  m !! k = Some v \/
  exists node, node ∈ nodes /\ pmidOf node = k /\ v = abstractOf node.
Proof.
  revert m. induction nodes as [|n nodes IH]; intros m H; [by left|].
  simpl in H. apply IH in H as [H | (node & Hin & Hk & Hv)].
  - unfold storeAbstract in H.
    destruct (decide (pmidOf n = k)) as [Heq|Hne].
    + rewrite Heq, lookup_insert_eq in H. inversion H; subst.
      right. exists n. split; [left | done].
    + rewrite lookup_insert_ne in H by done. by left.
  - right. exists node. split; [by right | done].
Qed.

Lemma collectAbstracts_values (nodes : list XNode) (k v : jsstr) :
  collectAbstracts nodes !! k = Some v ->
  exists node, node ∈ nodes /\ pmidOf node = k /\ v = labelledAbstract node.
Proof.
  intros H. apply fold_store_values in H as [H | (node & Hin & Hk & Hv)].
  - by rewrite lookup_empty in H.
  - exists node. by rewrite <- abstractOf_labelled.
Qed.

Context (E : Env).

(** What [fetchAbstracts] returns once the request went through. *)
Lemma fetchAbstracts_ok ids w res w' xml :
  ids <> [] ->
  fetchWithRetry E (abstractsUrl ids) 3 w = (Ok res, w') ->
  body_xml res = Some xml ->
  fetchAbstracts E ids w
  = (Ok (collectAbstracts (Dom.getElementsByTagName (lit "PubmedArticle") xml)), w').
Proof.
  intros Hids Hf Hx. destruct ids as [|i ids]; [done|].
  unfold fetchAbstracts.
  rewrite (bind_ok _ _ _ _ _ Hf).
  unfold parsedXml. rewrite Hx. reflexivity.
Qed.

(** A failed request, or a body that cannot be read, makes the accessor
    throw. *)
Lemma fetchAbstracts_throw_fetch ids w e w' :
  ids <> [] ->
  fetchWithRetry E (abstractsUrl ids) 3 w = (Throw e, w') ->
  fetchAbstracts E ids w = (Throw e, w').
Proof.
  intros Hids Hf. destruct ids as [|i ids]; [done|].
  unfold fetchAbstracts. by rewrite (bind_throw _ _ _ _ _ Hf).
Qed.

End AbstractAccessor.

(** C8, as it stands, fails: asked for the identifier 9, a provider whose
    answer holds two article nodes carrying that PMID, the first with the
    text "first" and the second without segment, yields the mapping that
    stores the sentinel under 9: the value kept is that of the second
    node, and the abstract of the first document, "first", is nowhere in
    the mapping. *)
Lemma abstract_of_earlier_node_is_overwritten :
  Dom.getElementsByTagName (lit "PubmedArticle")
    (XElem (lit "PubmedArticleSet") [] [articleFirst; articleSecond])
  = [articleFirst; articleSecond] /\
  pmidOf articleFirst = lit "9" /\
  labelledAbstract articleFirst = lit "first" /\
  exists m : gmap jsstr jsstr,
    fetchAbstracts envSamePmid [lit "9"] []
    = (Ok m, [EvFetch (abstractsUrl [lit "9"])]) /\
    m = {[ lit "9" := unavailable ]} /\
    m !! pmidOf articleFirst <> Some (labelledAbstract articleFirst) /\
    (forall k, m !! k <> Some (labelledAbstract articleFirst)).
Proof.
  split; [vm_compute; reflexivity|]. split; [vm_compute; reflexivity|].
  split; [vm_compute; reflexivity|].
  exists {[ lit "9" := unavailable ]}.
  split; [vm_compute; reflexivity|]. split; [done|].
  assert (Hne : unavailable <> labelledAbstract articleFirst)
    by (vm_compute; discriminate).
  split.
  - replace (pmidOf articleFirst) with (lit "9") by (vm_compute; reflexivity).
    rewrite lookup_singleton_eq. congruence.
  - intros k Hk. apply lookup_singleton_Some in Hk as [_ Hk]. congruence.
Qed.

(** C8, amended.  For every article node of the parsed response after
    which no node of the same PMID follows (that is every node when the
    PMIDs differ), the value
    stored under its PMID is the concatenation of its [AbstractText]
    segments in document order, each with its label in brackets when it
    has one, trimmed; it is never the empty string, and it is the
    "unavailable" sentinel when the concatenation trims to the empty
    string, in particular when the node has no segment.  No value of the
    mapping is the empty string. *)
Theorem abstract_value_of_each_document
    (E : Env) (ids : list jsstr) (w w' : Log) (res : Response)
    (xml : XNode) (pre post : list XNode) (node : XNode) :
  ids <> [] ->
  fetchWithRetry E (abstractsUrl ids) 3 w = (Ok res, w') ->
  body_xml res = Some xml ->
  Dom.getElementsByTagName (lit "PubmedArticle") xml = pre ++ node :: post ->
  Forall (fun later => pmidOf later <> pmidOf node) post ->
  exists m,
    fetchAbstracts E ids w = (Ok m, w') /\
    m !! pmidOf node = Some (labelledAbstract node) /\
    labelledAbstract node <> [] /\
    (trim (segmentsText node) = [] -> m !! pmidOf node = Some unavailable) /\
    (Dom.querySelectorAll (lit "AbstractText") node = [] ->
     m !! pmidOf node = Some unavailable) /\
    (forall k, m !! k <> Some []).
Proof.
  intros Hids Hf Hx Hnodes Hpost.
  eexists. split; [by eapply fetchAbstracts_ok|].
  rewrite Hnodes.
  assert (Hl : collectAbstracts (pre ++ node :: post) !! pmidOf node
               = Some (labelledAbstract node)).
  { rewrite <- abstractOf_labelled. by apply fold_store_last. }
  split; [done|]. split; [apply labelledAbstract_nonempty|].
  split; [intros Hblank; by rewrite Hl, labelledAbstract_blank|]. split.
  - intros Hnone. by rewrite Hl, labelledAbstract_no_segment.
  - intros k Hk. apply collectAbstracts_values in Hk as (n & _ & _ & Hv).
    symmetry in Hv. by apply labelledAbstract_nonempty in Hv.
Qed.

Lemma abstract_value_of_each_document_witness :
  (exists m : gmap jsstr jsstr,
     fetchAbstracts envPair [lit "1"; lit "2"] []
     = (Ok m, [EvFetch (abstractsUrl [lit "1"; lit "2"])]) /\
     m !! pmidOf articleOne = Some (labelledAbstract articleOne) /\
     labelledAbstract articleOne <> [] /\
     (trim (segmentsText articleOne) = [] ->
      m !! pmidOf articleOne = Some unavailable) /\
     (Dom.querySelectorAll (lit "AbstractText") articleOne = [] ->
      m !! pmidOf articleOne = Some unavailable) /\
     (forall k, m !! k <> Some [])) /\
  (exists m : gmap jsstr jsstr,
     fetchAbstracts envPair [lit "1"; lit "2"] []
     = (Ok m, [EvFetch (abstractsUrl [lit "1"; lit "2"])]) /\
     m !! pmidOf articleBare = Some unavailable).
Proof.
  split.
  - apply (abstract_value_of_each_document envPair [lit "1"; lit "2"] []
             [EvFetch (abstractsUrl [lit "1"; lit "2"])] responsePair
             (XElem (lit "PubmedArticleSet") [] [articleOne; articleBare])
             [] [articleBare] articleOne).
    + discriminate.
    + vm_compute. reflexivity.
    + reflexivity.
    + vm_compute. reflexivity.
    + constructor; [|constructor]. vm_compute. discriminate.
  - destruct (abstract_value_of_each_document envPair [lit "1"; lit "2"] []
                [EvFetch (abstractsUrl [lit "1"; lit "2"])] responsePair
                (XElem (lit "PubmedArticleSet") [] [articleOne; articleBare])
                [articleOne] [] articleBare)
      as (m & Hrun & _ & _ & _ & Hnone & _).
    + discriminate.
    + vm_compute. reflexivity.
    + reflexivity.
    + vm_compute. reflexivity.
    + constructor.
    + exists m. split; [exact Hrun|]. apply Hnone. vm_compute. reflexivity.
Defined.

(* ===================================================================== *)
(** ** The summary accessor *)
(* ===================================================================== *)

Section SummaryAccessor.

Lemma summaryRecord_id data i a :
  summaryRecord data i = Ok a -> id a = i /\ pmid a = i.
Proof.
  unfold summaryRecord. destruct (result data) as [r|]; [|discriminate].
  destruct (r !! i); [|discriminate]. intros H. by inversion H.
Qed.

Lemma mapThrowing_summary_ids data ids recs :
  mapThrowing (summaryRecord data) ids = Ok recs ->
  List.map id recs = ids /\ List.map pmid recs = ids.
Proof.
  revert recs. induction ids as [|i ids IH]; intros recs H; simpl in H.
  - by inversion H.
  - destruct (summaryRecord data i) as [a|] eqn:Ha; [|discriminate].
    destruct (mapThrowing _ ids) as [ys|]; [|discriminate].
    inversion H; subst. simpl.
    destruct (summaryRecord_id _ _ _ Ha) as [-> ->].
    destruct (IH ys eq_refl) as [-> ->]. done.
Qed.

Lemma mapThrowing_summary_total data r (ids : list jsstr) :
  result data = Some r ->
  (forall i, i ∈ ids -> is_Some (r !! i)) ->
  exists recs, mapThrowing (summaryRecord data) ids = Ok recs.
Proof.
  intros Hr. induction ids as [|i ids IH]; intros Hall; simpl; [eauto|].
  destruct (Hall i) as [d Hd]; [left|].
  destruct IH as [recs Hrecs]; [intros j Hj; apply Hall; by right|].
  unfold summaryRecord at 1. rewrite Hr, Hd, Hrecs. eauto.
Qed.

(** An identifier without record makes the whole map throw. *)
Lemma mapThrowing_summary_missing data (ids : list jsstr) i :
  i ∈ ids ->
  (forall r, result data = Some r -> r !! i = None) ->
  exists e, mapThrowing (summaryRecord data) ids = Throw e.
Proof.
  intros Hin Hmiss. induction ids as [|j ids IH]; [by inversion Hin|].
  simpl. destruct (summaryRecord data j) as [a|e] eqn:Hj; [|eauto].
  destruct (decide (i = j)) as [->|Hne].
  - exfalso. unfold summaryRecord in Hj.
    destruct (result data) as [r|]; [|discriminate].
    rewrite (Hmiss r eq_refl) in Hj. discriminate.
  - destruct IH as [e He].
    + apply elem_of_cons in Hin as [?|?]; [done|done].
    + rewrite He. eauto.
Qed.

Context (E : Env).

Lemma fetchSummary_inv ids w recs w' :
  ids <> [] ->
  fetchSummary E ids w = (Ok recs, w') ->
  exists res data,
    fetchWithRetry E (summaryUrl ids) 3 w = (Ok res, w') /\
    body_json res = Some data /\
    mapThrowing (summaryRecord data) ids = Ok recs.
Proof.
  intros Hids H. destruct ids as [|i ids]; [done|].
  unfold fetchSummary in H.
  apply bind_inv_ok in H as (res & w1 & Hf & H).
  apply bind_inv_ok in H as (data & w2 & Hj & H).
  unfold json in Hj. destruct (body_json res) as [d|] eqn:Hb; [|discriminate].
  inversion Hj; subst.
  destruct (mapThrowing _ _) as [rs|] eqn:Hm; [|discriminate].
  inversion H; subst. eauto.
Qed.

(** Every record that [fetchSummary] returns carries the identifier it
    was requested for, in input order. *)
Lemma fetchSummary_ids ids w recs w' :
  fetchSummary E ids w = (Ok recs, w') ->
  List.map id recs = ids /\ List.map pmid recs = ids.
Proof.
  intros H. destruct ids as [|i ids]; [by inversion H|].
  apply fetchSummary_inv in H as (res & data & _ & _ & Hm); [|done].
  by apply mapThrowing_summary_ids in Hm.
Qed.

Lemma fetchSummary_ok ids w res w' data r :
  ids <> [] ->
  fetchWithRetry E (summaryUrl ids) 3 w = (Ok res, w') ->
  body_json res = Some data ->
  result data = Some r ->
  (forall i, i ∈ ids -> is_Some (r !! i)) ->
  exists recs, fetchSummary E ids w = (Ok recs, w') /\ List.map id recs = ids.
Proof.
  intros Hids Hf Hb Hr Hall. destruct ids as [|i ids]; [done|].
  destruct (mapThrowing_summary_total data r (i :: ids) Hr Hall) as [recs Hm].
  exists recs. split; [|by apply mapThrowing_summary_ids in Hm as [? _]].
  unfold fetchSummary. rewrite (bind_ok _ _ _ _ _ Hf).
  unfold json. rewrite Hb. unfold bind, ret. by rewrite Hm.
Qed.

(** When the provider's answer lacks one of the identifiers,
    [fetchSummary] throws and returns no record at all. *)
Lemma fetchSummary_missing ids w res w' data i :
  fetchWithRetry E (summaryUrl ids) 3 w = (Ok res, w') ->
  body_json res = Some data ->
  i ∈ ids ->
  (forall r, result data = Some r -> r !! i = None) ->
  exists e, fetchSummary E ids w = (Throw e, w').
Proof.
  intros Hf Hb Hin Hmiss. destruct ids as [|j ids]; [by inversion Hin|].
  destruct (mapThrowing_summary_missing data (j :: ids) i Hin Hmiss) as [e He].
  exists e. unfold fetchSummary. rewrite (bind_ok _ _ _ _ _ Hf).
  unfold json. rewrite Hb. unfold bind, ret. by rewrite He.
Qed.

End SummaryAccessor.

(** The keys of the abstract mapping are the PMIDs found in the response. *)
Lemma collectAbstracts_keys (nodes : list XNode) (k : jsstr) :
  is_Some (collectAbstracts nodes !! k) <-> k ∈ List.map pmidOf nodes.
Proof.
  split.
  - intros [v Hv]. apply collectAbstracts_values in Hv as (n & Hin & Hk & _).
    subst k. apply list_elem_of_In, in_map, list_elem_of_In, Hin.
  - intros Hin. apply list_elem_of_In, in_map_iff in Hin as (n & Hk & Hin).
    apply list_elem_of_In in Hin. subst k.
    induction nodes as [|n0 nodes IH] using rev_ind; [by inversion Hin|].
    unfold collectAbstracts. rewrite fold_left_app. simpl.
    destruct (decide (pmidOf n0 = pmidOf n)) as [Heq|Hne].
    + rewrite Heq, lookup_insert_eq. eauto.
    + rewrite lookup_insert_ne by done.
      apply elem_of_app in Hin as [Hin|Hin]; [by apply IH|].
      apply list_elem_of_singleton in Hin. by subst.
Qed.

(** C2, as it stands, fails: asked for the identifiers 1 and 2 while the
    provider's answer holds identifier 1 only, [fetchSummary] throws (no
    record is returned, not even for 1) and [fetchAbstracts] returns a
    mapping without an entry for 2. *)
Lemma accessors_drop_omitted_identifier :
  fst (fetchSummary envOmits [lit "1"; lit "2"] []) = Throw TypeError /\
  exists m : gmap jsstr jsstr,
    fst (fetchAbstracts envOmits [lit "1"; lit "2"] []) = Ok m /\
    m = {[ lit "1" := lit "[BACKGROUND] Aa Bb" ]} /\
    m !! lit "2" = None.
Proof.
  split; [vm_compute; reflexivity|].
  exists {[ lit "1" := lit "[BACKGROUND] Aa Bb" ]}.
  repeat split; vm_compute; reflexivity.
Qed.

(** C2, amended.  For a non-empty identifier list whose request went
    through: when the provider's result holds a record for every input
    identifier, [fetchSummary] returns exactly one record per input
    identifier, in input order; and [fetchAbstracts] returns a mapping
    whose keys are exactly the PMIDs of the article nodes of the response,
    so it has exactly one entry per input identifier when the response
    holds an article for each of them and for no other. *)
Theorem accessors_one_entry_per_returned_record
    (E : Env) (ids : list jsstr) (w : Log) :
  ids <> [] ->
  (forall res w' data r,
     fetchWithRetry E (summaryUrl ids) 3 w = (Ok res, w') ->
     body_json res = Some data ->
     result data = Some r ->
     (forall i, i ∈ ids -> is_Some (r !! i)) ->
     exists recs,
       fetchSummary E ids w = (Ok recs, w') /\
       List.map id recs = ids /\ length recs = length ids) /\
  (forall res w' xml,
     fetchWithRetry E (abstractsUrl ids) 3 w = (Ok res, w') ->
     body_xml res = Some xml ->
     exists m,
       fetchAbstracts E ids w = (Ok m, w') /\
       (forall k, is_Some (m !! k) <->
                  k ∈ List.map pmidOf
                        (Dom.getElementsByTagName (lit "PubmedArticle") xml)) /\
       ((forall k, k ∈ List.map pmidOf
                         (Dom.getElementsByTagName (lit "PubmedArticle") xml)
                   <-> k ∈ ids) ->
        forall k, is_Some (m !! k) <-> k ∈ ids)).
Proof.
  intros Hids. split.
  - intros res w' data r Hf Hb Hr Hall.
    destruct (fetchSummary_ok E ids w res w' data r) as (recs & Hrun & Hmap);
      try done.
    exists recs. repeat split; try done.
    apply (f_equal length) in Hmap. by rewrite length_map in Hmap.
  - intros res w' xml Hf Hx. eexists.
    split; [by eapply fetchAbstracts_ok|].
    split; [apply collectAbstracts_keys|].
    intros Hsame k. rewrite <- Hsame. apply collectAbstracts_keys.
Qed.

Lemma accessors_one_entry_per_returned_record_witness :
  [lit "1"] <> [] /\
  (exists recs,
     fetchSummary envOmits [lit "1"] []
     = (Ok recs, [EvFetch (summaryUrl [lit "1"])]) /\
     List.map id recs = [lit "1"] /\ length recs = length [lit "1"]) /\
  (exists m : gmap jsstr jsstr,
     fetchAbstracts envOmits [lit "1"] []
     = (Ok m, [EvFetch (abstractsUrl [lit "1"])]) /\
     forall k, is_Some (m !! k) <-> k ∈ [lit "1"]).
Proof.
  assert (Hne : [lit "1"] <> []) by discriminate.
  destruct (accessors_one_entry_per_returned_record envOmits [lit "1"] [] Hne)
    as [HS HA].
  split; [exact Hne|]. split.
  - apply (HS responseOmits _
              {| result := Some {[ lit "1" := docSumOne ]}; linksets := None |}
              {[ lit "1" := docSumOne ]});
      [vm_compute; reflexivity | reflexivity | reflexivity |].
    intros i Hi. apply list_elem_of_singleton in Hi. subst i.
    exists docSumOne. vm_compute. reflexivity.
  - destruct (HA responseOmits [EvFetch (abstractsUrl [lit "1"])]
                (XElem (lit "PubmedArticleSet") [] [articleOne]))
      as (m & Hrun & _ & Hkeys); [vm_compute; reflexivity | reflexivity |].
    exists m. split; [exact Hrun|]. apply Hkeys.
    intros k. vm_compute. tauto.
Defined.

(* ===================================================================== *)
(** ** The reference resolver *)
(* ===================================================================== *)

Section ReferenceResolver.

Lemma setAdd_elem (s : list jsstr) (x y : jsstr) :
  y ∈ setAdd s x <-> y ∈ s \/ y = x.
Proof.
  unfold setAdd. case_bool_decide as Hx.
  - split; [by left|]. intros [?| ->]; done.
  - rewrite elem_of_app, list_elem_of_singleton. done.
Qed.

Lemma setAdd_NoDup (s : list jsstr) (x : jsstr) :
  NoDup s -> NoDup (setAdd s x).
Proof.
  intros Hs. unfold setAdd. case_bool_decide as Hx; [done|].
  apply NoDup_app. split; [done|]. split.
  - intros y Hy Hy'. apply list_elem_of_singleton in Hy'. by subst.
  - apply NoDup_singleton.
Qed.

Lemma setAdd_length (s : list jsstr) (x : jsstr) :
  (length (setAdd s x) <= Datatypes.S (length s))%nat.
Proof.
  unfold setAdd. case_bool_decide; [lia|].
  rewrite length_app. simpl. lia.
Qed.

Lemma fold_setAdd_elem (xs s : list jsstr) (y : jsstr) :
  y ∈ fold_left setAdd xs s <-> y ∈ s \/ y ∈ xs.
Proof.
  revert s. induction xs as [|x xs IH]; intros s; simpl.
  - split; [by left|]. intros [?|H]; [done|by inversion H].
  - rewrite IH, setAdd_elem, elem_of_cons. tauto.
Qed.

Lemma fold_setAdd_NoDup (xs s : list jsstr) :
  NoDup s -> NoDup (fold_left setAdd xs s).
Proof.
  revert s. induction xs as [|x xs IH]; intros s Hs; simpl; [done|].
  by apply IH, setAdd_NoDup.
Qed.

Lemma fold_setAdd_length (xs s : list jsstr) :
  (length (fold_left setAdd xs s) <= length s + length xs)%nat.
Proof.
  revert s. induction xs as [|x xs IH]; intros s; simpl; [lia|].
  specialize (IH (setAdd s x)). pose proof (setAdd_length s x). lia.
Qed.

(** The members of the working set keep their place: additions go to
    the end. *)
Lemma fold_setAdd_prefix (xs s : list jsstr) :
  s `prefix_of` fold_left setAdd xs s.
Proof.
  revert s. induction xs as [|x xs IH]; intros s; simpl; [done|].
  etrans; [|apply IH]. unfold setAdd. case_bool_decide; [done|].
  by apply prefix_app_r.
Qed.

Lemma admitted_raw (db : LinkSetDb) :
  admitted db = match rawReferences db with
                | Some l => take 3 l
                | None => []
                end.
Proof.
  unfold admitted, rawReferences.
  destruct (linkname db) as [n|], (links db) as [l|]; try done.
  by case_bool_decide.
Qed.

Lemma admitted_length (db : LinkSetDb) : (length (admitted db) <= 3)%nat.
Proof.
  rewrite admitted_raw. destruct (rawReferences db); simpl; [|lia].
  rewrite length_take. lia.
Qed.

(** The nested loops add, one after the other, what each database
    admits. *)
Lemma fold_databases (dbs : list LinkSetDb) (s : list jsstr) :
  fold_left (fun acc db => fold_left setAdd (admitted db) acc) dbs s
  = fold_left setAdd (concat (List.map admitted dbs)) s.
Proof.
  revert s. induction dbs as [|db dbs IH]; intros s; simpl; [done|].
  by rewrite IH, fold_left_app.
Qed.

Lemma fold_linksets (lss : list LinkSet) (s : list jsstr) :
  fold_left addLinkSet lss s
  = fold_left setAdd
      (concat (List.map admitted
                 (concat (List.map (fun ls => default [] (linksetdbs ls)) lss)))) s.
Proof.
  revert s. induction lss as [|ls lss IH]; intros s; simpl; [done|].
  rewrite IH. unfold addLinkSet.
  rewrite List.map_app, concat_app, fold_left_app.
  destruct (linksetdbs ls) as [dbs|]; simpl; [|done].
  by rewrite fold_databases.
Qed.

Lemma collectReferences_flat (data : JsonData) :
  collectReferences data
  = fold_left setAdd (concat (List.map admitted (databases data))) [].
Proof.
  unfold collectReferences, databases.
  destruct (linksets data) as [lss|]; [|done]. apply fold_linksets.
Qed.

Lemma elem_of_admitted_lists (dbs : list LinkSetDb) (x : jsstr) :
  x ∈ concat (List.map admitted dbs)
  <-> exists l, l ∈ omap rawReferences dbs /\ x ∈ take 3 l.
Proof.
  induction dbs as [|db dbs IH]; simpl.
  - split; [by inversion 1|]. intros (l & Hl & _). by inversion Hl.
  - rewrite elem_of_app, IH, admitted_raw.
    destruct (rawReferences db) as [l0|]; simpl.
    + split.
      * intros [H | (l & Hl & Hx)].
        -- exists l0. split; [left|done].
        -- exists l. split; [by right|done].
      * intros (l & Hl & Hx). apply elem_of_cons in Hl as [->|Hl]; [by left|].
        right. eauto.
    + split; [intros [H|H]; [by inversion H|done] | by right].
Qed.

Lemma admitted_total_length (dbs : list LinkSetDb) :
  (length (concat (List.map admitted dbs))
   <= 3 * length (omap rawReferences dbs))%nat.
Proof.
  induction dbs as [|db dbs IH]; [simpl; lia|].
  change (omap rawReferences (db :: dbs))
    with (match rawReferences db with
          | Some l => l :: omap rawReferences dbs
          | None => omap rawReferences dbs
          end).
  change (concat (List.map admitted (db :: dbs)))
    with (admitted db ++ concat (List.map admitted dbs)).
  rewrite length_app, admitted_raw.
  destruct (rawReferences db) as [l|].
  - rewrite length_take. cbn [length]. lia.
  - cbn [length]. lia.
Qed.

Context (E : Env).

Lemma fetchReferences_ok pmids w res w' data :
  pmids <> [] ->
  fetchWithRetry E (referencesUrl pmids) 3 w = (Ok res, w') ->
  body_json res = Some data ->
  fetchReferences E pmids w = (Ok (collectReferences data), w').
Proof.
  intros Hids Hf Hb. destruct pmids as [|i pmids]; [done|].
  unfold fetchReferences. rewrite (bind_ok _ _ _ _ _ Hf).
  unfold json. by rewrite Hb.
Qed.

Lemma fetchReferences_inv pmids w refs w' :
  pmids <> [] ->
  fetchReferences E pmids w = (Ok refs, w') ->
  exists res data,
    fetchWithRetry E (referencesUrl pmids) 3 w = (Ok res, w') /\
    body_json res = Some data /\ refs = collectReferences data.
Proof.
  intros Hids H. destruct pmids as [|i pmids]; [done|].
  unfold fetchReferences in H.
  apply bind_inv_ok in H as (res & w1 & Hf & H).
  apply bind_inv_ok in H as (data & w2 & Hj & H).
  unfold json in Hj. destruct (body_json res) as [d|] eqn:Hb; [|discriminate].
  inversion Hj; subst. inversion H; subst. eauto.
Qed.

End ReferenceResolver.

Lemma contribution_lists (ls : LinkSet) (x : jsstr) :
  x ∈ contribution ls <->
  exists l, l ∈ referenceDatabases ls /\ x ∈ take 3 l.
Proof.
  unfold contribution, referenceDatabases.
  apply (elem_of_admitted_lists (default [] (linksetdbs ls))).
Qed.

Lemma contribution_length (ls : LinkSet) :
  (length (contribution ls) <= 3 * length (referenceDatabases ls))%nat.
Proof.
  unfold contribution, referenceDatabases.
  apply (admitted_total_length (default [] (linksetdbs ls))).
Qed.

Lemma elem_of_contributions (lss : list LinkSet) (x : jsstr) :
  x ∈ concat (List.map contribution lss)
  <-> exists ls, ls ∈ lss /\ x ∈ contribution ls.
Proof.
  induction lss as [|ls lss IH]; simpl.
  - split; [by inversion 1|]. intros (ls & Hls & _). by inversion Hls.
  - rewrite elem_of_app, IH. split.
    + intros [Hx|(ls' & Hls & Hx)].
      * exists ls. split; [left|done].
      * exists ls'. split; [by right|done].
    + intros (ls' & Hls & Hx). apply elem_of_cons in Hls as [->|Hls].
      * by left.
      * right. by exists ls'.
Qed.

Lemma databases_contributions (data : JsonData) :
  concat (List.map admitted (databases data))
  = concat (List.map contribution (default [] (linksets data))).
Proof.
  unfold databases, contribution.
  destruct (linksets data) as [lss|]; [|done]. simpl.
  induction lss as [|ls lss IH]; [done|].
  simpl. by rewrite List.map_app, concat_app, IH.
Qed.

(** C6, as it stands, fails: asked for the one source document 1, a
    provider whose link set for it holds two [pubmed_pubmed_refs]
    databases of four links each yields six references: the cap of 3 is
    applied to each database, and this one source contributes 6 of its raw
    references. *)
Lemma one_source_contributes_six :
  body_json (match network envTwoDatabases (referencesUrl [lit "1"]) 0 with
             | Resolves res => res
             | Rejects => notFound
             end)
  = Some {| result := None; linksets := Some [twoDatabases] |} /\
  fetchReferences envTwoDatabases [lit "1"] []
  = (Ok [lit "11"; lit "12"; lit "13"; lit "21"; lit "22"; lit "23"],
     [EvFetch (referencesUrl [lit "1"])]) /\
  contribution twoDatabases
  = [lit "11"; lit "12"; lit "13"; lit "21"; lit "22"; lit "23"] /\
  (3 < length (contribution twoDatabases))%nat /\
  (3 * length [lit "1"]
   < length [lit "11"; lit "12"; lit "13"; lit "21"; lit "22"; lit "23"])%nat.
Proof.
  split; [reflexivity|]. split; [vm_compute; reflexivity|].
  split; [vm_compute; reflexivity|].
  split; [vm_compute; lia|simpl; lia].
Qed.

(** C6, amended.  Whatever the provider answers, the identifiers that
    [fetchReferences] returns are pairwise distinct; they are exactly the
    members of the first three entries of the raw reference lists of the
    response, one list per [pubmed_pubmed_refs] database, so that each
    such database contributes at most 3 references before deduplication
    and a reference admitted several times appears once.  The output is
    made of what the link sets of the response contribute, and a link set
    (the answer for one source document) contributes at most 3 references
    per reference database it holds: at most 3 when it holds one, none
    when it holds none. *)
Theorem fetchReferences_set_of_capped_lists
    (E : Env) (pmids : list jsstr) (w w' : Log) (refs : list jsstr) :
  fetchReferences E pmids w = (Ok refs, w') ->
  NoDup refs /\
  (exists raw : list (list jsstr),
    (pmids <> [] ->
     exists res data,
       fetchWithRetry E (referencesUrl pmids) 3 w = (Ok res, w') /\
       body_json res = Some data /\ raw = referenceLists data /\
       (forall x, x ∈ refs <->
                  exists ls, ls ∈ default [] (linksets data) /\
                             x ∈ contribution ls)) /\
    (forall x, x ∈ refs <-> exists l, l ∈ raw /\ x ∈ take 3 l) /\
    (forall l, l ∈ raw -> (length (take 3 l) <= 3)%nat) /\
    (length refs <= 3 * length raw)%nat) /\
  (forall ls : LinkSet,
     (length (contribution ls) <= 3 * length (referenceDatabases ls))%nat /\
     (forall x, x ∈ contribution ls <->
                exists l, l ∈ referenceDatabases ls /\ x ∈ take 3 l) /\
     (forall l, referenceDatabases ls = [l] -> contribution ls = take 3 l) /\
     (referenceDatabases ls = [] -> contribution ls = [])).
Proof.
  intros H. split; [|split].
  - destruct pmids as [|i pmids]; [inversion H; constructor|].
    apply fetchReferences_inv in H as (res & data & Hf & Hb & ->); [|done].
    rewrite collectReferences_flat. apply fold_setAdd_NoDup. constructor.
  - destruct pmids as [|i pmids].
    + inversion H; subst. exists []. repeat split.
      * done.
      * by inversion 1.
      * intros (l & Hl & _). by inversion Hl.
      * intros l Hl. by inversion Hl.
      * simpl. lia.
    + apply fetchReferences_inv in H as (res & data & Hf & Hb & ->); [|done].
      rewrite collectReferences_flat.
      exists (referenceLists data). split; [|split; [|split]].
      * intros _. exists res, data. do 3 (split; [done|]).
        intros x. rewrite fold_setAdd_elem, databases_contributions.
        rewrite elem_of_contributions. split; [|by right].
        intros [Hx|Hx]; [by inversion Hx|done].
      * intros x. rewrite fold_setAdd_elem, elem_of_admitted_lists. split.
        -- intros [Hx|Hx]; [by inversion Hx|done].
        -- intros Hx. by right.
      * intros l _. rewrite length_take. lia.
      * pose proof (fold_setAdd_length
                      (concat (List.map admitted (databases data))) []) as Hlen.
        pose proof (admitted_total_length (databases data)).
        simpl in Hlen. unfold referenceLists. lia.
  - intros ls. split; [apply contribution_length|].
    split; [apply contribution_lists|].
    unfold contribution, referenceDatabases.
    generalize (default [] (linksetdbs ls)). intros dbs. split.
    + intros l. induction dbs as [|db dbs IH]; simpl; [done|].
      unfold rawReferences at 1, admitted at 1.
      destruct (linkname db) as [n|]; [|exact IH].
      destruct (links db) as [l0|]; [|exact IH].
      case_bool_decide; [|exact IH].
      intros Hl. inversion Hl as [[Hl0 Hrest]]. subst l0.
      assert (Hnone : concat (List.map admitted dbs) = []).
      { clear -Hrest. induction dbs as [|d dbs IH]; simpl; [done|].
        simpl in Hrest. unfold rawReferences at 1 in Hrest. unfold admitted at 1.
        destruct (linkname d) as [n|]; [|by apply IH].
        destruct (links d) as [l0|]; [|by apply IH].
        case_bool_decide; [done|by apply IH]. }
      by rewrite Hnone, app_nil_r.
    + induction dbs as [|db dbs IH]; simpl; [done|].
      unfold rawReferences at 1, admitted at 1.
      destruct (linkname db) as [n|]; [|exact IH].
      destruct (links db) as [l0|]; [|exact IH].
      case_bool_decide; [done|exact IH].
Qed.

Lemma fetchReferences_set_of_capped_lists_witness :
  fetchReferences envLinks [lit "1"; lit "2"; lit "3"] []
  = (Ok [lit "11"; lit "12"; lit "13"; lit "21"],
     [EvFetch (referencesUrl [lit "1"; lit "2"; lit "3"])]) /\
  NoDup [lit "11"; lit "12"; lit "13"; lit "21"] /\
  (length (contribution twoDatabases) <= 3 * length (referenceDatabases twoDatabases))%nat.
Proof.
  assert (Hrun : fetchReferences envLinks [lit "1"; lit "2"; lit "3"] []
                 = (Ok [lit "11"; lit "12"; lit "13"; lit "21"],
                    [EvFetch (referencesUrl [lit "1"; lit "2"; lit "3"])]))
    by (vm_compute; reflexivity).
  split; [exact Hrun|].
  destruct (fetchReferences_set_of_capped_lists envLinks _ _ _ _ Hrun)
    as (Hnd & _ & Hls).
  split; [exact Hnd|]. exact (proj1 (Hls twoDatabases)).
Defined.

(* ===================================================================== *)
(** ** The full-text resolver *)
(* ===================================================================== *)

Section FullTextResolver.

(** [collapseSpaces] leaves no white space but single spaces. *)
Lemma collapseFrom_spaces (b : bool) (s : jsstr) (c : char) :
  c ∈ collapseFrom b s -> isSpace c = true -> c = 32%N.
Proof.
  revert b. induction s as [|d s IH]; intros b Hin Hc; simpl in Hin.
  - by inversion Hin.
  - destruct (isSpace d) eqn:Hd.
    + destruct b.
      * by eapply IH.
      * apply elem_of_cons in Hin as [->|Hin]; [done|by eapply IH].
    + apply elem_of_cons in Hin as [->|Hin]; [congruence|by eapply IH].
Qed.

Lemma collapseFrom_true_head (s : jsstr) :
  match collapseFrom true s with
  | [] => True
  | c :: _ => isSpace c = false
  end.
Proof.
  induction s as [|d s IH]; simpl; [done|].
  destruct (isSpace d) eqn:Hd; [exact IH|exact Hd].
Qed.

(** No two white-space code units are adjacent in the result. *)
Lemma collapseFrom_no_run (b : bool) (s pre post : jsstr) (c d : char) :
  collapseFrom b s = pre ++ c :: d :: post ->
  isSpace c = true -> isSpace d = false.
Proof.
  revert b pre. induction s as [|e s IH]; intros b pre Heq Hc; simpl in Heq.
  - by destruct pre.
  - destruct (isSpace e) eqn:He.
    + destruct b.
      * by eapply IH.
      * destruct pre as [|p pre]; simpl in Heq.
        -- inversion Heq as [[He' Hrest]].
           pose proof (collapseFrom_true_head s) as Hh.
           rewrite Hrest in Hh. exact Hh.
        -- inversion Heq. by eapply IH.
    + destruct pre as [|p pre]; simpl in Heq.
      * inversion Heq; subst. congruence.
      * inversion Heq. by eapply IH.
Qed.

Context (E : Env).

(** The outcome of [fetchFullText], hop by hop. *)
Lemma fetchFullText_cases pmid0 w :
  fetchFullText E pmid0 w =
  match fetchWithRetry E (pmcLinkUrl pmid0) 3 w with
  | (Throw _, w1) => (Ok None, w1)
  | (Ok linkRes, w1) =>
      match body_json linkRes with
      | None => (Ok None, w1)
      | Some linkData =>
          match pmcidOf linkData with
          | None => (Ok None, w1)
          | Some pmcid =>
              match fetchWithRetry E (pmcTextUrl pmcid) 3 w1 with
              | (Throw _, w2) => (Ok None, w2)
              | (Ok pmcRes, w2) =>
                  match body_xml pmcRes with
                  | None => (Ok None, w2)
                  | Some xml =>
                      match Dom.docQuerySelector (lit "body") xml with
                      | None => (Ok None, w2)
                      | Some bodyNode =>
                          (Ok (Some (fullTextString pmcid bodyNode)), w2)
                      end
                  end
              end
          end
      end
  end.
Proof.
  unfold fetchFullText, try_catch, fetchFullTextTry, bind, json, parsedXml,
    ret, throw.
  destruct (fetchWithRetry E (pmcLinkUrl pmid0) 3 w) as [[linkRes|e] w1]; [|done].
  destruct (body_json linkRes) as [linkData|]; [|done].
  destruct (pmcidOf linkData) as [pmcid|]; [|done].
  destruct (fetchWithRetry E (pmcTextUrl pmcid) 3 w1) as [[pmcRes|e] w2]; [|done].
  destruct (body_xml pmcRes) as [xml|]; [|done].
  by destruct (Dom.docQuerySelector (lit "body") xml).
Qed.

Lemma pmcidOf_names_link linkData pmcid :
  pmcidOf linkData = Some pmcid ->
  exists l, firstLink linkData = Some l /\ l <> [] /\ pmcid = lit "PMC" ++ l.
Proof.
  unfold pmcidOf. destruct (firstLink linkData) as [l|]; [|discriminate].
  destruct l as [|c l]; simpl; [discriminate|].
  intros H. inversion H. eauto.
Qed.

Lemma fullTextString_shape pmcid bodyNode :
  exists text,
    fullTextString pmcid bodyNode = provenance pmcid ++ text /\
    text = take 10000 (collapseSpaces (Dom.textContent bodyNode)) /\
    (length text <= 10000)%nat.
Proof.
  eexists. split; [|split; [reflexivity|]].
  - unfold fullTextString, provenance, substring0. reflexivity.
  - rewrite length_take. lia.
Qed.

End FullTextResolver.

(** C4.  Whatever the provider does at either hop, [fetchFullText] does
    not throw: it returns [null] or the provenance marker of the alternate
    identifier followed by the body text with its white space collapsed,
    cut to at most 10000 code units.  In particular it returns [null] when
    the link answer names no alternate identifier and when the document of
    the second hop has no [body] element; and when both hops go through it
    returns the marked text of that [body]. *)
Theorem fetchFullText_absent_or_bounded (E : Env) (pmid0 : jsstr) (w : Log) :
  exists r w',
    fetchFullText E pmid0 w = (Ok r, w') /\
    (r = None \/
     exists pmcid bodyNode text,
       r = Some (provenance pmcid ++ text) /\
       text = take 10000 (collapseSpaces (Dom.textContent bodyNode)) /\
       (length text <= 10000)%nat) /\
    (forall linkRes w1 linkData,
       fetchWithRetry E (pmcLinkUrl pmid0) 3 w = (Ok linkRes, w1) ->
       body_json linkRes = Some linkData ->
       (firstLink linkData = None ->
        r = None /\ w' = w1) /\
       (forall l pmcRes w2 xml,
          firstLink linkData = Some l -> l <> [] ->
          fetchWithRetry E (pmcTextUrl (lit "PMC" ++ l)) 3 w1 = (Ok pmcRes, w2) ->
          body_xml pmcRes = Some xml ->
          (Dom.docQuerySelector (lit "body") xml = None -> r = None) /\
          (forall bodyNode,
             Dom.docQuerySelector (lit "body") xml = Some bodyNode ->
             r = Some (provenance (lit "PMC" ++ l)
                       ++ take 10000 (collapseSpaces (Dom.textContent bodyNode)))))).
Proof.
  rewrite fetchFullText_cases.
  destruct (fetchWithRetry E (pmcLinkUrl pmid0) 3 w) as [[linkRes|e] w1] eqn:Hf1;
    [|exists None, w1; split; [done|split; [by left|intros; discriminate]]].
  destruct (body_json linkRes) as [linkData|] eqn:Hb1;
    [|exists None, w1; split; [done|split; [by left|]];
      intros ? ? ? Hf Hb; inversion Hf; subst; congruence].
  destruct (pmcidOf linkData) as [pmcid|] eqn:Hp.
  - apply pmcidOf_names_link in Hp as (l & Hl & Hne & ->).
    destruct (fetchWithRetry E (pmcTextUrl (lit "PMC" ++ l)) 3 w1)
      as [[pmcRes|e] w2] eqn:Hf2.
    + destruct (body_xml pmcRes) as [xml|] eqn:Hb2.
      * destruct (Dom.docQuerySelector (lit "body") xml) as [bodyNode|] eqn:Hq.
        -- exists (Some (fullTextString (lit "PMC" ++ l) bodyNode)), w2.
           split; [done|]. split.
           ++ right. destruct (fullTextString_shape (lit "PMC" ++ l) bodyNode)
                as (text & Heq & Ht & Hlen).
              exists (lit "PMC" ++ l), bodyNode, text. by rewrite Heq.
           ++ intros linkRes' w1' linkData' Hf Hb.
              inversion Hf; subst. rewrite Hb1 in Hb. inversion Hb; subst.
              split; [congruence|].
              intros l' pmcRes' w2' xml' Hl' _ Hf' Hb'.
              rewrite Hl in Hl'. inversion Hl'; subst.
              rewrite Hf2 in Hf'. inversion Hf'; subst.
              rewrite Hb2 in Hb'. inversion Hb'; subst.
              split; [congruence|].
              intros b Hb0. rewrite Hq in Hb0. by inversion Hb0.
        -- exists None, w2. split; [done|]. split; [by left|].
           intros linkRes' w1' linkData' Hf Hb.
           inversion Hf; subst. rewrite Hb1 in Hb. inversion Hb; subst.
           split; [congruence|].
           intros l' pmcRes' w2' xml' Hl' _ Hf' Hb'.
           rewrite Hl in Hl'. inversion Hl'; subst.
           rewrite Hf2 in Hf'. inversion Hf'; subst.
           rewrite Hb2 in Hb'. inversion Hb'; subst.
           split; [done|congruence].
      * exists None, w2. split; [done|]. split; [by left|].
        intros linkRes' w1' linkData' Hf Hb.
        inversion Hf; subst. rewrite Hb1 in Hb. inversion Hb; subst.
        split; [congruence|].
        intros l' pmcRes' w2' xml' Hl' _ Hf' Hb'.
        rewrite Hl in Hl'. inversion Hl'; subst.
        rewrite Hf2 in Hf'. inversion Hf'; subst. congruence.
    + exists None, w2. split; [done|]. split; [by left|].
      intros linkRes' w1' linkData' Hf Hb.
      inversion Hf; subst. rewrite Hb1 in Hb. inversion Hb; subst.
      split; [congruence|].
      intros l' pmcRes' w2' xml' Hl' _ Hf' Hb'.
      rewrite Hl in Hl'. inversion Hl'; subst. congruence.
  - exists None, w1. split; [done|]. split; [by left|].
    intros linkRes' w1' linkData' Hf Hb.
    inversion Hf; subst. rewrite Hb1 in Hb. inversion Hb; subst.
    split; [done|].
    intros l pmcRes w2 xml Hl Hne. exfalso.
    unfold pmcidOf in Hp. rewrite Hl in Hp. by destruct l.
Qed.

Lemma fetchFullText_absent_or_bounded_witness :
  (exists r w',
     fetchFullText envFullText (lit "1") [] = (Ok r, w') /\
     r = Some (provenance (lit "PMC777") ++ lit " Full text.")) /\
  (exists r w',
     fetchFullText envNoLink (lit "1") [] = (Ok r, w') /\ r = None).
Proof.
  split.
  - destruct (fetchFullText_absent_or_bounded envFullText (lit "1") [])
      as (r & w' & Hrun & _ & Hhops).
    exists r, w'. split; [exact Hrun|].
    destruct (Hhops pmcResponse [EvFetch (pmcLinkUrl (lit "1"))] pmcLinkData)
      as [_ Hsecond]; [vm_compute; reflexivity | reflexivity |].
    destruct (Hsecond (lit "777") pmcResponse
                [EvFetch (pmcLinkUrl (lit "1"));
                 EvFetch (pmcTextUrl (lit "PMC777"))] pmcDocument)
      as [_ Hbody];
      [reflexivity | discriminate | vm_compute; reflexivity | reflexivity |].
    rewrite (Hbody pmcBody) by (vm_compute; reflexivity).
    vm_compute. reflexivity.
  - destruct (fetchFullText_absent_or_bounded envNoLink (lit "1") [])
      as (r & w' & Hrun & _ & Hhops).
    exists r, w'. split; [exact Hrun|].
    destruct (Hhops noLinkResponse [EvFetch (pmcLinkUrl (lit "1"))]
                {| result := None; linksets := Some [] |})
      as [Hnone _]; [vm_compute; reflexivity | reflexivity |].
    apply Hnone. reflexivity.
Defined.

(* ===================================================================== *)
(** ** The effects of the service functions *)
(* ===================================================================== *)

Section Effects.

Context {A B : Type} (P : Event -> Prop).

Lemma emits_ret (a : A) : emits P (ret a).
Proof. intros w. exists []. by rewrite app_nil_r. Qed.

Lemma emits_throw (e : Exn) : emits P (throw e : M Log A).
Proof. intros w. exists []. by rewrite app_nil_r. Qed.

Lemma emits_bind (m : M Log A) (k : A -> M Log B) :
  emits P m -> (forall a, emits P (k a)) -> emits P (bind m k).
Proof.
  intros Hm Hk w. unfold bind.
  destruct (Hm w) as (evs & Hw & Hevs).
  destruct (m w) as [[a|e] w1]; simpl in Hw; subst w1.
  - destruct (Hk a (w ++ evs)) as (evs' & Hw' & Hevs').
    exists (evs ++ evs'). rewrite Hw', <- app_assoc.
    split; [done|by apply Forall_app].
  - by exists evs.
Qed.

Lemma emits_try_catch (m : M Log A) (h : Exn -> M Log A) :
  emits P m -> (forall e, emits P (h e)) -> emits P (try_catch m h).
Proof.
  intros Hm Hh w. unfold try_catch.
  destruct (Hm w) as (evs & Hw & Hevs).
  destruct (m w) as [[a|e] w1]; simpl in Hw; subst w1.
  - by exists evs.
  - destruct (Hh e (w ++ evs)) as (evs' & Hw' & Hevs').
    exists (evs ++ evs'). rewrite Hw', <- app_assoc.
    split; [done|by apply Forall_app].
Qed.

Lemma emits_weaken (Q : Event -> Prop) (m : M Log A) :
  (forall ev, P ev -> Q ev) -> emits P m -> emits Q m.
Proof.
  intros HPQ Hm w. destruct (Hm w) as (evs & Hw & Hevs).
  exists evs. split; [done|]. eapply Forall_impl; eauto.
Qed.

End Effects.

Lemma emits_forOf {A B : Type} (P : Event -> Prop)
    (xs : list A) (body : B -> A -> M Log B) (acc : B) :
  (forall b x, emits P (body b x)) -> emits P (forOf xs body acc).
Proof.
  intros Hbody. revert acc. induction xs as [|x xs IH]; intros acc; simpl.
  - apply emits_ret.
  - apply emits_bind; [apply Hbody|]. intros b. apply IH.
Qed.

Section ServiceEffects.

Context (E : Env).

Lemma requestTo_mono urls urls' ev :
  (forall u, u ∈ urls -> u ∈ urls') -> requestTo urls ev -> requestTo urls' ev.
Proof. intros Hsub [->|(u & Hu & ->)]; [by left|right; eauto]. Qed.

Lemma requestTo_network urls ev : requestTo urls ev -> networkEvent ev.
Proof. by intros [->|(u & _ & ->)]. Qed.

Lemma emits_fetch url : emits (requestTo [url]) (fetch E url).
Proof.
  intros w. exists [EvFetch url]. unfold fetch.
  split; [by destruct (network E url (fetchCount w))|].
  constructor; [|constructor]. right. exists url. split; [left|done].
Qed.

Lemma emits_sleep url : emits (requestTo [url]) (sleep 1000).
Proof.
  intros w. exists [EvSleep 1000]. split; [done|].
  constructor; [by left|constructor].
Qed.

Lemma emits_attempt url n : emits (requestTo [url]) (attempt E url n).
Proof.
  unfold attempt. apply emits_try_catch.
  - apply emits_bind; [apply emits_fetch|]. intros res.
    destruct (negb (ok res)); [|apply emits_ret].
    destruct (_ && _); [|apply emits_throw].
    apply emits_bind; [apply emits_sleep|]. intros _. apply emits_ret.
  - intros e. destruct (0 <? n)%nat; [|apply emits_throw].
    apply emits_bind; [apply emits_sleep|]. intros _. apply emits_ret.
Qed.

(** [fetchWithRetry] requests its address and waits, nothing else. *)
Lemma emits_fetchWithRetry url n :
  emits (requestTo [url]) (fetchWithRetry E url n).
Proof.
  induction n as [|n IH]; cbn [fetchWithRetry];
    (apply emits_bind; [apply emits_attempt|]); intros [res|];
    try apply emits_ret; [apply emits_throw | apply IH].
Qed.

Lemma emits_json url res : emits (requestTo [url]) (json res).
Proof. unfold json. destruct (body_json res); [apply emits_ret|apply emits_throw]. Qed.

Lemma emits_parsedXml url res : emits (requestTo [url]) (parsedXml res).
Proof.
  unfold parsedXml. destruct (body_xml res); [apply emits_ret|apply emits_throw].
Qed.

(** [fetchSummary] only talks to the summary endpoint. *)
Lemma emits_fetchSummary ids :
  emits (requestTo [summaryUrl ids]) (fetchSummary E ids).
Proof.
  destruct ids as [|i ids]; [apply emits_ret|]. unfold fetchSummary.
  apply emits_bind; [apply emits_fetchWithRetry|]. intros res.
  apply emits_bind; [apply emits_json|]. intros data.
  destruct (mapThrowing _ _); [apply emits_ret|apply emits_throw].
Qed.

(** [fetchAbstracts] only talks to the abstract endpoint. *)
Lemma emits_fetchAbstracts ids :
  emits (requestTo [abstractsUrl ids]) (fetchAbstracts E ids).
Proof.
  destruct ids as [|i ids]; [apply emits_ret|]. unfold fetchAbstracts.
  apply emits_bind; [apply emits_fetchWithRetry|]. intros res.
  apply emits_bind; [apply emits_parsedXml|]. intros xml. apply emits_ret.
Qed.

Lemma emits_fetchReferences ids :
  emits (requestTo [referencesUrl ids]) (fetchReferences E ids).
Proof.
  destruct ids as [|i ids]; [apply emits_ret|]. unfold fetchReferences.
  apply emits_bind; [apply emits_fetchWithRetry|]. intros res.
  apply emits_bind; [apply emits_json|]. intros data. apply emits_ret.
Qed.

Lemma emits_fetchFullText pmid0 : emits networkEvent (fetchFullText E pmid0).
Proof.
  unfold fetchFullText. apply emits_try_catch; [|intros; apply emits_ret].
  unfold fetchFullTextTry.
  apply emits_bind.
  { eapply emits_weaken; [apply requestTo_network|apply emits_fetchWithRetry]. }
  intros linkRes. apply emits_bind.
  { eapply emits_weaken; [apply requestTo_network|apply (emits_json [])]. }
  intros linkData. destruct (pmcidOf linkData) as [pmcid|]; [|apply emits_ret].
  apply emits_bind.
  { eapply emits_weaken; [apply requestTo_network|apply emits_fetchWithRetry]. }
  intros pmcRes. apply emits_bind.
  { eapply emits_weaken; [apply requestTo_network|apply (emits_parsedXml [])]. }
  intros xml. destruct (Dom.docQuerySelector _ _); apply emits_ret.
Qed.

Lemma emits_fullTextLoop ids : emits networkEvent (fullTextLoop E ids).
Proof.
  unfold fullTextLoop. apply emits_forOf. intros b x. unfold fullTextStep.
  apply emits_bind; [apply emits_fetchFullText|]. intros t. apply emits_ret.
Qed.

(** The reference detail only talks to the summary and the abstract
    endpoints, for the first 8 references. *)
Lemma emits_referenceDetail refIds :
  emits (requestTo [summaryUrl (take 8 refIds); abstractsUrl (take 8 refIds)])
        (referenceDetail E refIds).
Proof.
  destruct refIds as [|r refIds]; [apply emits_ret|]. unfold referenceDetail.
  apply emits_bind.
  { eapply emits_weaken; [|apply emits_fetchSummary].
    intros ev. apply requestTo_mono. intros u Hu.
    apply list_elem_of_singleton in Hu. subst. left. }
  intros refSummaries. apply emits_bind.
  { eapply emits_weaken; [|apply emits_fetchAbstracts].
    intros ev. apply requestTo_mono. intros u Hu.
    apply list_elem_of_singleton in Hu. subst. right. left. }
  intros refAbs. apply emits_ret.
Qed.

End ServiceEffects.

(* ===================================================================== *)
(** ** The orchestrator *)
(* ===================================================================== *)

Section Orchestrator.

Context (E : Env).

Lemma svc_run {A} (m : M Log A) (st : AppState) (w : Log) :
  svc m (st, w) = (fst (m w), (st, snd (m w))).
Proof. unfold svc. simpl. by destruct (m w). Qed.

(** The run of the [try] block and of the [catch] block, stage by
    stage. *)
Lemma handleDeepReview_run (cl : AppState) (w : Log) :
  selectedArticleIds cl <> [] ->
  handleDeepReview E cl w =
  match fetchAbstracts E (selectedArticleIds cl) w with
  | (Throw _, w1) => (failed (duringAbstracts cl), w1)
  | (Ok abstracts, w1) =>
      match fullTextLoop E (selectedArticleIds cl) w1 with
      | (Throw _, w2) => (failed (duringFullText cl), w2)
      | (Ok fullTexts, w2) =>
          match fetchReferences E (selectedArticleIds cl) w2 with
          | (Throw _, w3) => (failed (duringReferences cl), w3)
          | (Ok refIds, w3) =>
              match referenceDetail E refIds w3 with
              | (Throw _, w4) => (failed (duringReferences cl), w4)
              | (Ok refData, w4) =>
                  match callGeminiReview E (targetText cl)
                          (mergeSelected cl abstracts fullTexts) refData w4 with
                  | (Throw _, w5) => (failed (duringSynthesis cl), w5)
                  | (Ok report, w5) => (succeeded report cl, w5)
                  end
              end
          end
      end
  end.
Proof.
  intros Hsel. unfold handleDeepReview.
  destruct (selectedArticleIds cl) as [|i ids] eqn:Hids; [done|].
  unfold bind at 1. unfold setReviewStatus at 1, modify at 1.
  cbn [fst snd]. unfold try_catch, deepReviewTry. rewrite Hids.
  unfold bind at 1. unfold setStatusMessage at 1, modify at 1. cbn [fst snd].
  unfold bind at 1. rewrite svc_run.
  destruct (fetchAbstracts E (i :: ids) w) as [[abstracts|e] w1]; cbn [fst snd];
    [|reflexivity].
  unfold bind at 1. unfold setStatusMessage at 1, modify at 1. cbn [fst snd].
  unfold bind at 1. rewrite svc_run.
  destruct (fullTextLoop E (i :: ids) w1) as [[fullTexts|e] w2]; cbn [fst snd];
    [|reflexivity].
  unfold bind at 1. unfold setStatusMessage at 1, modify at 1. cbn [fst snd].
  unfold bind at 1. rewrite svc_run.
  destruct (fetchReferences E (i :: ids) w2) as [[refIds|e] w3]; cbn [fst snd];
    [|reflexivity].
  unfold bind at 1. rewrite svc_run.
  destruct (referenceDetail E refIds w3) as [[refData|e] w4]; cbn [fst snd];
    [|reflexivity].
  unfold bind at 1. unfold setStatusMessage at 1, modify at 1. cbn [fst snd].
  unfold bind at 1. rewrite svc_run. fold (targetText cl).
  destruct (callGeminiReview E (targetText cl) _ refData w4)
    as [[report|e] w5]; cbn [fst snd]; reflexivity.
Qed.

(** The full-text loop absorbs every failure. *)
Lemma fetchFullText_returns pmid0 w :
  exists r w', fetchFullText E pmid0 w = (Ok r, w').
Proof.
  rewrite fetchFullText_cases.
  repeat match goal with
         | |- context [match ?x with _ => _ end] => destruct x
         end; eauto.
Qed.

Lemma forOf_fullText_returns ids acc w :
  exists m w', forOf ids (fullTextStep E) acc w = (Ok m, w').
Proof.
  revert acc w. induction ids as [|i ids IH]; intros acc w; simpl; [by eexists _, _|].
  unfold bind at 1, fullTextStep at 1, bind at 1.
  destruct (fetchFullText_returns i w) as (r & w1 & ->). simpl. apply IH.
Qed.

Lemma fullTextLoop_returns ids w :
  exists m w', fullTextLoop E ids w = (Ok m, w').
Proof. apply forOf_fullText_returns. Qed.

(** The reference detail throws exactly when one of its two accessor
    calls does. *)
Lemma referenceDetail_cases refIds w :
  refIds <> [] ->
  referenceDetail E refIds w =
  match fetchSummary E (take 8 refIds) w with
  | (Throw e, w1) => (Throw e, w1)
  | (Ok refSummaries, w1) =>
      match fetchAbstracts E (take 8 refIds) w1 with
      | (Throw e, w2) => (Throw e, w2)
      | (Ok refAbs, w2) =>
          (Ok (List.map (fun s => withAbstract (optOrElse (refAbs !! id s) []) s)
                        refSummaries), w2)
      end
  end.
Proof.
  intros Hne. destruct refIds as [|r refIds]; [done|].
  unfold referenceDetail, bind.
  destruct (fetchSummary E _ w) as [[refSummaries|e] w1]; [|done].
  by destruct (fetchAbstracts E _ w1) as [[refAbs|e] w2].
Qed.

Lemma callGeminiReview_run target sel refs w :
  callGeminiReview E target sel refs w =
  (match synthesis E target sel refs with
   | Some text => Ok (orElse text (lit "Report generation failed."))
   | None => Throw SynthesisError
   end, w ++ [EvReview target sel refs]).
Proof. unfold callGeminiReview. by destruct (synthesis E target sel refs). Qed.

End Orchestrator.

Section Quiet.

Lemma quiet_refl w : quiet w w.
Proof. exists []. by rewrite app_nil_r. Qed.

Lemma quiet_trans w1 w2 w3 : quiet w1 w2 -> quiet w2 w3 -> quiet w1 w3.
Proof.
  intros (e1 & -> & H1) (e2 & -> & H2). exists (e1 ++ e2).
  rewrite <- app_assoc. split; [done|by apply Forall_app].
Qed.

Lemma quiet_filter w w' :
  quiet w w' -> List.filter isReview w' = List.filter isReview w.
Proof.
  intros (evs & -> & Hevs). rewrite List.filter_app.
  assert (Hnil : List.filter isReview evs = []).
  { induction Hevs as [|ev evs Hev _ IH]; [done|]. simpl.
    unfold networkEvent in Hev. by rewrite Hev. }
  by rewrite Hnil, app_nil_r.
Qed.

Lemma emits_quiet {A} (P : Event -> Prop) (m : M Log A) w r w' :
  emits P m -> (forall ev, P ev -> networkEvent ev) ->
  m w = (r, w') -> quiet w w'.
Proof.
  intros Hm HP Hrun. destruct (Hm w) as (evs & Hw & Hevs).
  rewrite Hrun in Hw. simpl in Hw. exists evs. split; [done|].
  eapply Forall_impl; eauto.
Qed.

Context (E : Env).

Lemma fetchAbstracts_quiet ids w r w' :
  fetchAbstracts E ids w = (r, w') -> quiet w w'.
Proof.
  eapply emits_quiet; [apply emits_fetchAbstracts|apply requestTo_network].
Qed.

Lemma fetchSummary_quiet ids w r w' :
  fetchSummary E ids w = (r, w') -> quiet w w'.
Proof.
  eapply emits_quiet; [apply emits_fetchSummary|apply requestTo_network].
Qed.

Lemma fetchReferences_quiet ids w r w' :
  fetchReferences E ids w = (r, w') -> quiet w w'.
Proof.
  eapply emits_quiet; [apply emits_fetchReferences|apply requestTo_network].
Qed.

Lemma fullTextLoop_quiet ids w r w' :
  fullTextLoop E ids w = (r, w') -> quiet w w'.
Proof. eapply emits_quiet; [apply emits_fullTextLoop|done]. Qed.

Lemma referenceDetail_quiet refIds w r w' :
  referenceDetail E refIds w = (r, w') -> quiet w w'.
Proof.
  eapply emits_quiet; [apply emits_referenceDetail|apply requestTo_network].
Qed.

End Quiet.

(** A run either goes through, ending at [SUCCESS] with the report, or
    one of the five stages throws: the full-text phase never does. *)
Lemma handleDeepReview_outcome (E : Env) (cl : AppState) (w : Log) :
  selectedArticleIds cl <> [] ->
  (exists stage wf, StageRaises E cl w stage wf) \/
  (exists report, fst (handleDeepReview E cl w) = succeeded report cl).
Proof.
  intros Hsel. rewrite (handleDeepReview_run E cl w Hsel).
  destruct (fetchAbstracts E (selectedArticleIds cl) w)
    as [[abstracts|e] w1] eqn:Ha;
    [|left; exists AbstractFetch, w1; by econstructor].
  destruct (fullTextLoop_returns E (selectedArticleIds cl) w1)
    as (fullTexts & w2 & Hl). rewrite Hl.
  destruct (fetchReferences E (selectedArticleIds cl) w2)
    as [[refIds|e] w3] eqn:Hr;
    [|left; exists ReferenceLookup, w3; by econstructor].
  destruct (referenceDetail E refIds w3) as [[refData|e] w4] eqn:Hd.
  - rewrite callGeminiReview_run.
    destruct (synthesis E (targetText cl) (mergeSelected cl abstracts fullTexts)
                refData) as [text|] eqn:Hsyn.
    + right. by eexists.
    + left. eexists SynthesisCall, _. by eapply raises_synthesis.
  - left. destruct refIds as [|r refIds]; [discriminate|].
    rewrite referenceDetail_cases in Hd by done.
    destruct (fetchSummary E _ w3) as [[refSummaries|e1] w3'] eqn:Hs.
    + destruct (fetchAbstracts E _ w3') as [[refAbs|e2] w3''] eqn:Hb;
        [discriminate|].
      inversion Hd; subst.
      exists ReferenceAbstracts, w4. by eapply raises_reference_abstracts.
    + inversion Hd; subst.
      exists ReferenceSummary, w4. by eapply raises_reference_summary.
Qed.

(** C3.  In a run of [handleDeepReview] (the selection is not empty), when
    a stage that is not best-effort throws (the abstract fetch, the
    reference lookup, the summary or the abstract fetch of the references,
    or the synthesis call), the run ends there with [reviewStatus] at
    [ERROR] and [reportOutput] at the generic message; the listed
    articles, the selection, the input and the translated text are as they
    were (the status message is that of the phase reached), so nothing of
    the data gathered by the completed phases reaches the caller, and when the failure precedes the synthesis the
    collaborator is never handed a bundle. *)
Theorem stage_failure_ends_failed
    (E : Env) (cl : AppState) (w wf : Log) (stage : Stage) :
  selectedArticleIds cl <> [] ->
  StageRaises E cl w stage wf ->
  snd (handleDeepReview E cl w) = wf /\
  reviewStatus (fst (handleDeepReview E cl w)) = ERROR /\
  reportOutput (fst (handleDeepReview E cl w)) = synthesisErrorMessage /\
  articles (fst (handleDeepReview E cl w)) = articles cl /\
  selectedArticleIds (fst (handleDeepReview E cl w)) = selectedArticleIds cl /\
  inputText (fst (handleDeepReview E cl w)) = inputText cl /\
  translatedText (fst (handleDeepReview E cl w)) = translatedText cl /\
  (stage <> SynthesisCall ->
   List.filter isReview wf = List.filter isReview w).
Proof.
  intros Hsel Hraise. rewrite (handleDeepReview_run E cl w Hsel).
  destruct Hraise as
    [ e w1 Ha
    | abstracts w1 fullTexts w2 e w3 Ha Hl Hr
    | abstracts w1 fullTexts w2 refIds w3 e w4 Ha Hl Hr Hne Hs
    | abstracts w1 fullTexts w2 refIds w3 refSummaries w4 e w5 Ha Hl Hr Hne Hs Hb
    | abstracts w1 fullTexts w2 refIds w3 refData w4 Ha Hl Hr Hd Hsyn ].
  - rewrite Ha. repeat split. intros _.
    apply quiet_filter. eapply fetchAbstracts_quiet, Ha.
  - rewrite Ha, Hl, Hr. repeat split. intros _.
    apply quiet_filter.
    eapply quiet_trans; [eapply fetchAbstracts_quiet, Ha|].
    eapply quiet_trans; [eapply fullTextLoop_quiet, Hl|].
    eapply fetchReferences_quiet, Hr.
  - rewrite Ha, Hl, Hr, (referenceDetail_cases E refIds w3 Hne), Hs.
    repeat split. intros _.
    apply quiet_filter.
    eapply quiet_trans; [eapply fetchAbstracts_quiet, Ha|].
    eapply quiet_trans; [eapply fullTextLoop_quiet, Hl|].
    eapply quiet_trans; [eapply fetchReferences_quiet, Hr|].
    eapply fetchSummary_quiet, Hs.
  - rewrite Ha, Hl, Hr, (referenceDetail_cases E refIds w3 Hne), Hs, Hb.
    repeat split. intros _.
    apply quiet_filter.
    eapply quiet_trans; [eapply fetchAbstracts_quiet, Ha|].
    eapply quiet_trans; [eapply fullTextLoop_quiet, Hl|].
    eapply quiet_trans; [eapply fetchReferences_quiet, Hr|].
    eapply quiet_trans; [eapply fetchSummary_quiet, Hs|].
    eapply fetchAbstracts_quiet, Hb.
  - rewrite Ha, Hl, Hr, Hd, callGeminiReview_run, Hsyn.
    repeat split. intros Hstage. by destruct Hstage.
Qed.

Lemma stage_failure_ends_failed_witness :
  selectedArticleIds renderSelected <> [] /\
  StageRaises envNotFound renderSelected [] AbstractFetch
    (retryTrace (abstractsUrl [lit "1"]) 3) /\
  snd (handleDeepReview envNotFound renderSelected [])
  = retryTrace (abstractsUrl [lit "1"]) 3 /\
  reviewStatus (fst (handleDeepReview envNotFound renderSelected [])) = ERROR /\
  reportOutput (fst (handleDeepReview envNotFound renderSelected []))
  = synthesisErrorMessage.
Proof.
  assert (Hsel : selectedArticleIds renderSelected <> []) by discriminate.
  assert (Hraise : StageRaises envNotFound renderSelected [] AbstractFetch
                     (retryTrace (abstractsUrl [lit "1"]) 3)).
  { apply (raises_abstracts _ _ _ (NcbiApiFailed 404)). vm_compute. reflexivity. }
  destruct (stage_failure_ends_failed envNotFound renderSelected [] _ _ Hsel Hraise)
    as (Hlog & Hstatus & Hreport & _).
  repeat split; assumption.
Defined.

(* ===================================================================== *)
(** ** Re-entrance *)
(* ===================================================================== *)

(** The handler's own guard: an empty selection. *)
Lemma handleDeepReview_empty_selection (E : Env) (st : AppState) (w : Log) :
  selectedArticleIds st = [] -> handleDeepReview E st w = (st, w).
Proof. intros H. unfold handleDeepReview. by rewrite H. Qed.

(** Outside a run and with a selection, the control starts the handler. *)
Lemma clickSynthesize_enabled (E : Env) (st : AppState) (w : Log) :
  reviewStatus st <> LOADING -> selectedArticleIds st <> [] ->
  clickSynthesize E st w = handleDeepReview E st w.
Proof.
  intros Hs Hsel. unfold clickSynthesize, synthesizeDisabled.
  by rewrite !bool_decide_eq_false_2.
Qed.

(** A button whose pipeline is in flight dispatches nothing. *)
Lemma clickSynthesize_disabled (E : Env) (st : AppState) (w : Log) :
  reviewStatus st = LOADING ->
  synthesizeDisabled st = true /\ clickSynthesize E st w = (st, w).
Proof.
  intros H. unfold clickSynthesize, synthesizeDisabled.
  by rewrite (bool_decide_eq_true_2 _ H).
Qed.

(** The run with its renders, stage by stage: the final world is that of
    [handleDeepReview], and one state is shown per call awaited. *)
Lemma handleDeepReviewRenders_run (E : Env) (cl : AppState) (w : Log) :
  selectedArticleIds cl <> [] ->
  handleDeepReviewRenders E cl w =
  match fetchAbstracts E (selectedArticleIds cl) w with
  | (Throw _, w1) => ((failed (duringAbstracts cl), w1), [duringAbstracts cl])
  | (Ok abstracts, w1) =>
      match fullTextLoop E (selectedArticleIds cl) w1 with
      | (Throw _, w2) =>
          ((failed (duringFullText cl), w2),
           [duringAbstracts cl; duringFullText cl])
      | (Ok fullTexts, w2) =>
          match fetchReferences E (selectedArticleIds cl) w2 with
          | (Throw _, w3) =>
              ((failed (duringReferences cl), w3),
               [duringAbstracts cl; duringFullText cl; duringReferences cl])
          | (Ok refIds, w3) =>
              match referenceDetail E refIds w3 with
              | (Throw _, w4) =>
                  ((failed (duringReferences cl), w4),
                   [duringAbstracts cl; duringFullText cl; duringReferences cl;
                    duringReferences cl])
              | (Ok refData, w4) =>
                  match callGeminiReview E (targetText cl)
                          (mergeSelected cl abstracts fullTexts) refData w4 with
                  | (Throw _, w5) =>
                      ((failed (duringSynthesis cl), w5),
                       [duringAbstracts cl; duringFullText cl; duringReferences cl;
                        duringReferences cl; duringSynthesis cl])
                  | (Ok report, w5) =>
                      ((succeeded report cl, w5),
                       [duringAbstracts cl; duringFullText cl; duringReferences cl;
                        duringReferences cl; duringSynthesis cl])
                  end
              end
          end
      end
  end.
Proof.
  intros Hsel. unfold handleDeepReviewRenders.
  destruct (selectedArticleIds cl) as [|i ids] eqn:Hids; [done|].
  unfold deepReviewTryRenders. rewrite Hids. fold (targetText cl).
  cbv [tbind ttry setting await svc setReviewStatus setStatusMessage
       setReportOutput modify deepReviewCatch bind fst snd].
  destruct (fetchAbstracts E (i :: ids) w) as [[abstracts|e] w1]; [|reflexivity].
  destruct (fullTextLoop E (i :: ids) w1) as [[fullTexts|e] w2]; [|reflexivity].
  destruct (fetchReferences E (i :: ids) w2) as [[refIds|e] w3]; [|reflexivity].
  destruct (referenceDetail E refIds w3) as [[refData|e] w4]; [|reflexivity].
  by destruct (callGeminiReview E (targetText cl)
                 (mergeSelected cl abstracts fullTexts) refData w4)
    as [[report|e] w5].
Qed.

(** C5.  While a pipeline is in flight a second initiation is ignored.
    The entry point [handleDeepReview] is reached through one control, the
    "Synthesize Evidence" button, whose guard is keyed on the status
    alone: it is disabled whenever [reviewStatus] is [LOADING].  In every
    run, every state the component shows while the run is suspended at an
    [await] (the first is shown as soon as the run has started, and there
    are at most five, one per call awaited, each with the message of its
    phase) has the status [LOADING]: the handler sets it first and writes
    the status again only when it ends.  So in each of them the button is
    disabled, and a click on it performs no phase work (no request, no
    call of the synthesis: the log is as it was) and leaves the state
    unchanged. *)
Theorem second_initiation_ignored_while_in_flight
    (E : Env) (cl : AppState) (w : Log) :
  fst (handleDeepReviewRenders E cl w) = handleDeepReview E cl w /\
  (selectedArticleIds cl <> [] ->
   exists rest,
     snd (handleDeepReviewRenders E cl w) = duringAbstracts cl :: rest) /\
  snd (handleDeepReviewRenders E cl w)
    `prefix_of` [duringAbstracts cl; duringFullText cl; duringReferences cl;
                 duringReferences cl; duringSynthesis cl] /\
  (forall st, reviewStatus st = LOADING -> synthesizeDisabled st = true) /\
  forall st,
    st ∈ snd (handleDeepReviewRenders E cl w) ->
    reviewStatus st = LOADING /\
    synthesizeDisabled st = true /\
    forall E' w', clickSynthesize E' st w' = (st, w').
Proof.
  assert (Hguard : forall st, reviewStatus st = LOADING ->
                              synthesizeDisabled st = true).
  { intros st Hst. by apply (clickSynthesize_disabled E st []). }
  destruct (decide (selectedArticleIds cl = [])) as [Hnil|Hsel].
  { unfold handleDeepReviewRenders, handleDeepReview. rewrite Hnil. simpl.
    split; [done|]. split; [done|]. split; [apply prefix_nil|].
    split; [done|]. intros st Hst. by inversion Hst. }
  assert (Hshown : forall st,
            st ∈ [duringAbstracts cl; duringFullText cl; duringReferences cl;
                  duringReferences cl; duringSynthesis cl] ->
            reviewStatus st = LOADING).
  { intros st Hst. repeat (apply elem_of_cons in Hst as [->|Hst]; [done|]).
    by inversion Hst. }
  rewrite (handleDeepReviewRenders_run E cl w Hsel),
    (handleDeepReview_run E cl w Hsel).
  assert (Hall : forall shown : list AppState,
            shown `prefix_of` [duringAbstracts cl; duringFullText cl;
                               duringReferences cl; duringReferences cl;
                               duringSynthesis cl] ->
            forall st, st ∈ shown ->
              reviewStatus st = LOADING /\
              synthesizeDisabled st = true /\
              forall E' w', clickSynthesize E' st w' = (st, w')).
  { intros shown [rest Hrest] st Hst.
    assert (Hl : reviewStatus st = LOADING).
    { apply Hshown. rewrite Hrest. apply elem_of_app. by left. }
    split; [done|]. split; [by apply Hguard|].
    intros E' w'. by apply clickSynthesize_disabled. }
  destruct (fetchAbstracts E _ w) as [[abstracts|e] w1].
  2:{ split; [done|]. split; [by eexists|].
      split; [by eexists [_; _; _; _]|]. split; [done|].
      apply Hall. by eexists [_; _; _; _]. }
  destruct (fullTextLoop E _ w1) as [[fullTexts|e] w2].
  2:{ split; [done|]. split; [by eexists|].
      split; [by eexists [_; _; _]|]. split; [done|].
      apply Hall. by eexists [_; _; _]. }
  destruct (fetchReferences E _ w2) as [[refIds|e] w3].
  2:{ split; [done|]. split; [by eexists|].
      split; [by eexists [_; _]|]. split; [done|].
      apply Hall. by eexists [_; _]. }
  destruct (referenceDetail E refIds w3) as [[refData|e] w4].
  2:{ split; [done|]. split; [by eexists|].
      split; [by eexists [_]|]. split; [done|].
      apply Hall. by eexists [_]. }
  destruct (callGeminiReview E _ _ _ w4) as [[report|e] w5];
    (split; [done|]; split; [by eexists|]; split; [done|]; split; [done|];
     by apply Hall).
Qed.

Lemma second_initiation_ignored_while_in_flight_witness :
  renderInFlight ∈ snd (handleDeepReviewRenders envDemo renderSelected []) /\
  reviewStatus renderInFlight = LOADING /\
  synthesizeDisabled renderInFlight = true /\
  forall E' w', clickSynthesize E' renderInFlight w' = (renderInFlight, w').
Proof.
  destruct (second_initiation_ignored_while_in_flight envDemo renderSelected [])
    as (_ & Hfirst & _ & _ & Hall).
  destruct Hfirst as [rest Hrest]; [discriminate|].
  assert (Hin : renderInFlight
                ∈ snd (handleDeepReviewRenders envDemo renderSelected [])).
  { rewrite Hrest. apply elem_of_cons. by left. }
  split; [exact Hin|]. exact (Hall renderInFlight Hin).
Defined.

(* ===================================================================== *)
(** ** The merge *)
(* ===================================================================== *)

Section Merge.

Lemma optOrNull_idem o : optOrNull (optOrNull o) = optOrNull o.
Proof. destruct o as [s|]; [|done]. simpl. by destruct (truthy s) eqn:H; simpl; rewrite ?H. Qed.

Lemma Forall2_map_r {A B} (P : A -> B -> Prop) (f : A -> B) (l : list A) :
  (forall a, a ∈ l -> P a (f a)) -> Forall2 P l (List.map f l).
Proof.
  induction l as [|a l IH]; intros H; simpl; constructor.
  - apply H. left.
  - apply IH. intros b Hb. apply H. by right.
Qed.

Lemma elem_of_filter_has (sel : list jsstr) (l : list PubMedArticle) a :
  a ∈ List.filter (fun a => has sel (id a)) l -> a ∈ l /\ id a ∈ sel.
Proof.
  intros H. apply list_elem_of_In, filter_In in H as [Hin Hhas].
  split; [by apply list_elem_of_In|].
  unfold has in Hhas. by apply bool_decide_eq_true_1 in Hhas.
Qed.

Context (E : Env).

Lemma fetchFullText_prefix pmid0 w :
  w `prefix_of` snd (fetchFullText E pmid0 w).
Proof.
  destruct (emits_fetchFullText E pmid0 w) as (evs & -> & _).
  by apply prefix_app_r.
Qed.

(** The loop stores under each identifier what [fetchFullText] returned
    for that identifier at its turn. *)
Lemma forOf_fullText_spec (ids : list jsstr) (acc : gmap jsstr jsstr)
      (w : Log) (m : gmap jsstr jsstr) (w' : Log) :
  NoDup ids ->
  forOf ids (fullTextStep E) acc w = (Ok m, w') ->
  w `prefix_of` w' /\
  forall k,
    (k ∉ ids -> m !! k = acc !! k) /\
    (k ∈ ids ->
     exists wa wb r,
       w `prefix_of` wa /\ wb `prefix_of` w' /\
       fetchFullText E k wa = (Ok r, wb) /\
       m !! k = match optOrNull r with
                | Some t => Some t
                | None => acc !! k
                end).
Proof.
  revert acc w. induction ids as [|i ids IH]; intros acc w Hnd H.
  - inversion H; subst. split; [done|]. intros k.
    split; [done|]. intros Hk. by inversion Hk.
  - apply NoDup_cons in Hnd as [Hi Hnd]. simpl in H.
    apply bind_inv_ok in H as (acc1 & w1 & Hstep & H).
    unfold fullTextStep in Hstep.
    apply bind_inv_ok in Hstep as (r & wx & Hft & Hret).
    inversion Hret; subst wx acc1. clear Hret.
    destruct (IH _ _ Hnd H) as [Hpre Hspec].
    assert (Hw : w `prefix_of` w1).
    { pose proof (fetchFullText_prefix i w) as Hp. by rewrite Hft in Hp. }
    assert (Hacc : forall k, k <> i ->
              (match r with
               | Some t => if truthy t then <[i:=t]> acc else acc
               | None => acc
               end) !! k = acc !! k).
    { intros k Hk. destruct r as [t|]; [|done].
      destruct (truthy t); [|done]. by rewrite lookup_insert_ne. }
    split; [by etrans|]. intros k. split.
    + intros Hk. apply not_elem_of_cons in Hk as [Hki Hk].
      destruct (Hspec k) as [Hout _]. rewrite Hout by done. by apply Hacc.
    + intros Hk. apply elem_of_cons in Hk as [->|Hk].
      * exists w, w1, r. split; [done|]. split; [done|]. split; [done|].
        destruct (Hspec i) as [Hout _]. rewrite Hout by done.
        destruct r as [t|]; [|done]. simpl.
        destruct (truthy t); [by rewrite lookup_insert_eq|done].
      * destruct (Hspec k) as [_ Hin].
        destruct (Hin Hk) as (wa & wb & r' & Hwa & Hwb & Hrun & Hm).
        exists wa, wb, r'. split; [by etrans|]. split; [done|]. split; [done|].
        rewrite Hm. destruct (optOrNull r'); [done|].
        apply Hacc. intros ->. done.
Qed.

Lemma fullTextLoop_spec (ids : list jsstr) (w : Log)
      (m : gmap jsstr jsstr) (w' : Log) (k : jsstr) :
  NoDup ids ->
  fullTextLoop E ids w = (Ok m, w') ->
  k ∈ ids ->
  exists wa wb r,
    w `prefix_of` wa /\ wb `prefix_of` w' /\
    fetchFullText E k wa = (Ok r, wb) /\ m !! k = optOrNull r.
Proof.
  intros Hnd H Hk. destruct (forOf_fullText_spec ids ∅ w m w' Hnd H) as [_ Hspec].
  destruct (Hspec k) as [_ Hin].
  destruct (Hin Hk) as (wa & wb & r & Hwa & Hwb & Hrun & Hm).
  exists wa, wb, r. repeat split; try done.
  rewrite Hm. by destruct (optOrNull r).
Qed.

(** The log of a run that reaches the synthesis. *)
Lemma handleDeepReview_reaches_synthesis
      cl w abstracts w1 fullTexts w2 refIds w3 refData w4 :
  selectedArticleIds cl <> [] ->
  fetchAbstracts E (selectedArticleIds cl) w = (Ok abstracts, w1) ->
  fullTextLoop E (selectedArticleIds cl) w1 = (Ok fullTexts, w2) ->
  fetchReferences E (selectedArticleIds cl) w2 = (Ok refIds, w3) ->
  referenceDetail E refIds w3 = (Ok refData, w4) ->
  snd (handleDeepReview E cl w)
  = w4 ++ [EvReview (targetText cl) (mergeSelected cl abstracts fullTexts) refData].
Proof.
  intros Hsel Ha Hl Hr Hd.
  rewrite (handleDeepReview_run E cl w Hsel), Ha, Hl, Hr, Hd.
  rewrite callGeminiReview_run.
  by destruct (synthesis E _ _ _).
Qed.

End Merge.

(** C7.  Identity is preserved across the stages.  Every record returned
    by [fetchSummary] has the identifier it was requested for as its [id]
    and its [pmid], in input order.  In a run that reaches the synthesis,
    the bundle handed over holds, for each listed article whose identifier
    is selected and in the order of the list, a record with the same [id]
    and [pmid], whose abstract is the entry of that identifier in what
    [fetchAbstracts] returned for the selection, and whose full text is
    what the call of [fetchFullText] on that identifier, made during the
    full-text phase of this run, returned. *)
Theorem identity_preserved_across_stages (E : Env) :
  (forall ids w recs w',
     fetchSummary E ids w = (Ok recs, w') ->
     List.map id recs = ids /\ List.map pmid recs = ids) /\
  (forall cl w abstracts w1 fullTexts w2 refIds w3 refData w4,
     NoDup (selectedArticleIds cl) ->
     selectedArticleIds cl <> [] ->
     fetchAbstracts E (selectedArticleIds cl) w = (Ok abstracts, w1) ->
     fullTextLoop E (selectedArticleIds cl) w1 = (Ok fullTexts, w2) ->
     fetchReferences E (selectedArticleIds cl) w2 = (Ok refIds, w3) ->
     referenceDetail E refIds w3 = (Ok refData, w4) ->
     exists selectedData,
       snd (handleDeepReview E cl w)
       = w4 ++ [EvReview (targetText cl) selectedData refData] /\
       Forall2
         (fun a a' =>
            id a' = id a /\ pmid a' = pmid a /\
            abstract a' = Some (optOrElse (abstracts !! id a) []) /\
            exists wa wb r,
              w1 `prefix_of` wa /\ wb `prefix_of` w2 /\
              fetchFullText E (id a) wa = (Ok r, wb) /\
              fullText a' = Some (optOrNull r))
         (List.filter (fun a => has (selectedArticleIds cl) (id a)) (articles cl))
         selectedData).
Proof.
  split; [apply fetchSummary_ids|].
  intros cl w abstracts w1 fullTexts w2 refIds w3 refData w4
         Hnd Hsel Ha Hl Hr Hd.
  exists (mergeSelected cl abstracts fullTexts).
  split; [by eapply handleDeepReview_reaches_synthesis|].
  unfold mergeSelected. apply Forall2_map_r. intros a Hin.
  apply elem_of_filter_has in Hin as [_ Hid].
  repeat split.
  destruct (fullTextLoop_spec E _ _ _ _ (id a) Hnd Hl Hid)
    as (wa & wb & r & Hwa & Hwb & Hrun & Hm).
  exists wa, wb, r. repeat split; try done.
  simpl. by rewrite Hm, optOrNull_idem.
Qed.

Lemma identity_preserved_across_stages_witness :
  (List.map id [articleShell (lit "11"); articleShell (lit "12")]
   = [lit "11"; lit "12"] /\
   List.map pmid [articleShell (lit "11"); articleShell (lit "12")]
   = [lit "11"; lit "12"]) /\
  exists selectedData,
    snd (handleDeepReview envDemo renderSelected [])
    = demoLogDetail ++ [EvReview (targetText renderSelected) selectedData demoRefData] /\
    Forall2
      (fun a a' =>
         id a' = id a /\ pmid a' = pmid a /\
         abstract a' = Some (optOrElse (demoAbstracts !! id a) []) /\
         exists wa wb r,
           demoLogAbstracts `prefix_of` wa /\ wb `prefix_of` demoLogFullText /\
           fetchFullText envDemo (id a) wa = (Ok r, wb) /\
           fullText a' = Some (optOrNull r))
      (List.filter (fun a => has (selectedArticleIds renderSelected) (id a))
                   (articles renderSelected))
      selectedData.
Proof.
  destruct (identity_preserved_across_stages envDemo) as [Hsummary Hmerge].
  split.
  - apply (Hsummary [lit "11"; lit "12"] []
                    [articleShell (lit "11"); articleShell (lit "12")]
                    [EvFetch (summaryUrl [lit "11"; lit "12"])]).
    vm_compute. reflexivity.
  - apply (Hmerge renderSelected [] demoAbstracts demoLogAbstracts
                  demoFullTexts demoLogFullText
                  [lit "11"; lit "12"] demoLogReferences
                  demoRefData demoLogDetail).
    + apply NoDup_singleton.
    + discriminate.
    + vm_compute. reflexivity.
    + vm_compute. reflexivity.
    + vm_compute. reflexivity.
    + vm_compute. reflexivity.
Defined.

(* ===================================================================== *)
(** ** The reference detail *)
(* ===================================================================== *)

Section ReferenceDetail.

(** The addresses of the full-text resolver are not those of the
    summary and abstract accessors. *)
Lemma fullText_urls_apart (x : jsstr) (ids : list jsstr) :
  pmcLinkUrl x <> summaryUrl ids /\ pmcLinkUrl x <> abstractsUrl ids /\
  pmcTextUrl x <> summaryUrl ids /\ pmcTextUrl x <> abstractsUrl ids.
Proof.
  unfold pmcLinkUrl, pmcTextUrl, summaryUrl, abstractsUrl.
  repeat split; intros H; apply app_inv_head in H;
    vm_compute in H; discriminate H.
Qed.

Lemma requestTo_not_fullText (ids : list jsstr) (evs : Log) (x : jsstr) :
  Forall (requestTo [summaryUrl ids; abstractsUrl ids]) evs ->
  (EvFetch (pmcLinkUrl x) ∉ evs) /\ (EvFetch (pmcTextUrl x) ∉ evs).
Proof.
  intros Hall. destruct (fullText_urls_apart x ids) as (H1 & H2 & H3 & H4).
  rewrite Forall_forall in Hall.
  split; intros Hin; apply Hall in Hin as [Hs|(u & Hu & Heq)];
    try discriminate; inversion Heq; subst u;
    apply elem_of_cons in Hu as [Hu|Hu]; try done;
    apply list_elem_of_singleton in Hu; done.
Qed.

Lemma withAbstract_light refAbs (recs : list PubMedArticle) :
  Forall (fun a => fullText a = None) recs ->
  Forall (fun a => fullText a = None /\ is_Some (abstract a))
         (List.map (fun s => withAbstract (optOrElse (refAbs s) []) s) recs).
Proof.
  induction 1 as [|a recs Ha _ IH]; simpl; constructor; [|done].
  split; [exact Ha|by eexists].
Qed.

Lemma mapThrowing_summary_light data ids recs :
  mapThrowing (summaryRecord data) ids = Ok recs ->
  Forall (fun a => fullText a = None) recs.
Proof.
  revert recs. induction ids as [|i ids IH]; intros recs H; simpl in H.
  - inversion H. constructor.
  - destruct (summaryRecord data i) as [a|] eqn:Ha; [|discriminate].
    destruct (mapThrowing _ ids) as [ys|]; [|discriminate].
    inversion H; subst. constructor; [|by apply IH].
    unfold summaryRecord in Ha. destruct (result data) as [r|]; [|discriminate].
    destruct (r !! i); [|discriminate]. by inversion Ha.
Qed.

Context (E : Env).

Lemma fetchSummary_light ids w recs w' :
  fetchSummary E ids w = (Ok recs, w') ->
  Forall (fun a => fullText a = None) recs.
Proof.
  intros H. destruct ids as [|i ids]; [inversion H; constructor|].
  apply fetchSummary_inv in H as (res & data & _ & _ & Hm); [|done].
  by eapply mapThrowing_summary_light.
Qed.

(** The records of the reference detail: the first 8 references, each
    with an abstract and without full text. *)
Lemma referenceDetail_records refIds w refData w' :
  referenceDetail E refIds w = (Ok refData, w') ->
  List.map id refData = take 8 refIds /\
  Forall (fun a => fullText a = None /\ is_Some (abstract a)) refData.
Proof.
  intros H. destruct refIds as [|r refIds]; [by inversion H|].
  rewrite referenceDetail_cases in H by done.
  destruct (fetchSummary E _ w) as [[refSummaries|e] w1] eqn:Hs; [|discriminate].
  destruct (fetchAbstracts E _ w1) as [[refAbs|e] w2]; [|discriminate].
  inversion H; subst. split.
  - rewrite List.map_map. simpl.
    by apply fetchSummary_ids in Hs as [Hs _].
  - apply (withAbstract_light (fun s => refAbs !! id s)).
    by eapply fetchSummary_light.
Qed.

End ReferenceDetail.


(* ===================================================================== *)
(** ** The fetch layer, attempt by attempt *)
(* ===================================================================== *)

Section RetrySchedule.

Context (E : Env).

Lemma fetchCount_round (url : jsstr) (w : Log) :
  fetchCount (w ++ [EvFetch url; EvSleep 1000]) = Datatypes.S (fetchCount w).
Proof.
  rewrite fetchCount_app.
  change (fetchCount [EvFetch url; EvSleep 1000]) with 1%nat. lia.
Qed.

Lemma retryTrace_backoff (url : jsstr) (n : nat) :
  retryTrace url n = backoffTrace url n ++ [EvFetch url].
Proof. induction n as [|n IH]; simpl; [done|]. by rewrite IH. Qed.

Lemma failsAt_again (url : jsstr) (n : nat) (w : Log) :
  failsAt E url (fetchCount w) ->
  fetchWithRetry E url (Datatypes.S n) w
  = fetchWithRetry E url n (w ++ [EvFetch url; EvSleep 1000]).
Proof. intros H. by apply fetchWithRetry_again. Qed.

Lemma failsAt_exhausted (url : jsstr) (w : Log) :
  failsAt E url (fetchCount w) ->
  fetchWithRetry E url 0 w
  = (Throw (attemptError (network E url (fetchCount w))), w ++ [EvFetch url]).
Proof.
  intros [H|(res & H & Hok)]; rewrite H; simpl attemptError.
  - by apply fetchWithRetry_exhausted_reject.
  - by apply fetchWithRetry_exhausted_status.
Qed.

Lemma not_ok_failsAt (url : jsstr) (k : nat) :
  failsAt E url k \/
  exists res, network E url k = Resolves res /\ ok res = true.
Proof.
  unfold failsAt. destruct (network E url k) as [res|]; [|by left; left].
  destruct (ok res) eqn:Hok; [right; eauto|left; right; eauto].
Qed.

End RetrySchedule.

(** X1.  When the provider fails the first [k] attempts of a call (any
    failure: a rejected [fetch] or a response that is not [ok]) and
    answers the next one with an [ok] response, a call whose budget is at
    least [k] returns that response, after exactly [k] rounds of request
    and 1000 ms wait and one last request. *)
Theorem fetchWithRetry_recovers
    (E : Env) (url : jsstr) (n k : nat) (w : Log) (res : Response) :
  (k <= n)%nat ->
  (forall i, (i < k)%nat -> failsAt E url (fetchCount w + i)) ->
  network E url (fetchCount w + k) = Resolves res ->
  ok res = true ->
  fetchWithRetry E url n w = (Ok res, w ++ backoffTrace url k ++ [EvFetch url]).
Proof.
  revert n w. induction k as [|k IH]; intros n w Hle Hfail Hres Hok.
  - rewrite Nat.add_0_r in Hres. by apply fetchWithRetry_success.
  - destruct n as [|n]; [lia|].
    rewrite failsAt_again.
    2:{ specialize (Hfail 0%nat). rewrite Nat.add_0_r in Hfail. apply Hfail. lia. }
    rewrite (IH n (w ++ [EvFetch url; EvSleep 1000])).
    + simpl. by rewrite <- app_assoc.
    + lia.
    + intros i Hi. rewrite fetchCount_round.
      replace (Datatypes.S (fetchCount w) + i)%nat
        with (fetchCount w + Datatypes.S i)%nat by lia.
      apply Hfail. lia.
    + rewrite fetchCount_round.
      by replace (Datatypes.S (fetchCount w) + k)%nat
        with (fetchCount w + Datatypes.S k)%nat by lia.
    + done.
Qed.

Lemma fetchWithRetry_recovers_witness :
  fetchWithRetry envFlaky (lit "u") 3 []
  = (Ok responseOmits,
     [] ++ backoffTrace (lit "u") 2 ++ [EvFetch (lit "u")]).
Proof.
  apply (fetchWithRetry_recovers envFlaky (lit "u") 3 2 [] responseOmits).
  - lia.
  - intros i Hi. right. exists notFound.
    destruct i as [|[|i]]; [split; reflexivity | split; reflexivity | lia].
  - reflexivity.
  - reflexivity.
Defined.

(** X2.  When every attempt of a call with budget [n] fails, the call
    makes exactly [n + 1] requests with a 1000 ms wait between them and
    then throws the error of the last attempt: the rejection of [fetch],
    or the [Error] carrying the status of the last response. *)
Theorem fetchWithRetry_exhausts
    (E : Env) (url : jsstr) (n : nat) (w : Log) :
  (forall i, (i <= n)%nat -> failsAt E url (fetchCount w + i)) ->
  fetchWithRetry E url n w
  = (Throw (attemptError (network E url (fetchCount w + n))),
     w ++ retryTrace url n).
Proof.
  revert w. induction n as [|n IH]; intros w Hfail.
  - rewrite Nat.add_0_r. apply failsAt_exhausted.
    specialize (Hfail 0%nat). rewrite Nat.add_0_r in Hfail. apply Hfail. lia.
  - rewrite failsAt_again.
    2:{ specialize (Hfail 0%nat). rewrite Nat.add_0_r in Hfail. apply Hfail. lia. }
    rewrite (IH (w ++ [EvFetch url; EvSleep 1000])).
    + rewrite fetchCount_round.
      replace (Datatypes.S (fetchCount w) + n)%nat
        with (fetchCount w + Datatypes.S n)%nat by lia.
      cbn [retryTrace]. by rewrite <- app_assoc.
    + intros i Hi. rewrite fetchCount_round.
      replace (Datatypes.S (fetchCount w) + i)%nat
        with (fetchCount w + Datatypes.S i)%nat by lia.
      apply Hfail. lia.
Qed.

Lemma fetchWithRetry_exhausts_witness :
  fetchWithRetry envOffline (lit "u") 3 []
  = (Throw NetworkError, [] ++ retryTrace (lit "u") 3).
Proof.
  apply (fetchWithRetry_exhausts envOffline (lit "u") 3 []).
  intros i _. by left.
Defined.

(** The shape of the effects of any call. *)
Lemma fetchWithRetry_log_shape (E : Env) (url : jsstr) (n : nat) (w : Log) :
  exists k, (k <= n)%nat /\
    snd (fetchWithRetry E url n w) = w ++ backoffTrace url k ++ [EvFetch url].
Proof.
  revert w. induction n as [|n IH]; intros w.
  - exists 0%nat. split; [lia|].
    destruct (not_ok_failsAt E url (fetchCount w)) as [Hf|(res & Hn & Hok)].
    + by rewrite failsAt_exhausted.
    + by rewrite (fetchWithRetry_success E url 0 w res).
  - destruct (not_ok_failsAt E url (fetchCount w)) as [Hf|(res & Hn & Hok)].
    + rewrite failsAt_again by done.
      destruct (IH (w ++ [EvFetch url; EvSleep 1000])) as (k & Hk & Hlog).
      exists (Datatypes.S k). split; [lia|].
      rewrite Hlog. simpl. by rewrite <- app_assoc.
    + exists 0%nat. split; [lia|].
      by rewrite (fetchWithRetry_success E url _ w res).
Qed.

(** X3.  Whatever the provider does, the effects of a call with budget
    [n] are [k <= n] rounds of request and 1000 ms wait followed by one
    last request, all to the address of the call: at most [n + 1]
    requests and [n] waits, never a wait after the last request. *)
Theorem fetchWithRetry_schedule (E : Env) (url : jsstr) (n : nat) (w : Log) :
  exists k,
    (k <= n)%nat /\
    snd (fetchWithRetry E url n w) = w ++ backoffTrace url k ++ [EvFetch url] /\
    fetchCount (snd (fetchWithRetry E url n w)) = (fetchCount w + k + 1)%nat /\
    sleepCount (snd (fetchWithRetry E url n w)) = (sleepCount w + k)%nat.
Proof.
  destruct (fetchWithRetry_log_shape E url n w) as (k & Hk & Hlog).
  exists k. split; [done|]. split; [done|]. rewrite Hlog.
  unfold fetchCount, sleepCount.
  rewrite !List.filter_app, !length_app.
  assert (Hb : length (List.filter isFetch (backoffTrace url k)) = k /\
               length (List.filter isSleep (backoffTrace url k)) = k).
  { clear Hk Hlog. induction k as [|k [IH1 IH2]]; simpl; [done|].
    by rewrite IH1, IH2. }
  destruct Hb as [-> ->]. simpl. lia.
Qed.

(** What a returned response is. *)
Lemma fetchWithRetry_ok_inv
    (E : Env) (url : jsstr) (n : nat) (w w' : Log) (res : Response) :
  fetchWithRetry E url n w = (Ok res, w') ->
  ok res = true /\
  exists k, (k <= n)%nat /\
            network E url (fetchCount w + k) = Resolves res /\
            w' = w ++ backoffTrace url k ++ [EvFetch url].
Proof.
  revert w. induction n as [|n IH]; intros w H.
  - destruct (not_ok_failsAt E url (fetchCount w)) as [Hf|(r & Hn & Hok)].
    + rewrite failsAt_exhausted in H by done. discriminate.
    + rewrite (fetchWithRetry_success E url 0 w r Hn Hok) in H.
      inversion H; subst. split; [done|]. exists 0%nat.
      rewrite Nat.add_0_r. by repeat split.
  - destruct (not_ok_failsAt E url (fetchCount w)) as [Hf|(r & Hn & Hok)].
    + rewrite failsAt_again in H by done.
      apply IH in H as (Hok & k & Hk & Hnet & ->). split; [done|].
      exists (Datatypes.S k). split; [lia|]. split.
      * rewrite fetchCount_round in Hnet.
        by replace (fetchCount w + Datatypes.S k)%nat
          with (Datatypes.S (fetchCount w) + k)%nat by lia.
      * simpl. by rewrite <- app_assoc.
    + rewrite (fetchWithRetry_success E url _ w r Hn Hok) in H.
      inversion H; subst. split; [done|]. exists 0%nat.
      rewrite Nat.add_0_r. split; [lia|]. by split.
Qed.

(** X4.  A response returned by [fetchWithRetry] is always an [ok] one,
    and it is the answer of the provider to the last request of the
    call. *)
Theorem fetchWithRetry_result_is_ok
    (E : Env) (url : jsstr) (n : nat) (w w' : Log) (res : Response) :
  fetchWithRetry E url n w = (Ok res, w') ->
  ok res = true /\
  exists k, (k <= n)%nat /\
            network E url (fetchCount w + k) = Resolves res /\
            w' = w ++ backoffTrace url k ++ [EvFetch url].
Proof.
  apply fetchWithRetry_ok_inv.
Qed.

Lemma fetchWithRetry_result_is_ok_witness :
  ok responseOmits = true /\
  exists k, (k <= 3)%nat /\
            network envFlaky (lit "u") (fetchCount [] + k) = Resolves responseOmits /\
            [EvFetch (lit "u"); EvSleep 1000; EvFetch (lit "u"); EvSleep 1000;
             EvFetch (lit "u")]
            = [] ++ backoffTrace (lit "u") k ++ [EvFetch (lit "u")].
Proof.
  apply (fetchWithRetry_result_is_ok envFlaky (lit "u") 3 []).
  vm_compute. reflexivity.
Defined.

(* ===================================================================== *)
(** ** What the accessors return *)
(* ===================================================================== *)

Section Trimming.

Lemma trimStart_split (s : jsstr) :
  exists pre, s = pre ++ trimStart s /\ blank pre.
Proof.
  induction s as [|c s (pre & Hs & Hpre)]; simpl.
  - exists []. split; [done|constructor].
  - destruct (isSpace c) eqn:Hc.
    + exists (c :: pre). split; [by rewrite Hs at 1|by constructor].
    + exists []. split; [done|constructor].
Qed.

Lemma trimStart_head (s : jsstr) (c : char) (r : jsstr) :
  trimStart s = c :: r -> isSpace c = false.
Proof.
  induction s as [|d s IH]; simpl; [discriminate|].
  destruct (isSpace d) eqn:Hd; [exact IH|]. intros H. by inversion H; subst.
Qed.

Lemma trimEnd_split (s : jsstr) :
  exists post, s = trimEnd s ++ post /\ blank post.
Proof.
  unfold trimEnd. destruct (trimStart_split (rev s)) as (pre & Hs & Hpre).
  exists (rev pre). split.
  - rewrite <- rev_app_distr, <- Hs. by rewrite rev_involutive.
  - by apply Forall_rev.
Qed.

Lemma trimEnd_last (s : jsstr) (c : char) :
  last (trimEnd s) = Some c -> isSpace c = false.
Proof.
  unfold trimEnd. destruct (trimStart (rev s)) as [|d r] eqn:Ht; [discriminate|].
  simpl. rewrite last_snoc. intros H. inversion H; subst.
  by eapply trimStart_head.
Qed.

(** [trim] removes white space at both ends and nothing else. *)
Lemma trim_split (s : jsstr) :
  exists pre post, s = pre ++ trim s ++ post /\ blank pre /\ blank post.
Proof.
  unfold trim. destruct (trimStart_split s) as (pre & Hs & Hpre).
  destruct (trimEnd_split (trimStart s)) as (post & Ht & Hpost).
  exists pre, post. split; [|done]. by rewrite <- Ht.
Qed.

Lemma trim_head (s : jsstr) (c : char) :
  head (trim s) = Some c -> isSpace c = false.
Proof.
  unfold trim. destruct (trimEnd_split (trimStart s)) as (post & Ht & _).
  destruct (trimEnd (trimStart s)) as [|d r]; [discriminate|].
  simpl. intros H. inversion H; subst. simpl in Ht. by eapply trimStart_head.
Qed.

Lemma trim_last (s : jsstr) (c : char) :
  last (trim s) = Some c -> isSpace c = false.
Proof. apply trimEnd_last. Qed.

Lemma nonempty_ends {A} (l : list A) :
  l <> [] -> (exists c, head l = Some c) /\ (exists c, last l = Some c).
Proof.
  intros H. split.
  - destruct l; [done|]. by eexists.
  - destruct l as [|x l] using rev_ind; [done|]. rewrite last_snoc. by eexists.
Qed.

End Trimming.

Lemma fetchAbstracts_inv (E : Env) (ids : list jsstr) (w w' : Log)
    (m : gmap jsstr jsstr) :
  fetchAbstracts E ids w = (Ok m, w') ->
  (ids = [] /\ m = ∅ /\ w' = w) \/
  exists res xml,
    ids <> [] /\
    fetchWithRetry E (abstractsUrl ids) 3 w = (Ok res, w') /\
    body_xml res = Some xml /\
    m = collectAbstracts (Dom.getElementsByTagName (lit "PubmedArticle") xml).
Proof.
  intros H. destruct ids as [|i ids]; [left; by inversion H|]. right.
  unfold fetchAbstracts in H.
  apply bind_inv_ok in H as (res & w1 & Hf & H).
  apply bind_inv_ok in H as (xml & w2 & Hx & H).
  unfold parsedXml in Hx. destruct (body_xml res) as [x|] eqn:Hb; [|discriminate].
  inversion Hx; subst. inversion H; subst. exists res, xml. by repeat split.
Qed.

(** X5.  Every abstract in the mapping returned by [fetchAbstracts] is
    non-empty and neither starts nor ends with white space.  It belongs
    to an article node of the response that carries that PMID: it is the
    sentinel when the text of the node's segments is blank, and otherwise
    that text with nothing but white space removed at its two ends. *)
Theorem abstracts_are_trimmed
    (E : Env) (ids : list jsstr) (w w' : Log) (m : gmap jsstr jsstr)
    (k v : jsstr) :
  fetchAbstracts E ids w = (Ok m, w') ->
  m !! k = Some v ->
  (exists c, head v = Some c /\ isSpace c = false) /\
  (exists c, last v = Some c /\ isSpace c = false) /\
  exists res xml node,
    fetchWithRetry E (abstractsUrl ids) 3 w = (Ok res, w') /\
    body_xml res = Some xml /\
    node ∈ Dom.getElementsByTagName (lit "PubmedArticle") xml /\
    pmidOf node = k /\
    ((v = unavailable /\ blank (segmentsText node)) \/
     exists pre post,
       segmentsText node = pre ++ v ++ post /\ blank pre /\ blank post).
Proof.
  intros Hrun Hk.
  apply fetchAbstracts_inv in Hrun
    as [(_ & -> & _)|(res & xml & _ & Hf & Hx & ->)]; [by rewrite lookup_empty in Hk|].
  apply collectAbstracts_values in Hk as (node & Hin & Hpm & ->).
  unfold labelledAbstract.
  destruct (trim_split (segmentsText node)) as (pre & post & Hs & Hp & Hq).
  destruct (trim (segmentsText node)) as [|c s] eqn:Ht.
  - split; [exists 78%N; by vm_compute|]. split; [exists 46%N; by vm_compute|].
    exists res, xml, node. do 4 (split; [done|]). left. split; [done|].
    rewrite Hs. simpl. by apply Forall_app.
  - destruct (nonempty_ends (c :: s)) as [[a Ha] [b Hb]]; [done|].
    split; [exists a; split; [done|]; apply (trim_head (segmentsText node));
            by rewrite Ht|].
    split; [exists b; split; [done|]; apply (trim_last (segmentsText node));
            by rewrite Ht|].
    exists res, xml, node. do 4 (split; [done|]). right. by exists pre, post.
Qed.

Lemma abstracts_are_trimmed_witness :
  (exists c, head (lit "[BACKGROUND] Aa Bb") = Some c /\ isSpace c = false) /\
  (exists c, last (lit "[BACKGROUND] Aa Bb") = Some c /\ isSpace c = false) /\
  exists res xml node,
    fetchWithRetry envTwoArticles (abstractsUrl [lit "1"; lit "2"]) 3 []
    = (Ok res, [EvFetch (abstractsUrl [lit "1"; lit "2"])]) /\
    body_xml res = Some xml /\
    node ∈ Dom.getElementsByTagName (lit "PubmedArticle") xml /\
    pmidOf node = lit "1" /\
    ((lit "[BACKGROUND] Aa Bb" = unavailable /\ blank (segmentsText node)) \/
     exists pre post,
       segmentsText node = pre ++ lit "[BACKGROUND] Aa Bb" ++ post /\
       blank pre /\ blank post).
Proof.
  apply (abstracts_are_trimmed envTwoArticles [lit "1"; lit "2"] []
           [EvFetch (abstractsUrl [lit "1"; lit "2"])]
           {[ lit "1" := lit "[BACKGROUND] Aa Bb"; lit "2" := unavailable ]}).
  - vm_compute. reflexivity.
  - vm_compute. reflexivity.
Defined.

Lemma fetchFullText_some_inv (E : Env) (pmid0 : jsstr) (w w' : Log) (t : jsstr) :
  fetchFullText E pmid0 w = (Ok (Some t), w') ->
  exists l bodyNode,
    l <> [] /\ t = fullTextString (lit "PMC" ++ l) bodyNode.
Proof.
  rewrite fetchFullText_cases. intros H.
  destruct (fetchWithRetry E (pmcLinkUrl pmid0) 3 w) as [[linkRes|e] w1];
    [|discriminate].
  destruct (body_json linkRes) as [linkData|]; [|discriminate].
  destruct (pmcidOf linkData) as [pmcid|] eqn:Hp; [|discriminate].
  apply pmcidOf_names_link in Hp as (l & _ & Hne & ->).
  destruct (fetchWithRetry E (pmcTextUrl (lit "PMC" ++ l)) 3 w1)
    as [[pmcRes|e] w2]; [|discriminate].
  destruct (body_xml pmcRes) as [xml|]; [|discriminate].
  destruct (Dom.docQuerySelector (lit "body") xml) as [bodyNode|]; [|discriminate].
  inversion H; subst. eauto.
Qed.

(** X6.  In a full text returned by [fetchFullText], what follows the
    provenance marker holds no white space but single U+0020 spaces: every
    white-space code unit is a space and no two of them are adjacent.  The
    whole string is never empty and is at most 10018 code units longer
    than the alternate identifier. *)
Theorem fullText_is_normalised
    (E : Env) (pmid0 : jsstr) (w w' : Log) (t : jsstr) :
  fetchFullText E pmid0 w = (Ok (Some t), w') ->
  exists pmcid text,
    t = provenance pmcid ++ text /\
    (forall c, c ∈ text -> isSpace c = true -> c = 32%N) /\
    (forall pre c d post,
       text = pre ++ c :: d :: post -> isSpace c = true -> isSpace d = false) /\
    t <> [] /\
    (length t <= length pmcid + 10018)%nat.
Proof.
  intros H. apply fetchFullText_some_inv in H as (l & bodyNode & _ & ->).
  exists (lit "PMC" ++ l), (take 10000 (collapseSpaces (Dom.textContent bodyNode))).
  split; [reflexivity|]. split; [|split; [|split]].
  - intros c Hc Hs. apply elem_of_take in Hc as (i & Hi & _).
    apply list_elem_of_lookup_2 in Hi. by eapply collapseFrom_spaces.
  - intros pre c d post Heq Hc.
    eapply (collapseFrom_no_run false (Dom.textContent bodyNode) pre
              (post ++ drop 10000 (collapseSpaces (Dom.textContent bodyNode)))); [|done].
    change (collapseFrom false (Dom.textContent bodyNode))
      with (collapseSpaces (Dom.textContent bodyNode)).
    rewrite <- (take_drop 10000 (collapseSpaces (Dom.textContent bodyNode))) at 1.
    rewrite Heq, <- app_assoc. reflexivity.
  - discriminate.
  - unfold fullTextString, substring0. rewrite !length_app, length_take.
    change (length (lit "[FULL TEXT FROM ")) with 16%nat.
    change (length (lit "]")) with 1%nat.
    change (length [10%N]) with 1%nat.
    replace 10018%nat with (18 + 10000)%nat by reflexivity.
    set (cap := 10000%nat).
    pose proof (Nat.le_min_l cap
                  (length (collapseSpaces (Dom.textContent bodyNode)))).
    lia.
Qed.

Lemma fullText_is_normalised_witness :
  exists pmcid text,
    provenance (lit "PMC777") ++ lit " Full text." = provenance pmcid ++ text /\
    (forall c, c ∈ text -> isSpace c = true -> c = 32%N) /\
    (forall pre c d post,
       text = pre ++ c :: d :: post -> isSpace c = true -> isSpace d = false) /\
    provenance (lit "PMC777") ++ lit " Full text." <> [] /\
    (length (provenance (lit "PMC777") ++ lit " Full text.")
     <= length pmcid + 10018)%nat.
Proof.
  apply (fullText_is_normalised envFullText (lit "1") []
           [EvFetch (pmcLinkUrl (lit "1")); EvFetch (pmcTextUrl (lit "PMC777"))]).
  vm_compute. reflexivity.
Defined.

Section SummaryRecords.

Lemma summaryRecord_throws (data : JsonData) (i : jsstr) (e : Exn) :
  summaryRecord data i = Throw e -> e = TypeError.
Proof.
  unfold summaryRecord. destruct (result data) as [r|]; [|by inversion 1].
  destruct (r !! i); [discriminate|by inversion 1].
Qed.

Lemma mapThrowing_summary_throws (data : JsonData) (ids : list jsstr) (e : Exn) :
  mapThrowing (summaryRecord data) ids = Throw e -> e = TypeError.
Proof.
  induction ids as [|i ids IH]; simpl; [discriminate|].
  destruct (summaryRecord data i) as [a|e'] eqn:Ha.
  - destruct (mapThrowing _ ids) as [ys|e'']; [discriminate|].
    intros H. inversion H; subst. by apply IH.
  - intros H. inversion H; subst. by eapply summaryRecord_throws.
Qed.

(** The fields of a record, read off the provider's record. *)
Lemma summaryRecord_fields (data : JsonData) (i : jsstr) (a : PubMedArticle) :
  summaryRecord data i = Ok a ->
  exists r d,
    result data = Some r /\ r !! i = Some d /\
    title a = ds_title d /\ journal a = ds_source d /\
    pubdate a = ds_pubdate d /\
    titleJa a = None /\ abstract a = None /\ fullText a = None /\
    authors a <> [] /\
    (ds_authors d = None \/ ds_authors d = Some [] ->
     authors a = lit "Unknown Authors") /\
    (forall l, ds_authors d = Some l ->
               join (lit ", ") (List.map name l) <> [] ->
               authors a = join (lit ", ") (List.map name l)).
Proof.
  unfold summaryRecord. destruct (result data) as [r|]; [|discriminate].
  destruct (r !! i) as [d|] eqn:Hd; [|discriminate].
  intros H. inversion H; subst; clear H. exists r, d. simpl.
  do 8 (split; [done|]). split; [|split].
  - assert (Hu : lit "Unknown Authors" <> []) by (vm_compute; discriminate).
    destruct (ds_authors d) as [l|]; simpl; [|exact Hu].
    unfold orElse. destruct (join _ _) eqn:Hj; simpl; [exact Hu|discriminate].
  - intros [->| ->]; reflexivity.
  - intros l -> Hne. simpl. unfold orElse.
    by destruct (join (lit ", ") (List.map name l)).
Qed.

End SummaryRecords.

(** X7.  When the answer of the summary provider lacks the record of one
    of the requested identifiers (or has no [result] at all),
    [fetchSummary] throws a [TypeError] once the request is done: no
    record is returned for any identifier of the batch. *)
Theorem fetchSummary_fails_on_omitted_record
    (E : Env) (ids : list jsstr) (w w' : Log) (res : Response)
    (data : JsonData) (i : jsstr) :
  fetchWithRetry E (summaryUrl ids) 3 w = (Ok res, w') ->
  body_json res = Some data ->
  i ∈ ids ->
  (forall r, result data = Some r -> r !! i = None) ->
  fetchSummary E ids w = (Throw TypeError, w').
Proof.
  intros Hf Hb Hin Hmiss.
  destruct (fetchSummary_missing E ids w res w' data i Hf Hb Hin Hmiss) as [e He].
  rewrite He. f_equal. f_equal.
  destruct ids as [|j ids]; [by inversion Hin|].
  unfold fetchSummary in He. rewrite (bind_ok _ _ _ _ _ Hf) in He.
  unfold json in He. rewrite Hb in He. unfold bind, ret in He.
  destruct (mapThrowing (summaryRecord data) (j :: ids)) as [recs|e'] eqn:Hm;
    [discriminate|].
  inversion He; subst. by eapply mapThrowing_summary_throws.
Qed.

Lemma fetchSummary_fails_on_omitted_record_witness :
  fetchSummary envOmits [lit "1"; lit "2"] []
  = (Throw TypeError, [EvFetch (summaryUrl [lit "1"; lit "2"])]).
Proof.
  apply (fetchSummary_fails_on_omitted_record envOmits [lit "1"; lit "2"] []
           [EvFetch (summaryUrl [lit "1"; lit "2"])] responseOmits
           {| result := Some {[ lit "1" := docSumOne ]}; linksets := None |}
           (lit "2")).
  - vm_compute. reflexivity.
  - reflexivity.
  - right. left.
  - intros r Hr. inversion Hr; subst. vm_compute. reflexivity.
Defined.

(** X8.  Every record that [fetchSummary] returns takes its title,
    journal and publication date from the provider's record stored under
    the same identifier; its translated title, abstract and full text are
    not set; its author string is never empty: the names joined by a comma
    and a space, or "Unknown Authors" when the provider gives no author
    list or an empty one. *)
Theorem fetchSummary_fields
    (E : Env) (ids : list jsstr) (w w' : Log) (recs : list PubMedArticle) :
  ids <> [] ->
  fetchSummary E ids w = (Ok recs, w') ->
  exists (res : Response) (data : JsonData) (r : gmap jsstr DocSum),
    fetchWithRetry E (summaryUrl ids) 3 w = (Ok res, w') /\
    body_json res = Some data /\ result data = Some r /\
    Forall2
      (fun i a =>
         exists d,
           r !! i = Some d /\ id a = i /\
           title a = ds_title d /\ journal a = ds_source d /\
           pubdate a = ds_pubdate d /\
           titleJa a = None /\ abstract a = None /\ fullText a = None /\
           authors a <> [] /\
           (ds_authors d = None \/ ds_authors d = Some [] ->
            authors a = lit "Unknown Authors") /\
           (forall l, ds_authors d = Some l ->
                      join (lit ", ") (List.map name l) <> [] ->
                      authors a = join (lit ", ") (List.map name l)))
      ids recs.
Proof.
  intros Hids H.
  apply fetchSummary_inv in H as (res & data & Hf & Hb & Hm); [|done].
  destruct (result data) as [r|] eqn:Hr.
  - exists res, data, r. do 3 (split; [done|]). clear Hids Hf. revert recs Hm.
    induction ids as [|i ids IH]; intros recs Hm; simpl in Hm.
    + inversion Hm. constructor.
    + destruct (summaryRecord data i) as [a|] eqn:Ha; [|discriminate].
      destruct (mapThrowing _ ids) as [ys|]; [|discriminate].
      inversion Hm; subst. constructor; [|by apply IH].
      destruct (summaryRecord_id _ _ _ Ha) as [Hid _].
      apply summaryRecord_fields in Ha as (r' & d & Hr' & Hd & Hrest).
      rewrite Hr in Hr'. inversion Hr'; subst r'.
      exists d. split; [done|]. split; [done|]. exact Hrest.
  - destruct ids as [|i ids]; [done|]. simpl in Hm.
    unfold summaryRecord in Hm at 1. rewrite Hr in Hm. discriminate.
Qed.

Lemma fetchSummary_fields_witness :
  exists (res : Response) (data : JsonData) (r : gmap jsstr DocSum),
    fetchWithRetry envDemo (summaryUrl [lit "11"; lit "12"]) 3 []
    = (Ok res, [EvFetch (summaryUrl [lit "11"; lit "12"])]) /\
    body_json res = Some data /\ result data = Some r /\
    Forall2
      (fun i a =>
         exists d,
           r !! i = Some d /\ id a = i /\
           title a = ds_title d /\ journal a = ds_source d /\
           pubdate a = ds_pubdate d /\
           titleJa a = None /\ abstract a = None /\ fullText a = None /\
           authors a <> [] /\
           (ds_authors d = None \/ ds_authors d = Some [] ->
            authors a = lit "Unknown Authors") /\
           (forall l, ds_authors d = Some l ->
                      join (lit ", ") (List.map name l) <> [] ->
                      authors a = join (lit ", ") (List.map name l)))
      [lit "11"; lit "12"]
      [articleShell (lit "11"); articleShell (lit "12")].
Proof.
  apply (fetchSummary_fields envDemo [lit "11"; lit "12"] []
           [EvFetch (summaryUrl [lit "11"; lit "12"])]).
  - discriminate.
  - vm_compute. reflexivity.
Defined.

(* ===================================================================== *)
(** ** Errors and effort of the accessors *)
(* ===================================================================== *)

(** X9.  The three batch accessors do not absorb anything: on a
    non-empty input, an error of the fetch layer is thrown on unchanged,
    and a response whose body cannot be read makes the accessor throw,
    both with the log the fetch layer left. *)
Theorem accessors_propagate_errors
    (E : Env) (ids : list jsstr) (w : Log) :
  ids <> [] ->
  (forall e w',
     fetchWithRetry E (summaryUrl ids) 3 w = (Throw e, w') ->
     fetchSummary E ids w = (Throw e, w')) /\
  (forall e w',
     fetchWithRetry E (abstractsUrl ids) 3 w = (Throw e, w') ->
     fetchAbstracts E ids w = (Throw e, w')) /\
  (forall e w',
     fetchWithRetry E (referencesUrl ids) 3 w = (Throw e, w') ->
     fetchReferences E ids w = (Throw e, w')) /\
  (forall res w',
     fetchWithRetry E (summaryUrl ids) 3 w = (Ok res, w') ->
     body_json res = None ->
     fetchSummary E ids w = (Throw BodyError, w')) /\
  (forall res w',
     fetchWithRetry E (abstractsUrl ids) 3 w = (Ok res, w') ->
     body_xml res = None ->
     fetchAbstracts E ids w = (Throw BodyError, w')) /\
  (forall res w',
     fetchWithRetry E (referencesUrl ids) 3 w = (Ok res, w') ->
     body_json res = None ->
     fetchReferences E ids w = (Throw BodyError, w')).
Proof.
  intros Hids. destruct ids as [|i ids]; [done|].
  repeat split.
  - intros e w' Hf. unfold fetchSummary. by rewrite (bind_throw _ _ _ _ _ Hf).
  - intros e w' Hf. unfold fetchAbstracts. by rewrite (bind_throw _ _ _ _ _ Hf).
  - intros e w' Hf. unfold fetchReferences. by rewrite (bind_throw _ _ _ _ _ Hf).
  - intros res w' Hf Hb. unfold fetchSummary. rewrite (bind_ok _ _ _ _ _ Hf).
    unfold json. by rewrite Hb.
  - intros res w' Hf Hb. unfold fetchAbstracts. rewrite (bind_ok _ _ _ _ _ Hf).
    unfold parsedXml. by rewrite Hb.
  - intros res w' Hf Hb. unfold fetchReferences. rewrite (bind_ok _ _ _ _ _ Hf).
    unfold json. by rewrite Hb.
Qed.

Lemma accessors_propagate_errors_witness :
  fetchSummary envOffline [lit "1"] []
  = (Throw NetworkError, retryTrace (summaryUrl [lit "1"]) 3) /\
  fetchAbstracts envOffline [lit "1"] []
  = (Throw NetworkError, retryTrace (abstractsUrl [lit "1"]) 3) /\
  fetchReferences envOffline [lit "1"] []
  = (Throw NetworkError, retryTrace (referencesUrl [lit "1"]) 3) /\
  fetchSummary envNotFound [lit "1"] []
  = (Throw (NcbiApiFailed 404), retryTrace (summaryUrl [lit "1"]) 3).
Proof.
  assert (Hne : [lit "1"] <> []) by discriminate.
  destruct (accessors_propagate_errors envOffline [lit "1"] [] Hne)
    as (Hs & Ha & Hr & _).
  destruct (accessors_propagate_errors envNotFound [lit "1"] [] Hne)
    as (Hs' & _).
  split; [apply Hs; vm_compute; reflexivity|].
  split; [apply Ha; vm_compute; reflexivity|].
  split; [apply Hr; vm_compute; reflexivity|].
  apply Hs'. vm_compute. reflexivity.
Defined.

Lemma fetchCount_attempts (url : jsstr) (k : nat) (w : Log) :
  fetchCount (w ++ attempts url k) = (fetchCount w + k + 1)%nat.
Proof.
  unfold attempts, fetchCount. rewrite !List.filter_app, !length_app.
  assert (Hb : length (List.filter isFetch (backoffTrace url k)) = k).
  { induction k as [|k IH]; simpl; [done|]. by rewrite IH. }
  rewrite Hb. simpl. lia.
Qed.

Lemma bind_schedule {B} (E : Env) (url : jsstr) (k : Response -> M Log B)
    (w : Log) :
  (forall a w0, snd (k a w0) = w0) ->
  snd (bind (fetchWithRetry E url 3) k w) = snd (fetchWithRetry E url 3 w).
Proof.
  intros Hk. unfold bind.
  destruct (fetchWithRetry E url 3 w) as [[a|e] w1]; [apply Hk|done].
Qed.

(** One call of the fetch layer per batch. *)
Lemma accessors_make_one_fetch_call_aux
    (E : Env) (ids : list jsstr) (w : Log) :
  ids <> [] ->
  (exists k, (k <= 3)%nat /\
     snd (fetchSummary E ids w) = w ++ attempts (summaryUrl ids) k) /\
  (exists k, (k <= 3)%nat /\
     snd (fetchAbstracts E ids w) = w ++ attempts (abstractsUrl ids) k) /\
  (exists k, (k <= 3)%nat /\
     snd (fetchReferences E ids w) = w ++ attempts (referencesUrl ids) k).
Proof.
  intros Hids. destruct ids as [|i ids]; [done|].
  split; [|split].
  - destruct (fetchWithRetry_log_shape E (summaryUrl (i :: ids)) 3 w)
      as (k & Hk & Hlog).
    exists k. split; [done|]. unfold attempts. rewrite <- Hlog. unfold fetchSummary.
    apply bind_schedule. intros res w0. unfold bind, json, ret, throw.
    destruct (body_json res) as [data|]; [|done].
    by destruct (mapThrowing (summaryRecord data) (i :: ids)).
  - destruct (fetchWithRetry_log_shape E (abstractsUrl (i :: ids)) 3 w)
      as (k & Hk & Hlog).
    exists k. split; [done|]. unfold attempts. rewrite <- Hlog. unfold fetchAbstracts.
    apply bind_schedule. intros res w0. unfold bind, parsedXml.
    by destruct (body_xml res).
  - destruct (fetchWithRetry_log_shape E (referencesUrl (i :: ids)) 3 w)
      as (k & Hk & Hlog).
    exists k. split; [done|]. unfold attempts. rewrite <- Hlog. unfold fetchReferences.
    apply bind_schedule. intros res w0. unfold bind, json.
    by destruct (body_json res).
Qed.

(** X10.  Whatever the number of identifiers, a batch accessor called
    on a non-empty list performs exactly one call of the fetch layer, to
    its own address: between one and four requests, and nothing after the
    response has arrived. *)
Theorem accessors_make_one_fetch_call
    (E : Env) (ids : list jsstr) (w : Log) :
  ids <> [] ->
  (exists k, (k <= 3)%nat /\
     snd (fetchSummary E ids w) = w ++ attempts (summaryUrl ids) k /\
     fetchCount (snd (fetchSummary E ids w)) = (fetchCount w + k + 1)%nat) /\
  (exists k, (k <= 3)%nat /\
     snd (fetchAbstracts E ids w) = w ++ attempts (abstractsUrl ids) k /\
     fetchCount (snd (fetchAbstracts E ids w)) = (fetchCount w + k + 1)%nat) /\
  (exists k, (k <= 3)%nat /\
     snd (fetchReferences E ids w) = w ++ attempts (referencesUrl ids) k /\
     fetchCount (snd (fetchReferences E ids w)) = (fetchCount w + k + 1)%nat).
Proof.
  intros Hids.
  destruct (accessors_make_one_fetch_call_aux E ids w Hids)
    as ((k1 & Hk1 & H1) & (k2 & Hk2 & H2) & (k3 & Hk3 & H3)).
  split; [|split]; [exists k1|exists k2|exists k3];
    (split; [done|]); (split; [done|]);
    rewrite ?H1, ?H2, ?H3; apply fetchCount_attempts.
Qed.

Lemma accessors_make_one_fetch_call_witness :
  (exists k, (k <= 3)%nat /\
     snd (fetchSummary envFlaky [lit "1"; lit "2"] [])
     = [] ++ attempts (summaryUrl [lit "1"; lit "2"]) k /\
     fetchCount (snd (fetchSummary envFlaky [lit "1"; lit "2"] []))
     = (fetchCount [] + k + 1)%nat) /\
  (exists k, (k <= 3)%nat /\
     snd (fetchAbstracts envFlaky [lit "1"; lit "2"] [])
     = [] ++ attempts (abstractsUrl [lit "1"; lit "2"]) k /\
     fetchCount (snd (fetchAbstracts envFlaky [lit "1"; lit "2"] []))
     = (fetchCount [] + k + 1)%nat) /\
  (exists k, (k <= 3)%nat /\
     snd (fetchReferences envFlaky [lit "1"; lit "2"] [])
     = [] ++ attempts (referencesUrl [lit "1"; lit "2"]) k /\
     fetchCount (snd (fetchReferences envFlaky [lit "1"; lit "2"] []))
     = (fetchCount [] + k + 1)%nat).
Proof.
  apply (accessors_make_one_fetch_call envFlaky [lit "1"; lit "2"] []).
  discriminate.
Defined.

(* ===================================================================== *)
(** ** The order of the references *)
(* ===================================================================== *)

Section ReferenceOrder.

Lemma remove_dups_middle (l1 l2 : list jsstr) (x : jsstr) :
  x ∈ l2 -> remove_dups (l1 ++ x :: l2) = remove_dups (l1 ++ l2).
Proof.
  intros Hx. induction l1 as [|y l1 IH]; simpl.
  - by destruct (decide_rel elem_of x l2).
  - rewrite IH.
    destruct (decide_rel elem_of y (l1 ++ x :: l2)) as [Hy|Hy];
      destruct (decide_rel elem_of y (l1 ++ l2)) as [Hy'|Hy']; try done.
    + exfalso. apply Hy'. apply elem_of_app in Hy as [Hy|Hy].
      * apply elem_of_app. by left.
      * apply elem_of_app. right.
        apply elem_of_cons in Hy as [->|Hy]; done.
    + exfalso. apply Hy. apply elem_of_app in Hy' as [Hy'|Hy'].
      * apply elem_of_app. by left.
      * apply elem_of_app. right. by right.
Qed.

Lemma remove_dups_NoDup_id (l : list jsstr) : NoDup l -> remove_dups l = l.
Proof.
  induction 1 as [|x l Hx _ IH]; simpl; [done|].
  destruct (decide_rel elem_of x l); [done|by rewrite IH].
Qed.

(** The working set after the additions: the members in the order of
    their first occurrence. *)
Lemma fold_setAdd_first_occurrence (xs acc : list jsstr) :
  NoDup acc ->
  fold_left setAdd xs acc = rev (remove_dups (rev (acc ++ xs))).
Proof.
  revert acc. induction xs as [|x xs IH]; intros acc Hnd; simpl.
  - rewrite app_nil_r, remove_dups_NoDup_id, rev_involutive; [done|].
    by apply NoDup_ListNoDup, List.NoDup_rev, NoDup_ListNoDup.
  - rewrite IH by by apply setAdd_NoDup.
    unfold setAdd. case_bool_decide as Hx.
    + f_equal. rewrite !rev_app_distr. simpl. rewrite <- app_assoc. simpl.
      symmetry. apply remove_dups_middle. by apply list_elem_of_In, in_rev,
        list_elem_of_In in Hx.
    + by rewrite <- app_assoc.
Qed.

End ReferenceOrder.

(** X11.  The identifiers returned by [fetchReferences] come in the
    order of their first occurrence in the response: walking the link
    sets and their databases in order and taking the first three links of
    each reference list, a link is listed where it is met first.  (The
    orchestrator keeps the first 8 of them.) *)
Theorem fetchReferences_first_occurrence_order
    (E : Env) (pmids : list jsstr) (w w' : Log) (res : Response)
    (data : JsonData) :
  pmids <> [] ->
  fetchWithRetry E (referencesUrl pmids) 3 w = (Ok res, w') ->
  body_json res = Some data ->
  fetchReferences E pmids w
  = (Ok (rev (remove_dups
                (rev (concat (List.map (take 3) (referenceLists data)))))), w').
Proof.
  intros Hids Hf Hb. rewrite (fetchReferences_ok E pmids w res w' data Hids Hf Hb).
  f_equal. f_equal. rewrite collectReferences_flat.
  rewrite fold_setAdd_first_occurrence by constructor. simpl.
  do 3 f_equal. unfold referenceLists.
  induction (databases data) as [|db dbs IH]; simpl; [done|].
  rewrite admitted_raw, IH. by destruct (rawReferences db).
Qed.

Lemma fetchReferences_first_occurrence_order_witness :
  fetchReferences envLinks [lit "1"; lit "2"; lit "3"] []
  = (Ok (rev (remove_dups
                (rev (concat (List.map (take 3) (referenceLists linkData)))))),
     [EvFetch (referencesUrl [lit "1"; lit "2"; lit "3"])]) /\
  rev (remove_dups (rev (concat (List.map (take 3) (referenceLists linkData)))))
  = [lit "11"; lit "12"; lit "13"; lit "21"].
Proof.
  split; [|vm_compute; reflexivity].
  apply (fetchReferences_first_occurrence_order envLinks
           [lit "1"; lit "2"; lit "3"] []
           [EvFetch (referencesUrl [lit "1"; lit "2"; lit "3"])]
           {| status := 200; ok := true;
              body_json := Some linkData; body_xml := None |} linkData).
  - discriminate.
  - vm_compute. reflexivity.
  - reflexivity.
Defined.

(* ===================================================================== *)
(** ** The effort of the full-text resolver *)
(* ===================================================================== *)

Section FullTextEffort.

Context (E : Env).

Lemma fetchWithRetry_attempts (url : jsstr) (w : Log) :
  exists k, (k <= 3)%nat /\ snd (fetchWithRetry E url 3 w) = w ++ attempts url k.
Proof.
  destruct (fetchWithRetry_log_shape E url 3 w) as (k & Hk & Hlog).
  exists k. by split.
Qed.

(** The two hops of [fetchFullText], as effects. *)
Lemma fetchFullText_effects (pmid0 : jsstr) (w : Log) :
  exists k1,
    (k1 <= 3)%nat /\
    (snd (fetchFullText E pmid0 w) = w ++ attempts (pmcLinkUrl pmid0) k1 \/
     exists linkRes linkData l k2,
       fetchWithRetry E (pmcLinkUrl pmid0) 3 w
       = (Ok linkRes, w ++ attempts (pmcLinkUrl pmid0) k1) /\
       body_json linkRes = Some linkData /\
       firstLink linkData = Some l /\ l <> [] /\ (k2 <= 3)%nat /\
       snd (fetchFullText E pmid0 w)
       = (w ++ attempts (pmcLinkUrl pmid0) k1)
           ++ attempts (pmcTextUrl (lit "PMC" ++ l)) k2).
Proof.
  destruct (fetchWithRetry_attempts (pmcLinkUrl pmid0) w) as (k1 & Hk1 & Hlog1).
  exists k1. split; [done|]. rewrite fetchFullText_cases.
  destruct (fetchWithRetry E (pmcLinkUrl pmid0) 3 w) as [[linkRes|e] w1] eqn:Hf1;
    simpl in Hlog1; subst w1; [|by left].
  destruct (body_json linkRes) as [linkData|] eqn:Hb; [|by left].
  destruct (pmcidOf linkData) as [pmcid|] eqn:Hp; [|by left].
  apply pmcidOf_names_link in Hp as (l & Hl & Hne & ->).
  destruct (fetchWithRetry_attempts (pmcTextUrl (lit "PMC" ++ l))
              (w ++ attempts (pmcLinkUrl pmid0) k1)) as (k2 & Hk2 & Hlog2).
  right. exists linkRes, linkData, l, k2. do 5 (split; [done|]).
  rewrite <- Hlog2.
  destruct (fetchWithRetry E (pmcTextUrl (lit "PMC" ++ l)) 3 _)
    as [[pmcRes|e] w2]; [|done].
  destruct (body_xml pmcRes) as [xml|]; [|done].
  by destruct (Dom.docQuerySelector (lit "body") xml).
Qed.

Lemma fetchFullText_request_bounds (pmid0 : jsstr) (w : Log) :
  (fetchCount w + 1 <= fetchCount (snd (fetchFullText E pmid0 w)))%nat /\
  (fetchCount (snd (fetchFullText E pmid0 w)) <= fetchCount w + 8)%nat.
Proof.
  destruct (fetchFullText_effects pmid0 w)
    as (k1 & Hk1 & [Hlog|(lr & ld & l & k2 & _ & _ & _ & _ & Hk2 & Hlog)]);
    rewrite Hlog, ?fetchCount_attempts; lia.
Qed.

(** The loop, for any starting mapping. *)
Lemma forOf_fullText_sound (ids : list jsstr) (acc : gmap jsstr jsstr) (w : Log) :
  exists m w',
    forOf ids (fullTextStep E) acc w = (Ok m, w') /\
    (forall k t, m !! k = Some t ->
       acc !! k = Some t \/
       (k ∈ ids /\ t <> [] /\
        exists wa wb, fetchFullText E k wa = (Ok (Some t), wb))) /\
    (fetchCount w + length ids <= fetchCount w')%nat /\
    (fetchCount w' <= fetchCount w + 8 * length ids)%nat.
Proof.
  revert acc w. induction ids as [|i ids IH]; intros acc w.
  - exists acc, w. split; [done|]. split; [by left|]. simpl. lia.
  - destruct (fetchFullText_returns E i w) as (r & w1 & Hft).
    pose proof (fetchFullText_request_bounds i w) as [Hlo Hhi].
    rewrite Hft in Hlo, Hhi. simpl in Hlo, Hhi.
    set (acc1 := match r with
                 | Some t => if truthy t then <[i:=t]> acc else acc
                 | None => acc
                 end).
    destruct (IH acc1 w1) as (m & w' & Hrun & Hsound & Hlo' & Hhi').
    exists m, w'. split; [|split; [|simpl length; lia]].
    + simpl. unfold bind at 1, fullTextStep at 1, bind at 1. by rewrite Hft.
    + intros k t Hk. apply Hsound in Hk as [Hk|(Hin & Hne & Hcall)].
      * subst acc1. destruct r as [t0|]; [|by left].
        destruct (truthy t0) eqn:Ht0; [|by left].
        destruct (decide (i = k)) as [->|Hik].
        -- rewrite lookup_insert_eq in Hk. inversion Hk; subst.
           right. split; [left|]. split; [by destruct t|]. eauto.
        -- rewrite lookup_insert_ne in Hk by done. by left.
      * right. split; [by right|]. by split.
Qed.

End FullTextEffort.

(** X12.  [fetchFullText] makes one call of the fetch layer to the link
    endpoint and, only when the link answer names a non-empty first link,
    a second one to the text endpoint for "PMC" followed by that link:
    between 1 and 8 requests in all, whatever the outcome. *)
Theorem fetchFullText_two_hops (E : Env) (pmid0 : jsstr) (w : Log) :
  (exists k1,
     (k1 <= 3)%nat /\
     (snd (fetchFullText E pmid0 w) = w ++ attempts (pmcLinkUrl pmid0) k1 \/
      exists linkRes linkData l k2,
        fetchWithRetry E (pmcLinkUrl pmid0) 3 w
        = (Ok linkRes, w ++ attempts (pmcLinkUrl pmid0) k1) /\
        body_json linkRes = Some linkData /\
        firstLink linkData = Some l /\ l <> [] /\ (k2 <= 3)%nat /\
        snd (fetchFullText E pmid0 w)
        = (w ++ attempts (pmcLinkUrl pmid0) k1)
            ++ attempts (pmcTextUrl (lit "PMC" ++ l)) k2)) /\
  (fetchCount w + 1 <= fetchCount (snd (fetchFullText E pmid0 w)))%nat /\
  (fetchCount (snd (fetchFullText E pmid0 w)) <= fetchCount w + 8)%nat.
Proof.
  split; [apply fetchFullText_effects|apply fetchFullText_request_bounds].
Qed.

(** X13.  The full-text loop of the orchestrator never throws, whatever
    the provider does.  Every entry of the mapping it builds is stored
    under one of the identifiers of the loop and is the non-empty text a
    call of [fetchFullText] on that identifier returned; the loop issues
    between one and eight requests per identifier. *)
Theorem fullTextLoop_absorbs_failures (E : Env) (ids : list jsstr) (w : Log) :
  exists m w',
    fullTextLoop E ids w = (Ok m, w') /\
    (forall k t, m !! k = Some t ->
       k ∈ ids /\ t <> [] /\
       exists wa wb, fetchFullText E k wa = (Ok (Some t), wb)) /\
    (fetchCount w + length ids <= fetchCount w')%nat /\
    (fetchCount w' <= fetchCount w + 8 * length ids)%nat.
Proof.
  destruct (forOf_fullText_sound E ids ∅ w) as (m & w' & Hrun & Hsound & Hb).
  exists m, w'. split; [done|]. split; [|done].
  intros k t Hk. apply Hsound in Hk as [Hk|Hk]; [by rewrite lookup_empty in Hk|done].
Qed.

Lemma fullTextLoop_absorbs_failures_witness :
  lit "1" ∈ [lit "1"] /\
  provenance (lit "PMC777") ++ lit " Full text." <> [] /\
  exists wa wb,
    fetchFullText envFullText (lit "1") wa
    = (Ok (Some (provenance (lit "PMC777") ++ lit " Full text.")), wb).
Proof.
  destruct (fullTextLoop_absorbs_failures envFullText [lit "1"] [])
    as (m & w' & Hrun & Hsound & _).
  apply Hsound.
  assert (Hm : fullTextLoop envFullText [lit "1"] []
               = (Ok {[ lit "1" := provenance (lit "PMC777") ++ lit " Full text." ]},
                  [EvFetch (pmcLinkUrl (lit "1"));
                   EvFetch (pmcTextUrl (lit "PMC777"))]))
    by (vm_compute; reflexivity).
  rewrite Hm in Hrun. inversion Hrun; subst m.
  vm_compute. reflexivity.
Defined.

(* ===================================================================== *)
(** ** Every run of the orchestrator *)
(* ===================================================================== *)

Section EveryRun.

Context (E : Env).

(** The final state of a run is one of six. *)
Lemma handleDeepReview_final (cl : AppState) (w : Log) :
  selectedArticleIds cl <> [] ->
  let st := fst (handleDeepReview E cl w) in
  st = failed (duringAbstracts cl) \/ st = failed (duringFullText cl) \/
  st = failed (duringReferences cl) \/ st = failed (duringSynthesis cl) \/
  exists report, st = succeeded report cl.
Proof.
  intros Hsel. rewrite (handleDeepReview_run E cl w Hsel).
  destruct (fetchAbstracts E _ w) as [[abstracts|e] w1]; [|by left].
  destruct (fullTextLoop E _ w1) as [[fullTexts|e] w2]; [|by right; left].
  destruct (fetchReferences E _ w2) as [[refIds|e] w3]; [|by right; right; left].
  destruct (referenceDetail E refIds w3) as [[refData|e] w4];
    [|by right; right; left].
  destruct (callGeminiReview E _ _ refData w4) as [[report|e] w5];
    [|by right; right; right; left].
  right; right; right; right. by exists report.
Qed.

(** The requests of the reference detail. *)
Lemma referenceDetail_request_bound (refIds : list jsstr) (w : Log) :
  (fetchCount (snd (referenceDetail E refIds w)) <= fetchCount w + 8)%nat.
Proof.
  destruct refIds as [|r refIds]; [simpl; lia|].
  rewrite referenceDetail_cases by done.
  assert (Hne : take 8 (r :: refIds) <> []) by done.
  destruct (accessors_make_one_fetch_call_aux E (take 8 (r :: refIds)) w Hne)
    as ((k1 & Hk1 & Hs) & _).
  destruct (fetchSummary E (take 8 (r :: refIds)) w) as [[refSummaries|e] w1];
    simpl in Hs; subst w1.
  - destruct (accessors_make_one_fetch_call_aux E (take 8 (r :: refIds))
                (w ++ attempts (summaryUrl (take 8 (r :: refIds))) k1) Hne)
      as (_ & (k2 & Hk2 & Ha) & _).
    destruct (fetchAbstracts E (take 8 (r :: refIds)) _) as [[refAbs|e] w2];
      simpl in Ha; subst w2; simpl; rewrite !fetchCount_attempts; lia.
  - simpl. rewrite fetchCount_attempts. lia.
Qed.

End EveryRun.

(** X14.  A run whose stages all go through ends at [SUCCESS]; the
    report shown is the text of the synthesis, or the fixed string
    "Report generation failed." when that text is empty: an empty answer
    of the model is not an error of the run. *)
Theorem handleDeepReview_completes
    (E : Env) (cl : AppState) (w w1 w2 w3 w4 : Log)
    (abstracts fullTexts : gmap jsstr jsstr) (refIds : list jsstr)
    (refData : list PubMedArticle) (text : jsstr) :
  selectedArticleIds cl <> [] ->
  fetchAbstracts E (selectedArticleIds cl) w = (Ok abstracts, w1) ->
  fullTextLoop E (selectedArticleIds cl) w1 = (Ok fullTexts, w2) ->
  fetchReferences E (selectedArticleIds cl) w2 = (Ok refIds, w3) ->
  referenceDetail E refIds w3 = (Ok refData, w4) ->
  synthesis E (targetText cl) (mergeSelected cl abstracts fullTexts) refData
  = Some text ->
  reviewStatus (fst (handleDeepReview E cl w)) = SUCCESS /\
  reportOutput (fst (handleDeepReview E cl w))
  = orElse text (lit "Report generation failed.") /\
  (text <> [] -> reportOutput (fst (handleDeepReview E cl w)) = text) /\
  (text = [] ->
   reportOutput (fst (handleDeepReview E cl w)) = lit "Report generation failed.") /\
  statusMessage (fst (handleDeepReview E cl w))
  = lit "Gemini is synthesizing report..." /\
  snd (handleDeepReview E cl w)
  = w4 ++ [EvReview (targetText cl) (mergeSelected cl abstracts fullTexts) refData].
Proof.
  intros Hsel Ha Hl Hr Hd Hsyn.
  rewrite (handleDeepReview_run E cl w Hsel), Ha, Hl, Hr, Hd.
  rewrite callGeminiReview_run, Hsyn. cbn [fst snd].
  split; [done|]. split; [done|]. split; [|split; [|done]].
  - intros Hne. simpl. by destruct text.
  - by intros ->.
Qed.

Lemma handleDeepReview_completes_witness :
  reviewStatus (fst (handleDeepReview envDemo renderSelected [])) = SUCCESS /\
  reportOutput (fst (handleDeepReview envDemo renderSelected []))
  = orElse (lit "report") (lit "Report generation failed.") /\
  (lit "report" <> [] ->
   reportOutput (fst (handleDeepReview envDemo renderSelected [])) = lit "report") /\
  (lit "report" = [] ->
   reportOutput (fst (handleDeepReview envDemo renderSelected []))
   = lit "Report generation failed.") /\
  statusMessage (fst (handleDeepReview envDemo renderSelected []))
  = lit "Gemini is synthesizing report..." /\
  snd (handleDeepReview envDemo renderSelected [])
  = demoLogDetail
      ++ [EvReview (targetText renderSelected)
                   (mergeSelected renderSelected demoAbstracts demoFullTexts)
                   demoRefData].
Proof.
  apply (handleDeepReview_completes envDemo renderSelected []
           demoLogAbstracts demoLogFullText demoLogReferences demoLogDetail
           demoAbstracts demoFullTexts [lit "11"; lit "12"] demoRefData
           (lit "report")).
  - discriminate.
  - vm_compute. reflexivity.
  - vm_compute. reflexivity.
  - vm_compute. reflexivity.
  - vm_compute. reflexivity.
  - reflexivity.
Defined.

(** X15.  Every run on a non-empty selection ends in a terminal status:
    [SUCCESS], or [ERROR] with the generic message as report; it never
    stays at [LOADING].  No run changes the listed articles, the
    selection, the input text or the translated text. *)
Theorem handleDeepReview_terminal_and_frame (E : Env) (cl : AppState) (w : Log) :
  selectedArticleIds cl <> [] ->
  (reviewStatus (fst (handleDeepReview E cl w)) = SUCCESS \/
   (reviewStatus (fst (handleDeepReview E cl w)) = ERROR /\
    reportOutput (fst (handleDeepReview E cl w)) = synthesisErrorMessage)) /\
  articles (fst (handleDeepReview E cl w)) = articles cl /\
  selectedArticleIds (fst (handleDeepReview E cl w)) = selectedArticleIds cl /\
  inputText (fst (handleDeepReview E cl w)) = inputText cl /\
  translatedText (fst (handleDeepReview E cl w)) = translatedText cl.
Proof.
  intros Hsel.
  destruct (handleDeepReview_final E cl w Hsel)
    as [-> | [-> | [-> | [-> | [report ->]]]]];
    (split; [first [by left | by right]|done]).
Qed.

Lemma handleDeepReview_terminal_and_frame_witness :
  (reviewStatus (fst (handleDeepReview envOffline renderInFlight [])) = SUCCESS \/
   (reviewStatus (fst (handleDeepReview envOffline renderInFlight [])) = ERROR /\
    reportOutput (fst (handleDeepReview envOffline renderInFlight []))
    = synthesisErrorMessage)) /\
  articles (fst (handleDeepReview envOffline renderInFlight []))
  = articles renderInFlight /\
  selectedArticleIds (fst (handleDeepReview envOffline renderInFlight []))
  = selectedArticleIds renderInFlight /\
  inputText (fst (handleDeepReview envOffline renderInFlight []))
  = inputText renderInFlight /\
  translatedText (fst (handleDeepReview envOffline renderInFlight []))
  = translatedText renderInFlight.
Proof.
  apply (handleDeepReview_terminal_and_frame envOffline renderInFlight []).
  discriminate.
Defined.

(** X16.  In every run the synthesis collaborator is called at most
    once, and nothing happens after the call: the effects of a run are
    requests and waits, followed, unless a stage before it has failed, by
    the one call of the synthesis on the target text of the render. *)
Theorem synthesis_is_called_last (E : Env) (cl : AppState) (w : Log) :
  selectedArticleIds cl <> [] ->
  exists net,
    Forall networkEvent net /\
    ((snd (handleDeepReview E cl w) = w ++ net /\
      reviewStatus (fst (handleDeepReview E cl w)) = ERROR) \/
     exists sel refs,
       snd (handleDeepReview E cl w)
       = w ++ net ++ [EvReview (targetText cl) sel refs]).
Proof.
  intros Hsel. rewrite (handleDeepReview_run E cl w Hsel).
  destruct (fetchAbstracts E _ w) as [[abstracts|e] w1] eqn:Ha.
  2:{ destruct (fetchAbstracts_quiet E _ _ _ _ Ha) as (net & -> & Hnet).
      exists net. split; [done|]. by left. }
  destruct (fullTextLoop E _ w1) as [[fullTexts|e] w2] eqn:Hl.
  2:{ destruct (quiet_trans _ _ _ (fetchAbstracts_quiet E _ _ _ _ Ha)
                  (fullTextLoop_quiet E _ _ _ _ Hl)) as (net & -> & Hnet).
      exists net. split; [done|]. by left. }
  destruct (fetchReferences E _ w2) as [[refIds|e] w3] eqn:Hr.
  2:{ destruct (quiet_trans _ _ _ (fetchAbstracts_quiet E _ _ _ _ Ha)
                  (quiet_trans _ _ _ (fullTextLoop_quiet E _ _ _ _ Hl)
                     (fetchReferences_quiet E _ _ _ _ Hr))) as (net & -> & Hnet).
      exists net. split; [done|]. by left. }
  destruct (referenceDetail E refIds w3) as [[refData|e] w4] eqn:Hd;
    destruct (quiet_trans _ _ _ (fetchAbstracts_quiet E _ _ _ _ Ha)
                (quiet_trans _ _ _ (fullTextLoop_quiet E _ _ _ _ Hl)
                   (quiet_trans _ _ _ (fetchReferences_quiet E _ _ _ _ Hr)
                      (referenceDetail_quiet E _ _ _ _ Hd))))
      as (net & -> & Hnet);
    exists net; (split; [done|]); [|by left].
  right. rewrite callGeminiReview_run.
  exists (mergeSelected cl abstracts fullTexts), refData.
  destruct (synthesis E _ _ _); cbn [snd]; by rewrite <- app_assoc.
Qed.

Lemma synthesis_is_called_last_witness :
  exists net,
    Forall networkEvent net /\
    ((snd (handleDeepReview envDemo renderSelected []) = [] ++ net /\
      reviewStatus (fst (handleDeepReview envDemo renderSelected [])) = ERROR) \/
     exists sel refs,
       snd (handleDeepReview envDemo renderSelected [])
       = [] ++ net ++ [EvReview (targetText renderSelected) sel refs]).
Proof.
  apply (synthesis_is_called_last envDemo renderSelected []). discriminate.
Defined.

(** X17.  A run issues at most [8 * n + 16] requests for a selection of
    [n] articles: four for the abstracts, eight per selected article for
    the full texts, four for the reference lookup and eight for the
    reference detail. *)
Theorem handleDeepReview_request_bound (E : Env) (cl : AppState) (w : Log) :
  (fetchCount (snd (handleDeepReview E cl w))
   <= fetchCount w + 8 * length (selectedArticleIds cl) + 16)%nat.
Proof.
  destruct (decide (selectedArticleIds cl = [])) as [Hnil|Hsel].
  { rewrite handleDeepReview_empty_selection by done. simpl. lia. }
  rewrite (handleDeepReview_run E cl w Hsel).
  destruct (accessors_make_one_fetch_call_aux E _ w Hsel)
    as (_ & (k1 & Hk1 & Ha) & _).
  destruct (fetchAbstracts E _ w) as [[abstracts|e] w1]; simpl in Ha; subst w1;
    [|simpl; rewrite fetchCount_attempts; lia].
  pose proof (fetchCount_attempts (abstractsUrl (selectedArticleIds cl)) k1 w) as H1.
  destruct (forOf_fullText_sound E (selectedArticleIds cl) ∅
              (w ++ attempts (abstractsUrl (selectedArticleIds cl)) k1))
    as (m & w2 & Hl & _ & _ & H2).
  unfold fullTextLoop. rewrite Hl.
  destruct (accessors_make_one_fetch_call_aux E _ w2 Hsel)
    as (_ & _ & (k3 & Hk3 & Hr)).
  pose proof (fetchCount_attempts (referencesUrl (selectedArticleIds cl)) k3 w2) as H3.
  destruct (fetchReferences E _ w2) as [[refIds|e] w3]; simpl in Hr; subst w3;
    [|simpl; lia].
  pose proof (referenceDetail_request_bound E refIds
                (w2 ++ attempts (referencesUrl (selectedArticleIds cl)) k3)) as H4.
  destruct (referenceDetail E refIds _) as [[refData|e] w4]; simpl in H4;
    [|simpl; lia].
  rewrite callGeminiReview_run.
  assert (H5 : forall t s r, fetchCount (w4 ++ [EvReview t s r]) = fetchCount w4).
  { intros t s r. rewrite fetchCount_app.
    change (fetchCount [EvReview t s r]) with 0%nat. lia. }
  destruct (synthesis E _ _ _); cbn [snd]; rewrite H5; lia.
Qed.

(* ===================================================================== *)
(** ** The selection toggles *)
(* ===================================================================== *)

Lemma setDelete_elem (s : list jsstr) (x y : jsstr) :
  y ∈ setDelete s x <-> y ∈ s /\ y <> x.
Proof.
  unfold setDelete. induction s as [|z s IH]; simpl.
  - split; [intros H; inversion H|intros [H _]; inversion H].
  - case_bool_decide as Hz; simpl.
    + rewrite IH, elem_of_cons. subst z. split; [tauto|].
      intros [[?|?] ?]; [done|tauto].
    + rewrite !elem_of_cons, IH. split; [|tauto].
      intros [->|[? ?]]; [by split; [left|]|tauto].
Qed.

Lemma setDelete_NoDup (s : list jsstr) (x : jsstr) :
  NoDup s -> NoDup (setDelete s x).
Proof.
  induction 1 as [|z s Hz Hs IH]; [constructor|].
  unfold setDelete in *. simpl. case_bool_decide; simpl; [done|].
  constructor; [|done].
  intros Hin. apply (setDelete_elem s x z) in Hin. tauto.
Qed.

Lemma setDelete_absent (s : list jsstr) (x : jsstr) :
  x ∉ s -> setDelete s x = s.
Proof.
  unfold setDelete. induction s as [|z s IH]; intros Hx; simpl; [done|].
  apply not_elem_of_cons in Hx as [Hne Hx].
  case_bool_decide; [by subst|]. simpl. by rewrite IH.
Qed.

Lemma setDelete_snoc (s : list jsstr) (x : jsstr) :
  x ∉ s -> setDelete (s ++ [x]) x = s.
Proof.
  intros Hx. unfold setDelete. rewrite List.filter_app. simpl.
  rewrite bool_decide_true by done. simpl. rewrite app_nil_r.
  by apply setDelete_absent.
Qed.

Lemma setDelete_Permutation (s : list jsstr) (x : jsstr) :
  NoDup s -> x ∈ s -> setDelete s x ++ [x] ≡ₚ s.
Proof.
  induction 1 as [|z s Hz Hs IH]; intros Hx; [inversion Hx|].
  unfold setDelete in *. simpl. case_bool_decide as Hzx; simpl.
  - subst z. fold (setDelete s x). rewrite setDelete_absent by done.
    by rewrite Permutation_app_comm.
  - apply elem_of_cons in Hx as [->|Hx]; [done|].
    by rewrite IH.
Qed.

Lemma setDelete_length (s : list jsstr) (x : jsstr) :
  NoDup s -> x ∈ s -> Datatypes.S (length (setDelete s x)) = length s.
Proof.
  intros Hs Hx. rewrite <- (Permutation_length (setDelete_Permutation s x Hs Hx)).
  rewrite length_app. simpl. lia.
Qed.

Lemma toggled_elem (s : list jsstr) (x y : jsstr) :
  y ∈ toggled s x <-> (y ∈ s /\ y <> x) \/ (y = x /\ x ∉ s).
Proof.
  unfold toggled, has. case_bool_decide as Hx.
  - rewrite setDelete_elem. tauto.
  - rewrite setAdd_elem. split.
    + intros [Hy| ->]; [left; split; [done|]; by intros ->|by right].
    + tauto.
Qed.

Lemma toggled_NoDup (s : list jsstr) (x : jsstr) :
  NoDup s -> NoDup (toggled s x).
Proof.
  intros Hs. unfold toggled. destruct (has s x).
  - by apply setDelete_NoDup.
  - by apply setAdd_NoDup.
Qed.

(** X18.  A toggle flips the membership of its element and of no other.
    When the selection is a set (no element twice), after [toggleTerm]
    (and likewise [toggleArticle]) the selection is still a set, the
    toggled element is a member exactly when it was not one before, every
    other element is a member exactly when it was, and the size changes
    by one; the elements that stay keep their order, and a new one is put
    last. *)
Theorem toggle_flips_membership (st : Ui.State) (x : jsstr) :
  (NoDup (Ui.selectedTerms st) ->
   let s := Ui.selectedTerms st in
   let s' := Ui.selectedTerms (toggleTerm x st) in
   NoDup s' /\
   (x ∈ s' <-> x ∉ s) /\
   (forall y, y <> x -> (y ∈ s' <-> y ∈ s)) /\
   (x ∈ s -> Datatypes.S (length s') = length s /\ s' `sublist_of` s) /\
   (x ∉ s -> s' = s ++ [x])) /\
  (NoDup (Ui.selectedArticleIds st) ->
   let s := Ui.selectedArticleIds st in
   let s' := Ui.selectedArticleIds (toggleArticle x st) in
   NoDup s' /\
   (x ∈ s' <-> x ∉ s) /\
   (forall y, y <> x -> (y ∈ s' <-> y ∈ s)) /\
   (x ∈ s -> Datatypes.S (length s') = length s /\ s' `sublist_of` s) /\
   (x ∉ s -> s' = s ++ [x])).
Proof.
  assert (H : forall s : list jsstr, NoDup s ->
            NoDup (toggled s x) /\
            (x ∈ toggled s x <-> x ∉ s) /\
            (forall y, y <> x -> (y ∈ toggled s x <-> y ∈ s)) /\
            (x ∈ s -> Datatypes.S (length (toggled s x)) = length s /\
                      toggled s x `sublist_of` s) /\
            (x ∉ s -> toggled s x = s ++ [x])).
  { intros s Hs. split; [by apply toggled_NoDup|]. split; [|split; [|split]].
    - rewrite toggled_elem. tauto.
    - intros y Hy. rewrite toggled_elem. tauto.
    - intros Hx. unfold toggled, has. rewrite bool_decide_true by done.
      split; [by apply setDelete_length|].
      unfold setDelete. clear. induction s as [|z s IH]; simpl; [done|].
      destruct (negb _); [by apply sublist_skip|by apply sublist_cons].
    - intros Hx. unfold toggled, has, setAdd.
      by rewrite !bool_decide_false by done. }
  split; intros Hs; simpl; by apply H.
Qed.

Lemma toggle_flips_membership_witness :
  Ui.selectedTerms (toggleTerm (lit "Insulin") uiReady)
  = Ui.selectedTerms uiReady ++ [lit "Insulin"] /\
  Datatypes.S (length (Ui.selectedArticleIds (toggleArticle (lit "99") uiReady)))
  = length (Ui.selectedArticleIds uiReady).
Proof.
  destruct (toggle_flips_membership uiReady (lit "Insulin")) as [Ht _].
  destruct (toggle_flips_membership uiReady (lit "99")) as [_ Ha].
  split.
  - assert (Hs : NoDup (Ui.selectedTerms uiReady)).
    { apply (bool_decide_unpack _). vm_compute. exact I. }
    destruct (Ht Hs) as (_ & _ & _ & _ & Hadd).
    apply Hadd. apply (bool_decide_unpack _). vm_compute. exact I.
  - assert (Hs : NoDup (Ui.selectedArticleIds uiReady)).
    { apply (bool_decide_unpack _). vm_compute. exact I. }
    destruct (Ha Hs) as (_ & _ & _ & Hdel & _).
    apply Hdel. apply (bool_decide_unpack _). vm_compute. exact I.
Defined.

Lemma toggled_twice (s : list jsstr) (x : jsstr) :
  NoDup s ->
  toggled (toggled s x) x ≡ₚ s /\
  (x ∉ s -> toggled (toggled s x) x = s) /\
  (x ∈ s -> toggled (toggled s x) x = setDelete s x ++ [x]).
Proof.
  intros Hs. destruct (decide (x ∈ s)) as [Hx|Hx].
  - assert (Hd : x ∉ setDelete s x) by (rewrite setDelete_elem; tauto).
    assert (Heq : toggled (toggled s x) x = setDelete s x ++ [x]).
    { unfold toggled at 2. unfold has. rewrite bool_decide_true by done.
      unfold toggled, has, setAdd. by rewrite !bool_decide_false by done. }
    split; [|split]; [|done|done].
    rewrite Heq. by apply setDelete_Permutation.
  - assert (Heq : toggled (toggled s x) x = s).
    { unfold toggled at 2. unfold has, setAdd.
      rewrite !bool_decide_false by done.
      unfold toggled, has. rewrite bool_decide_true
        by (apply elem_of_app; right; apply list_elem_of_singleton; done).
      by apply setDelete_snoc. }
    split; [|split]; [by rewrite Heq|done|done].
Qed.

(** X19.  Toggling the same element twice gives back the same set: the
    selection after [toggleTerm] (likewise [toggleArticle]) applied twice
    to one element has the elements it had.  When the element was not
    selected the whole state is as before; when it was, the element has
    moved to the end of the iteration order, which is the order
    [Array.from] later reads. *)
Theorem toggle_twice_restores (st : Ui.State) (x : jsstr) :
  (NoDup (Ui.selectedTerms st) ->
   Ui.selectedTerms (toggleTerm x (toggleTerm x st)) ≡ₚ Ui.selectedTerms st /\
   (x ∉ Ui.selectedTerms st -> toggleTerm x (toggleTerm x st) = st) /\
   (x ∈ Ui.selectedTerms st ->
    Ui.selectedTerms (toggleTerm x (toggleTerm x st))
    = setDelete (Ui.selectedTerms st) x ++ [x])) /\
  (NoDup (Ui.selectedArticleIds st) ->
   Ui.selectedArticleIds (toggleArticle x (toggleArticle x st))
     ≡ₚ Ui.selectedArticleIds st /\
   (x ∉ Ui.selectedArticleIds st -> toggleArticle x (toggleArticle x st) = st) /\
   (x ∈ Ui.selectedArticleIds st ->
    Ui.selectedArticleIds (toggleArticle x (toggleArticle x st))
    = setDelete (Ui.selectedArticleIds st) x ++ [x])).
Proof.
  split; intros Hs.
  - destruct (toggled_twice _ x Hs) as (Hp & Hout & Hin).
    split; [done|]. split; [|done].
    intros Hx. specialize (Hout Hx). destruct st. unfold toggleTerm in *.
    simpl in *. unfold Ui.setSelectedTerms. simpl. by rewrite Hout.
  - destruct (toggled_twice _ x Hs) as (Hp & Hout & Hin).
    split; [done|]. split; [|done].
    intros Hx. specialize (Hout Hx). destruct st. unfold toggleArticle in *.
    simpl in *. unfold Ui.setSelectedArticleIds. simpl. by rewrite Hout.
Qed.

Lemma toggle_twice_restores_witness :
  toggleTerm (lit "Insulin") (toggleTerm (lit "Insulin") uiReady) = uiReady /\
  Ui.selectedTerms (toggleTerm (lit "Metformin") (toggleTerm (lit "Metformin") uiReady))
  = setDelete (Ui.selectedTerms uiReady) (lit "Metformin") ++ [lit "Metformin"].
Proof.
  assert (Hs : NoDup (Ui.selectedTerms uiReady)).
  { apply (bool_decide_unpack _). vm_compute. exact I. }
  destruct (toggle_twice_restores uiReady (lit "Insulin")) as [Ht _].
  destruct (toggle_twice_restores uiReady (lit "Metformin")) as [Hm _].
  destruct (Ht Hs) as (_ & Hout & _). destruct (Hm Hs) as (_ & _ & Hin).
  split.
  - apply Hout. apply (bool_decide_unpack _). vm_compute. exact I.
  - apply Hin. apply (bool_decide_unpack _). vm_compute. exact I.
Defined.

(* ===================================================================== *)
(** ** The address of the search *)
(* ===================================================================== *)

Lemma hexDigit_unreserved (n : N) :
  (n < 16)%N -> Uri.isUnreserved (Uri.hexDigit n) = true.
Proof.
  intros Hn. destruct n as [|p]; [reflexivity|].
  do 4 (destruct p as [p|p|]; try reflexivity); lia.
Qed.

Lemma percent_safe (b : N) :
  (b < 256)%N -> Forall (fun c => urlSafe c = true) (Uri.percent b).
Proof.
  intros Hb. unfold Uri.percent.
  apply Forall_cons. split; [reflexivity|].
  apply Forall_cons. split; [|apply Forall_cons; split; [|constructor]];
    unfold urlSafe.
  - rewrite hexDigit_unreserved; [done|].
    apply N.Div0.div_lt_upper_bound. lia.
  - rewrite hexDigit_unreserved; [done|]. apply N.mod_lt. lia.
Qed.

Lemma utf8_octets (cp : N) :
  (cp < 1114112)%N -> Forall (fun b => (b < 256)%N) (Uri.utf8 cp).
Proof.
  intros Hcp. unfold Uri.utf8.
  destruct (N.ltb_spec cp 128); [repeat constructor; lia|].
  destruct (N.ltb_spec cp 2048).
  { repeat constructor.
    - pose proof (N.Div0.div_lt_upper_bound cp 64 32). lia.
    - pose proof (N.mod_lt cp 64). lia. }
  destruct (N.ltb_spec cp 65536).
  { repeat constructor.
    - pose proof (N.Div0.div_lt_upper_bound cp 4096 16). lia.
    - pose proof (N.mod_lt (cp / 64) 64). lia.
    - pose proof (N.mod_lt cp 64). lia. }
  repeat constructor.
  - pose proof (N.Div0.div_lt_upper_bound cp 262144 5). lia.
  - pose proof (N.mod_lt (cp / 4096) 64). lia.
  - pose proof (N.mod_lt (cp / 64) 64). lia.
  - pose proof (N.mod_lt cp 64). lia.
Qed.

Lemma escape_safe (cp : N) :
  (cp < 1114112)%N -> Forall (fun c => urlSafe c = true) (Uri.escape cp).
Proof.
  intros Hcp. unfold Uri.escape. apply Forall_concat, Forall_map.
  eapply Forall_impl; [by apply utf8_octets|].
  intros b Hb. by apply percent_safe.
Qed.

Lemma encodeURIComponent_safe (s t : jsstr) :
  Forall codeUnit s ->
  Uri.encodeURIComponent s = Some t ->
  Forall (fun c => urlSafe c = true) t.
Proof.
  remember (length s) as n eqn:Hn. revert s t Hn.
  induction n as [n IH] using lt_wf_ind. intros s t -> Hs H.
  destruct s as [|c r]; simpl in H; [by inversion H|].
  apply Forall_cons in Hs as [Hc Hr]. unfold codeUnit in Hc.
  destruct (Uri.isUnreserved c) eqn:Hu.
  { destruct (Uri.encodeURIComponent r) as [e|] eqn:He; [|done].
    inversion H; subst t. constructor.
    - unfold urlSafe. by rewrite Hu.
    - eapply (IH (length r)); [simpl; lia|done|done|done]. }
  destruct (Uri.isTrail c) eqn:Htr; [done|].
  destruct (Uri.isLead c) eqn:Hl.
  - destruct r as [|d r']; [done|].
    apply Forall_cons in Hr as [Hd Hr]. unfold codeUnit in Hd.
    destruct (Uri.isTrail d) eqn:Htd; [|done].
    destruct (Uri.encodeURIComponent r') as [e|] eqn:He; [|done].
    inversion H; subst t. apply Forall_app. split.
    + apply escape_safe. unfold Uri.isLead, Uri.isTrail in *.
      apply andb_true_iff in Hl as [Hl1 Hl2].
      apply andb_true_iff in Htd as [Hd1 Hd2].
      apply N.leb_le in Hl1, Hl2, Hd1, Hd2. lia.
    + eapply (IH (length r')); [simpl; lia|done|done|done].
  - destruct (Uri.encodeURIComponent r) as [e|] eqn:He; [|done].
    inversion H; subst t. apply Forall_app. split.
    + apply escape_safe. lia.
    + eapply (IH (length r)); [simpl; lia|done|done|done].
Qed.

Lemma encodeURIComponent_scalar (s : jsstr) :
  Forall scalar s -> exists t, Uri.encodeURIComponent s = Some t.
Proof.
  induction 1 as [|c r [Hl Ht] Hr [e IH]]; simpl; [by eexists|].
  rewrite IH, Ht, Hl. destruct (Uri.isUnreserved c); by eexists.
Qed.

Lemma join_Forall (P : char -> Prop) (sep : jsstr) (l : list jsstr) :
  Forall P sep -> Forall (Forall P) l -> Forall P (join sep l).
Proof.
  intros Hsep Hl. unfold join.
  induction Hl as [|x l Hx Hl IH]; [constructor|].
  simpl. destruct l as [|y l]; [done|].
  apply Forall_app. split; [done|]. apply Forall_app. split; [done|].
  exact IH.
Qed.

Lemma encodeURIComponent_unreserved_app (a r : jsstr) :
  Forall (fun c => Uri.isUnreserved c = true) a ->
  Uri.encodeURIComponent (a ++ r)
  = match Uri.encodeURIComponent r with Some e => Some (a ++ e) | None => None end.
Proof.
  induction 1 as [|c a Hc Ha IH]; simpl; [by destruct (Uri.encodeURIComponent r)|].
  rewrite Hc, IH. by destruct (Uri.encodeURIComponent r).
Qed.

Lemma encodeURIComponent_AND (r : jsstr) :
  Uri.encodeURIComponent (lit " AND " ++ r)
  = match Uri.encodeURIComponent r with
    | Some e => Some (lit "%20AND%20" ++ e)
    | None => None
    end.
Proof.
  replace (lit " AND ") with [32; 65; 78; 68; 32]%N by reflexivity.
  replace (lit "%20AND%20") with [37; 50; 48; 65; 78; 68; 37; 50; 48]%N
    by reflexivity.
  cbn -[Uri.encodeURIComponent].
  change (32 :: 65 :: 78 :: 68 :: 32 :: r)%N
    with ([32%N] ++ [65; 78; 68]%N ++ [32%N] ++ r).
  assert (Hsp : forall x, Uri.encodeURIComponent ([32%N] ++ x)
                = match Uri.encodeURIComponent x with
                  | Some e => Some ([37; 50; 48]%N ++ e)
                  | None => None
                  end).
  { intros x. simpl. by destruct (Uri.encodeURIComponent x). }
  rewrite Hsp, encodeURIComponent_unreserved_app, Hsp
    by (repeat constructor).
  by destruct (Uri.encodeURIComponent r).
Qed.

Lemma encodeURIComponent_join_unreserved (keywords : list jsstr) :
  Forall (Forall (fun c => Uri.isUnreserved c = true)) keywords ->
  Uri.encodeURIComponent (join (lit " AND ") keywords)
  = Some (join (lit "%20AND%20") keywords).
Proof.
  induction 1 as [|p l Hp Hl IH]; [done|].
  destruct l as [|q l].
  - simpl. rewrite <- (app_nil_r p) at 1.
    rewrite encodeURIComponent_unreserved_app by done. simpl.
    by rewrite app_nil_r.
  - change (join (lit " AND ") (p :: q :: l))
      with (p ++ lit " AND " ++ join (lit " AND ") (q :: l)).
    change (join (lit "%20AND%20") (p :: q :: l))
      with (p ++ lit "%20AND%20" ++ join (lit "%20AND%20") (q :: l)).
    rewrite encodeURIComponent_unreserved_app by done.
    by rewrite encodeURIComponent_AND, IH.
Qed.

Lemma urlSafe_not (t : jsstr) (c : char) :
  Forall (fun c => urlSafe c = true) t -> urlSafe c = false -> c ∉ t.
Proof.
  intros Ht Hc Hin. rewrite Forall_forall in Ht.
  specialize (Ht c Hin). congruence.
Qed.

(** X20.  The keywords cannot alter the search address.  The address
    [executePubMedSearch] requests is the fixed prefix, the encoded query,
    the text of the two year bounds and the fixed suffix.  For keywords of
    UTF-16 code units the encoded query holds only letters, digits,
    [-_.!~*'()] and the percent sign, hence no ampersand, equals sign,
    space or hash.  Keywords without surrogate halves are always encoded
    (no [URIError]), and keywords of letters and digits are joined by
    [%20AND%20] and otherwise left as they are.  When the year, the number
    of years and their difference are safe integers (so that the
    subtraction and the printing are exact), the year bounds are the
    decimal numerals of the difference and of the year. *)
Theorem search_term_is_escaped (U : UiEnv) (keywords : list jsstr) (years : Z) :
  (Forall (Forall codeUnit) keywords ->
   forall url, searchUrl U keywords years = Some url ->
   exists term,
     Uri.encodeURIComponent (join (lit " AND ") keywords) = Some term /\
     url = EUTILS_BASE ++ lit "/esearch.fcgi?db=pubmed&term=" ++ term
             ++ dates U years
             ++ lit "&retmode=json&retmax=30&sort=relevance" /\
     Forall (fun c => urlSafe c = true) term /\
     (38%N ∉ term) /\ (61%N ∉ term) /\ (32%N ∉ term) /\ (35%N ∉ term)) /\
  (Forall (Forall scalar) keywords ->
   exists url, searchUrl U keywords years = Some url) /\
  (Forall (Forall (fun c => Uri.isUnreserved c = true)) keywords ->
   searchUrl U keywords years
   = Some (EUTILS_BASE ++ lit "/esearch.fcgi?db=pubmed&term="
             ++ join (lit "%20AND%20") keywords
             ++ dates U years
             ++ lit "&retmode=json&retmax=30&sort=relevance")) /\
  (safeInteger (currentYear U) = true -> safeInteger years = true ->
   safeInteger (currentYear U - years) = true ->
   dates U years
   = lit "&mindate=" ++ decimal (currentYear U - years)
       ++ lit "&maxdate=" ++ decimal (currentYear U)).
Proof.
  split; [|split; [|split]].
  - intros Hk url Hurl. unfold searchUrl in Hurl.
    destruct (Uri.encodeURIComponent _) as [term|] eqn:He; [|done].
    inversion Hurl; subst url. exists term.
    assert (Hsafe : Forall (fun c => urlSafe c = true) term).
    { eapply encodeURIComponent_safe; [|exact He].
      apply join_Forall; [|done]. repeat constructor. }
    repeat (split; [done|]).
    repeat split; by apply urlSafe_not.
  - intros Hk. unfold searchUrl.
    destruct (encodeURIComponent_scalar (join (lit " AND ") keywords)) as [t Ht].
    { apply join_Forall; [|done]. repeat constructor. }
    rewrite Ht. by eexists.
  - intros Hk. unfold searchUrl.
    by rewrite encodeURIComponent_join_unreserved.
  - intros Hy Hn Hd. unfold dates. by rewrite Hy, Hn, Hd.
Qed.

Lemma search_term_is_escaped_witness :
  searchUrl uiDemo [lit "Metformin"; lit "Diabetes"] 5
  = Some (EUTILS_BASE ++ lit "/esearch.fcgi?db=pubmed&term="
            ++ join (lit "%20AND%20") [lit "Metformin"; lit "Diabetes"]
            ++ dates uiDemo 5
            ++ lit "&retmode=json&retmax=30&sort=relevance") /\
  dates uiDemo 5
  = lit "&mindate=" ++ decimal (currentYear uiDemo - 5)
      ++ lit "&maxdate=" ++ decimal (currentYear uiDemo) /\
  exists term,
    Uri.encodeURIComponent (join (lit " AND ") [lit "a&b=c"; lit "d e"]) = Some term /\
    (38%N ∉ term) /\ (61%N ∉ term) /\ (32%N ∉ term).
Proof.
  destruct (search_term_is_escaped uiDemo [lit "Metformin"; lit "Diabetes"] 5)
    as (_ & _ & Hplain & Hdates).
  destruct (search_term_is_escaped uiDemo [lit "a&b=c"; lit "d e"] 5)
    as (Hsafe & _ & _).
  split; [|split].
  - apply Hplain. apply (bool_decide_unpack _). vm_compute. exact I.
  - apply Hdates; reflexivity.
  - destruct (Hsafe ltac:(apply (bool_decide_unpack _); vm_compute; exact I)
                    _ eq_refl)
      as (term & He & _ & _ & Ha & Heq & Hsp & _).
    exists term. done.
Defined.

(* ===================================================================== *)
(** ** The search *)
(* ===================================================================== *)

Lemma fetchCount_last (url : jsstr) (k : nat) (w : Log) :
  (fetchCount (w ++ attempts url k) - 1)%nat = (fetchCount w + k)%nat.
Proof.
  rewrite fetchCount_attempts. lia.
Qed.

(** One run of [executePubMedSearch] on an address that could be built. *)
Lemma executePubMedSearch_run (U : UiEnv) (keywords : list jsstr) (years : Z)
    (url : jsstr) (w : Log) :
  searchUrl U keywords years = Some url ->
  exists k, (k <= 3)%nat /\
    snd (fetchWithRetry (base U) url 3 w) = w ++ attempts url k /\
    executePubMedSearch U keywords years w
    = match fetchWithRetry (base U) url 3 w with
      | (Throw e, w1) => (UiThrow (ServiceError e), w1)
      | (Ok res, w1) =>
          match body_json res with
          | None => (UiThrow (ServiceError BodyError), w1)
          | Some _ =>
              match searchBody U url (fetchCount w + k) with
              | None => (UiThrow (ServiceError TypeError), w1)
              | Some e => (UiOk {| count := ParseInt (es_count e);
                                   ids := default [] (es_idlist e) |}, w1)
              end
          end
      end.
Proof.
  intros Hurl.
  destruct (fetchWithRetry_log_shape (base U) url 3 w) as (k & Hk & Hlog).
  exists k. split; [done|]. split; [done|].
  unfold executePubMedSearch. rewrite Hurl.
  unfold ubind, fromService.
  destruct (fetchWithRetry (base U) url 3 w) as [[res|e] w1]; [|done].
  simpl in Hlog. subst w1. unfold json, ret, throw.
  destruct (body_json res) as [d|]; [|done].
  fold (attempts url k). rewrite fetchCount_last.
  by destruct (searchBody U url (fetchCount w + k)).
Qed.

(** X21.  What a search returns.  When the query cannot be encoded,
    [executePubMedSearch] throws before any request.  Otherwise it makes
    one call of the fetch layer to the search address, of [k <= 3] retries,
    and nothing else.  A result it returns is read from the [ok] response
    to the last request: the count is [parseInt] of its [count], the
    identifiers are its [idlist], or none when it has no [idlist].  It
    throws exactly when the fetch layer does (the same error), when the
    body cannot be read, or when the body has no [esearchresult]. *)
Theorem executePubMedSearch_outcome
    (U : UiEnv) (keywords : list jsstr) (years : Z) (w : Log) :
  (searchUrl U keywords years = None ->
   executePubMedSearch U keywords years w = (UiThrow URIError, w)) /\
  (forall url, searchUrl U keywords years = Some url ->
   exists k, (k <= 3)%nat /\
     snd (executePubMedSearch U keywords years w) = w ++ attempts url k /\
     match fst (executePubMedSearch U keywords years w) with
     | UiOk found =>
         exists res e,
           network (base U) url (fetchCount w + k) = Resolves res /\
           ok res = true /\ body_json res <> None /\
           searchBody U url (fetchCount w + k) = Some e /\
           count found = ParseInt (es_count e) /\
           ids found = default [] (es_idlist e)
     | UiThrow x =>
         (exists e, fetchWithRetry (base U) url 3 w = (Throw e, w ++ attempts url k) /\
                    x = ServiceError e) \/
         (exists res, fetchWithRetry (base U) url 3 w = (Ok res, w ++ attempts url k) /\
                      body_json res = None /\ x = ServiceError BodyError) \/
         (exists res, fetchWithRetry (base U) url 3 w = (Ok res, w ++ attempts url k) /\
                      body_json res <> None /\
                      searchBody U url (fetchCount w + k) = None /\
                      x = ServiceError TypeError)
     end).
Proof.
  split.
  - intros Hurl. unfold executePubMedSearch. by rewrite Hurl.
  - intros url Hurl.
    destruct (executePubMedSearch_run U keywords years url w Hurl)
      as (k & Hk & Hlog & Hrun).
    destruct (fetchWithRetry (base U) url 3 w) as [[res|e] w1] eqn:Hf;
      simpl in Hlog; subst w1.
    + apply fetchWithRetry_ok_inv in Hf as Hinv.
      destruct Hinv as (Hok & k' & Hk' & Hnet & Hw).
      assert (k' = k) as ->.
      { apply (f_equal fetchCount) in Hw. unfold attempts in Hw.
        fold (attempts url k) in Hw. fold (attempts url k') in Hw.
        rewrite !fetchCount_attempts in Hw. lia. }
      destruct (body_json res) as [d|] eqn:Hb.
      * destruct (searchBody U url (fetchCount w + k)) as [e|] eqn:Hs.
        -- exists k. rewrite Hrun. simpl. split; [done|]. split; [done|].
           exists res, e. by rewrite Hb.
        -- exists k. rewrite Hrun. simpl. split; [done|]. split; [done|].
           right. right. exists res. by rewrite Hb.
      * exists k. rewrite Hrun. simpl. split; [done|]. split; [done|].
        right. left. by exists res.
    + exists k. rewrite Hrun. simpl. split; [done|]. split; [done|].
      left. by exists e.
Qed.

Lemma executePubMedSearch_outcome_witness :
  exists k, (k <= 3)%nat /\
    snd (executePubMedSearch uiDemo [lit "Metformin"; lit "Diabetes"] 5 [])
    = [] ++ attempts
        (lit "https://eutils.ncbi.nlm.nih.gov/entrez/eutils/esearch.fcgi?db=pubmed&term=Metformin%20AND%20Diabetes&mindate=2019&maxdate=2024&retmode=json&retmax=30&sort=relevance")
        k /\
    ids (match fst (executePubMedSearch uiDemo [lit "Metformin"; lit "Diabetes"] 5 [])
         with UiOk found => found | UiThrow _ => {| count := NumLit 0; ids := [] |} end)
    = [lit "11"; lit "12"].
Proof.
  destruct (executePubMedSearch_outcome uiDemo [lit "Metformin"; lit "Diabetes"] 5 [])
    as [_ H].
  destruct (H _ ltac:(vm_compute; reflexivity)) as (k & Hk & Hlog & Hres).
  exists k. split; [done|]. split; [done|].
  vm_compute. reflexivity.
Defined.

(* ===================================================================== *)
(** ** [handleSearch] *)
(* ===================================================================== *)

Lemma handleSearch_run (U : UiEnv) (cl : Ui.State) (w : Log) (c : list ModelCall) :
  Ui.selectedTerms cl <> [] ->
  handleSearch U cl w c
  = match executePubMedSearch U (Ui.selectedTerms cl) (Ui.yearRange cl) w with
    | (UiThrow _, w1) => (Ui.setSearchStatus ERROR (searchCleared cl), w1, c)
    | (UiOk found, w1) =>
        match ids found with
        | [] => (Ui.setSearchStatus SUCCESS
                   (Ui.setTotalHits (count found) (searchCleared cl)), w1, c)
        | _ :: _ =>
            match fetchSummary (base U) (ids found) w1 with
            | (Throw _, w2) =>
                (Ui.setSearchStatus ERROR
                   (Ui.setTotalHits (count found) (searchCleared cl)), w2, c)
            | (Ok summaries, w2) =>
                match callGeminiTitleTranslation U summaries c with
                | (UiThrow _, c') =>
                    (Ui.setSearchStatus ERROR (searchListed cl found summaries),
                     w2, c')
                | (UiOk jpTitles, c') =>
                    (Ui.setTranslatingTitles false
                       (mergeTitles jpTitles (searchListed cl found summaries)),
                     w2, c')
                end
            end
        end
    end.
Proof.
  intros Hsel. unfold handleSearch.
  destruct (Ui.selectedTerms cl) as [|t ts] eqn:Hts; [done|].
  unfold ubind, utry, update, searchTry, ubind, onNet, onModel, update.
  rewrite Hts.
  destruct (executePubMedSearch U (t :: ts) (Ui.yearRange cl) w)
    as [[found|e] w1]; [|done].
  destruct (ids found) as [|i rest] eqn:Hids; [done|].
  unfold fromService.
  destruct (fetchSummary (base U) (i :: rest) w1) as [[summaries|e] w2]; [|done].
  by destruct (callGeminiTitleTranslation U summaries c) as [[jp|e] c'].
Qed.





(** X23.  Nothing is listed unless the summaries arrived.  A search that
    fails (in the query encoding, the request, or the body) ends with
    status ERROR, an empty listing and the hit count as it was; a search
    without hits ends with status SUCCESS, an empty listing and the count
    of the search, and asks for no summary; a summary request that fails
    ends with status ERROR, an empty listing and the count of the search.
    In none of these is the title model called, and in all of them the
    earlier listing and selection of articles are gone. *)
Theorem handleSearch_lists_nothing_without_summaries
    (U : UiEnv) (cl : Ui.State) (w : Log) (c : list ModelCall) :
  Ui.selectedTerms cl <> [] ->
  (forall e w1,
     executePubMedSearch U (Ui.selectedTerms cl) (Ui.yearRange cl) w
     = (UiThrow e, w1) ->
     exists st,
       handleSearch U cl w c = (st, w1, c) /\
       Ui.searchStatus st = ERROR /\ Ui.articles st = [] /\
       Ui.selectedArticleIds st = [] /\ Ui.totalHits st = Ui.totalHits cl) /\
  (forall found w1,
     executePubMedSearch U (Ui.selectedTerms cl) (Ui.yearRange cl) w
     = (UiOk found, w1) ->
     (ids found = [] ->
      exists st,
        handleSearch U cl w c = (st, w1, c) /\
        Ui.searchStatus st = SUCCESS /\ Ui.articles st = [] /\
        Ui.selectedArticleIds st = [] /\ Ui.totalHits st = count found) /\
     (forall e w2,
        ids found <> [] ->
        fetchSummary (base U) (ids found) w1 = (Throw e, w2) ->
        exists st,
          handleSearch U cl w c = (st, w2, c) /\
          Ui.searchStatus st = ERROR /\ Ui.articles st = [] /\
          Ui.selectedArticleIds st = [] /\ Ui.totalHits st = count found)) /\
  (Ui.articles (fst (fst (handleSearch U cl w c))) <> [] ->
   exists found w1 summaries,
     executePubMedSearch U (Ui.selectedTerms cl) (Ui.yearRange cl) w
     = (UiOk found, w1) /\
     ids found <> [] /\
     fetchSummary (base U) (ids found) w1
     = (Ok summaries, snd (fst (handleSearch U cl w c))) /\
     List.map id (Ui.articles (fst (fst (handleSearch U cl w c)))) = ids found).
Proof.
  intros Hsel. rewrite (handleSearch_run U cl w c Hsel).
  split; [|split].
  - intros e w1 ->. by eexists.
  - intros found w1 ->. split.
    + intros ->. by eexists.
    + intros e w2 Hids Hsum. destruct (ids found) as [|i rest]; [done|].
      rewrite Hsum. by eexists.
  - destruct (executePubMedSearch U _ _ w) as [[found|e] w1]; [|done].
    destruct (ids found) as [|i rest] eqn:Hids; [done|].
    destruct (fetchSummary (base U) (i :: rest) w1) as [[summaries|e] w2] eqn:Hsum;
      [|done].
    intros _. exists found, w1, summaries. rewrite Hids.
    assert (Hid : List.map id summaries = i :: rest)
      by (by apply fetchSummary_ids in Hsum as [? _]).
    destruct (callGeminiTitleTranslation U summaries c) as [[jp|?] c']; simpl;
      repeat split; try done.
    by rewrite List.map_map.
Qed.

Lemma handleSearch_lists_nothing_without_summaries_witness :
  (exists st,
     handleSearch uiOffline uiReady [] []
     = (st, snd (executePubMedSearch uiOffline (Ui.selectedTerms uiReady) 5 []), []) /\
     Ui.searchStatus st = ERROR /\ Ui.articles st = [] /\
     Ui.selectedArticleIds st = [] /\ Ui.totalHits st = Ui.totalHits uiReady) /\
  (exists st,
     handleSearch uiNoHits uiReady [] []
     = (st, snd (executePubMedSearch uiNoHits (Ui.selectedTerms uiReady) 5 []), []) /\
     Ui.searchStatus st = SUCCESS /\ Ui.articles st = [] /\
     Ui.selectedArticleIds st = [] /\
     Ui.totalHits st = ParseInt (Some (lit "0"))).
Proof.
  destruct (handleSearch_lists_nothing_without_summaries uiOffline uiReady [] [])
    as (Hfail & _ & _); [vm_compute; discriminate|].
  destruct (handleSearch_lists_nothing_without_summaries uiNoHits uiReady [] [])
    as (_ & Hnone & _); [vm_compute; discriminate|].
  split.
  - apply (Hfail (ServiceError NetworkError)). vm_compute. reflexivity.
  - destruct (Hnone {| count := ParseInt (Some (lit "0")); ids := [] |}
                    (snd (executePubMedSearch uiNoHits (Ui.selectedTerms uiReady) 5 [])))
      as [H _]; [vm_compute; reflexivity|].
    by apply H.
Defined.







(* ===================================================================== *)
(** ** [handleInitialAnalyze] *)
(* ===================================================================== *)

Lemma handleInitialAnalyze_run (U : UiEnv) (cl : Ui.State) (w : Log)
    (c : list ModelCall) :
  truthy (trim (Ui.inputText cl)) = true ->
  handleInitialAnalyze U cl w c
  = match analysisModel U (Ui.inputText cl) with
    | None =>
        (Ui.setAnalyzeStatus ERROR
           (Ui.setMeshTerms (Some []) (Ui.setAnalyzeStatus LOADING cl)),
         w, c ++ [CallAnalysis (Ui.inputText cl)])
    | Some r =>
        match meshTerms r with
        | None =>
            (Ui.setAnalyzeStatus ERROR
               (Ui.setMeshTerms None
                  (Ui.setTranslatedText (englishText r)
                     (Ui.setMeshTerms (Some []) (Ui.setAnalyzeStatus LOADING cl)))),
             w, c ++ [CallAnalysis (Ui.inputText cl)])
        | Some terms =>
            (Ui.setAnalyzeStatus SUCCESS
               (Ui.setSelectedTerms (setOf (take 5 terms))
                  (Ui.setMeshTerms (Some terms)
                     (Ui.setTranslatedText (englishText r)
                        (Ui.setMeshTerms (Some []) (Ui.setAnalyzeStatus LOADING cl))))),
             w, c ++ [CallAnalysis (Ui.inputText cl)])
        end
    end.
Proof.
  intros Hin. unfold handleInitialAnalyze. rewrite Hin.
  unfold ubind, utry, update, analyzeTry, ubind, onModel, update,
    callGeminiAnalysis, uthrow.
  destruct (analysisModel U (Ui.inputText cl)) as [r|]; [|done].
  by destruct (meshTerms r) as [terms|].
Qed.

Lemma fold_setAdd_NoDup_id (xs s : list jsstr) :
  NoDup (s ++ xs) -> fold_left setAdd xs s = s ++ xs.
Proof.
  revert s. induction xs as [|x xs IH]; intros s Hnd; simpl.
  - by rewrite app_nil_r.
  - assert (Hx : x ∉ s).
    { apply NoDup_app in Hnd as (_ & Hd & _). intros Hin.
      apply (Hd x Hin). left. }
    unfold setAdd. rewrite bool_decide_false by done.
    rewrite IH; rewrite <- app_assoc; done.
Qed.

(** X26.  An analysis that goes through preselects the first five terms.
    When the input is not blank and the model answers with a list of
    terms, [handleInitialAnalyze] ends with status SUCCESS, the translated
    text and the terms of the answer, and a selection that is a set of at
    most five terms: exactly the terms among the first five of the answer,
    in that order when these are distinct.  The model is asked once, about
    the input as typed (not trimmed); no request is made, and the search
    side of the state is untouched. *)
Theorem handleInitialAnalyze_selects_first_five
    (U : UiEnv) (cl : Ui.State) (w : Log) (c : list ModelCall)
    (r : AnalysisResult) (terms : list jsstr) :
  truthy (trim (Ui.inputText cl)) = true ->
  analysisModel U (Ui.inputText cl) = Some r ->
  meshTerms r = Some terms ->
  exists st,
    handleInitialAnalyze U cl w c = (st, w, c ++ [CallAnalysis (Ui.inputText cl)]) /\
    Ui.analyzeStatus st = SUCCESS /\
    Ui.translatedText st = englishText r /\
    Ui.meshTerms st = Some terms /\
    NoDup (Ui.selectedTerms st) /\
    (length (Ui.selectedTerms st) <= 5)%nat /\
    (forall t, t ∈ Ui.selectedTerms st <-> t ∈ take 5 terms) /\
    (NoDup (take 5 terms) -> Ui.selectedTerms st = take 5 terms) /\
    (Ui.inputText st = Ui.inputText cl /\ Ui.articles st = Ui.articles cl /\
     Ui.searchStatus st = Ui.searchStatus cl /\ Ui.totalHits st = Ui.totalHits cl /\
     Ui.yearRange st = Ui.yearRange cl /\
     Ui.selectedArticleIds st = Ui.selectedArticleIds cl /\
     Ui.translatingTitles st = Ui.translatingTitles cl).
Proof.
  intros Hin Hmodel Hterms.
  rewrite (handleInitialAnalyze_run U cl w c Hin), Hmodel, Hterms.
  assert (Hfive : (length (take 5 terms) <= 5)%nat)
    by (rewrite length_take; lia).
  remember (take 5 terms) as l eqn:Hl.
  eexists. split; [reflexivity|]. simpl.
  do 3 (split; [done|]). unfold setOf.
  split; [apply fold_setAdd_NoDup; constructor|].
  split.
  { pose proof (fold_setAdd_length l []) as Hlen. simpl in Hlen. lia. }
  split.
  { intros t. rewrite fold_setAdd_elem. split; [|by right].
    intros [Hn|Ht]; [inversion Hn|done]. }
  split; [|done].
  intros Hnd. by rewrite fold_setAdd_NoDup_id.
Qed.

Lemma handleInitialAnalyze_selects_first_five_witness :
  exists st,
    handleInitialAnalyze uiDemo uiStart [] []
    = (st, [], [] ++ [CallAnalysis (Ui.inputText uiStart)]) /\
    Ui.analyzeStatus st = SUCCESS /\
    Ui.meshTerms st = Some demoTerms /\
    (length (Ui.selectedTerms st) <= 5)%nat /\
    (forall t, t ∈ Ui.selectedTerms st <-> t ∈ take 5 demoTerms).
Proof.
  destruct (handleInitialAnalyze_selects_first_five uiDemo uiStart [] []
              {| englishText := Some (Ui.inputText uiStart);
                 meshTerms := Some demoTerms |} demoTerms)
    as (st & Hrun & Hs & _ & Hm & _ & Hl & Hel & _).
  - vm_compute. reflexivity.
  - reflexivity.
  - reflexivity.
  - exists st. by repeat split; try apply Hel.
Defined.

(** X27.  How an analysis fails, and what it never touches.  On a blank
    input [handleInitialAnalyze] does nothing.  Otherwise it asks the
    model once, makes no request, leaves the input and the search side
    of the state as they were, and ends with status SUCCESS or ERROR.
    When the model call fails, the status is ERROR and the list of terms
    is empty, while the translated text and the earlier selection of
    terms stay.  When the answer has no list of terms, the status is
    ERROR, the translated text is that of the answer, the list of terms
    is left undefined and the earlier selection stays. *)
Theorem handleInitialAnalyze_failure_modes
    (U : UiEnv) (cl : Ui.State) (w : Log) (c : list ModelCall)
    (st : Ui.State) (w' : Log) (c' : list ModelCall) :
  handleInitialAnalyze U cl w c = (st, w', c') ->
  (truthy (trim (Ui.inputText cl)) = false -> st = cl /\ w' = w /\ c' = c) /\
  (truthy (trim (Ui.inputText cl)) = true ->
   w' = w /\ c' = c ++ [CallAnalysis (Ui.inputText cl)] /\
   (Ui.analyzeStatus st = SUCCESS \/ Ui.analyzeStatus st = ERROR) /\
   (Ui.inputText st = Ui.inputText cl /\ Ui.articles st = Ui.articles cl /\
    Ui.searchStatus st = Ui.searchStatus cl /\ Ui.totalHits st = Ui.totalHits cl /\
    Ui.yearRange st = Ui.yearRange cl /\
    Ui.selectedArticleIds st = Ui.selectedArticleIds cl /\
    Ui.translatingTitles st = Ui.translatingTitles cl) /\
   (analysisModel U (Ui.inputText cl) = None ->
    Ui.analyzeStatus st = ERROR /\ Ui.meshTerms st = Some [] /\
    Ui.translatedText st = Ui.translatedText cl /\
    Ui.selectedTerms st = Ui.selectedTerms cl) /\
   (forall r, analysisModel U (Ui.inputText cl) = Some r -> meshTerms r = None ->
    Ui.analyzeStatus st = ERROR /\ Ui.meshTerms st = None /\
    Ui.translatedText st = englishText r /\
    Ui.selectedTerms st = Ui.selectedTerms cl) /\
   (Ui.analyzeStatus st = SUCCESS ->
    exists r terms, analysisModel U (Ui.inputText cl) = Some r /\
                    meshTerms r = Some terms)).
Proof.
  intros H. split.
  - intros Hb. unfold handleInitialAnalyze in H. rewrite Hb in H.
    by inversion H.
  - intros Hin. rewrite (handleInitialAnalyze_run U cl w c Hin) in H.
    destruct (analysisModel U (Ui.inputText cl)) as [r|].
    + destruct (meshTerms r) as [terms|] eqn:Hm; inversion H; subst; simpl.
      * split; [done|]. split; [done|]. split; [by left|].
        split; [done|]. split; [done|]. split.
        -- intros r' Hr' Hn. inversion Hr'; subst. congruence.
        -- intros _. by exists r, terms.
      * split; [done|]. split; [done|]. split; [by right|].
        split; [done|]. split; [done|]. split; [|done].
        intros r' Hr' Hn. by inversion Hr'; subst.
    + inversion H; subst; simpl.
      split; [done|]. split; [done|]. split; [by right|].
      split; [done|]. split; [done|]. split; done.
Qed.

Lemma handleInitialAnalyze_failure_modes_witness :
  (fst (fst (handleInitialAnalyze uiMute uiReady [] [])) <> uiReady) /\
  Ui.analyzeStatus (fst (fst (handleInitialAnalyze uiMute uiReady [] []))) = ERROR /\
  Ui.meshTerms (fst (fst (handleInitialAnalyze uiMute uiReady [] []))) = Some [] /\
  Ui.translatedText (fst (fst (handleInitialAnalyze uiMute uiReady [] [])))
  = Ui.translatedText uiReady /\
  Ui.selectedTerms (fst (fst (handleInitialAnalyze uiMute uiReady [] [])))
  = Ui.selectedTerms uiReady /\
  Ui.meshTerms (fst (fst (handleInitialAnalyze uiPartial uiReady [] []))) = None.
Proof.
  destruct (handleInitialAnalyze_failure_modes uiMute uiReady [] []
              (fst (fst (handleInitialAnalyze uiMute uiReady [] [])))
              (snd (fst (handleInitialAnalyze uiMute uiReady [] [])))
              (snd (handleInitialAnalyze uiMute uiReady [] [])))
    as [_ Hmute].
  { by destruct (handleInitialAnalyze uiMute uiReady [] []) as [[? ?] ?]. }
  destruct (handleInitialAnalyze_failure_modes uiPartial uiReady [] []
              (fst (fst (handleInitialAnalyze uiPartial uiReady [] [])))
              (snd (fst (handleInitialAnalyze uiPartial uiReady [] [])))
              (snd (handleInitialAnalyze uiPartial uiReady [] [])))
    as [_ Hpart].
  { by destruct (handleInitialAnalyze uiPartial uiReady [] []) as [[? ?] ?]. }
  destruct (Hmute ltac:(vm_compute; reflexivity))
    as (_ & _ & _ & _ & Hnone & _ & _).
  destruct (Hpart ltac:(vm_compute; reflexivity))
    as (_ & _ & _ & _ & _ & Hmiss & _).
  destruct (Hnone eq_refl) as (He & Hm & Ht & Hs).
  destruct (Hmiss _ eq_refl eq_refl) as (_ & Hm' & _ & _).
  split; [|by repeat split].
  intros Heq. rewrite Heq in He. vm_compute in He. discriminate.
Defined.

(* ===================================================================== *)
(** ** What the synthesis reads of each paper *)
(* ===================================================================== *)

Lemma optOrElse_nonempty (o : option jsstr) (d : jsstr) :
  d <> [] -> optOrElse o d <> [].
Proof.
  intros Hd. destruct o as [s|]; simpl; [|done].
  unfold orElse. by destruct s.
Qed.

Lemma optOrElse_empty_default (o : option jsstr) (d : jsstr) :
  optOrElse (Some (optOrElse o [])) d = optOrElse o d.
Proof.
  destruct o as [s|]; simpl; [|done].
  unfold orElse. by destruct s.
Qed.

Lemma fullTextLoop_values (E : Env) (ids : list jsstr) (w w' : Log)
    (m : gmap jsstr jsstr) (k t : jsstr) :
  fullTextLoop E ids w = (Ok m, w') -> m !! k = Some t -> t <> [].
Proof.
  intros Hrun Hk.
  destruct (forOf_fullText_sound E ids ∅ w) as (m' & w'' & Hrun' & Hsound & _).
  unfold fullTextLoop in Hrun. rewrite Hrun' in Hrun. inversion Hrun; subst.
  by destruct (Hsound k t Hk) as [Hacc|(_ & Hne & _)].
Qed.

(** X28.  The text the synthesis reads for each paper is never empty.
    The prompt of [callGeminiReview] shows for a paper its full text, else
    its abstract, else the words "Abstract unavailable".  In a run that
    reaches the synthesis, for each selected article this is the full text
    the full-text phase stored for its identifier when there is one, and
    otherwise the entry of its identifier in what [fetchAbstracts]
    returned, or "Abstract unavailable" when there is no such entry; for
    each reference it is its abstract or "Abstract unavailable".  It is
    empty for none of them. *)
Theorem synthesis_content_per_paper
    (E : Env) (cl : AppState) (w : Log)
    (abstracts : gmap jsstr jsstr) (w1 : Log)
    (fullTexts : gmap jsstr jsstr) (w2 : Log)
    (refIds : list jsstr) (w3 : Log) (refData : list PubMedArticle) (w4 : Log) :
  selectedArticleIds cl <> [] ->
  fetchAbstracts E (selectedArticleIds cl) w = (Ok abstracts, w1) ->
  fullTextLoop E (selectedArticleIds cl) w1 = (Ok fullTexts, w2) ->
  fetchReferences E (selectedArticleIds cl) w2 = (Ok refIds, w3) ->
  referenceDetail E refIds w3 = (Ok refData, w4) ->
  exists selectedData,
    snd (handleDeepReview E cl w)
    = w4 ++ [EvReview (targetText cl) selectedData refData] /\
    Forall2
      (fun a a' =>
         contentOf a' <> [] /\
         contentOf a'
         = match fullTexts !! id a with
           | Some t => t
           | None => optOrElse (abstracts !! id a) (lit "Abstract unavailable")
           end)
      (List.filter (fun a => has (selectedArticleIds cl) (id a)) (articles cl))
      selectedData /\
    Forall (fun r => referenceContentOf r <> [] /\ fullText r = None) refData.
Proof.
  intros Hsel Ha Hl Hr Hd.
  assert (Hu : lit "Abstract unavailable" <> []) by (vm_compute; discriminate).
  exists (mergeSelected cl abstracts fullTexts).
  split; [by eapply handleDeepReview_reaches_synthesis|]. split.
  - unfold mergeSelected. apply Forall2_map_r. intros a _.
    assert (Heq : contentOf
                    (withFullText (optOrNull (fullTexts !! id a))
                       (withAbstract (optOrElse (abstracts !! id a) []) a))
                  = match fullTexts !! id a with
                    | Some t => t
                    | None => optOrElse (abstracts !! id a) (lit "Abstract unavailable")
                    end).
    { unfold contentOf. cbn [fullText abstract withFullText withAbstract].
      destruct (fullTexts !! id a) as [t|] eqn:Ht.
      - pose proof (fullTextLoop_values E _ _ _ _ _ _ Hl Ht) as Hne.
        destruct t as [|ch t]; [done|]. reflexivity.
      - cbn [optOrNull]. apply optOrElse_empty_default. }
    split; [|exact Heq]. rewrite Heq.
    destruct (fullTexts !! id a) as [t|] eqn:Ht.
    + by eapply fullTextLoop_values.
    + by apply optOrElse_nonempty.
  - apply referenceDetail_records in Hd as [_ Hrec].
    eapply Forall_impl; [exact Hrec|].
    intros r [Hft _]. split; [|done].
    unfold referenceContentOf. by apply optOrElse_nonempty.
Qed.

Lemma synthesis_content_per_paper_witness :
  exists selectedData,
    snd (handleDeepReview envDemo renderSelected [])
    = demoLogDetail ++ [EvReview (targetText renderSelected) selectedData demoRefData] /\
    Forall2
      (fun a a' =>
         contentOf a' <> [] /\
         contentOf a'
         = match demoFullTexts !! id a with
           | Some t => t
           | None => optOrElse (demoAbstracts !! id a) (lit "Abstract unavailable")
           end)
      (List.filter (fun a => has (selectedArticleIds renderSelected) (id a))
                   (articles renderSelected))
      selectedData /\
    Forall (fun r => referenceContentOf r <> [] /\ fullText r = None) demoRefData.
Proof.
  apply (synthesis_content_per_paper envDemo renderSelected []
           demoAbstracts demoLogAbstracts demoFullTexts demoLogFullText
           [lit "11"; lit "12"] demoLogReferences demoRefData demoLogDetail).
  - discriminate.
  - vm_compute. reflexivity.
  - vm_compute. reflexivity.
  - vm_compute. reflexivity.
  - vm_compute. reflexivity.
Defined.

(* ===================================================================== *)
(** ** The reference detail *)
(* ===================================================================== *)

(** C10.  In a run whose reference lookup returned [refIds], what follows
    is the reference detail on the first 8 of them (at most 8, a prefix of
    [refIds]).  Without references nothing is requested.  Otherwise the
    summaries of those identifiers are fetched in one call of the fetch
    layer to the summary endpoint, then their abstracts in one call to
    the abstract endpoint, each of one to four requests, and nothing is
    requested from an address of the full-text resolver.  When both go
    through, the reference records are the summary records of those
    identifiers in order, each merged with the entry of its identifier in
    the abstracts fetched (the empty string when there is none) and
    without full text, and the run ends with the one call of the
    synthesis that receives them; when one of them throws, the detail
    throws the same error and the run ends there. *)
Theorem references_capped_and_lightly_enriched
    (E : Env) (cl : AppState) (w w1 w2 w3 : Log)
    (abstracts fullTexts : gmap jsstr jsstr) (refIds : list jsstr) :
  selectedArticleIds cl <> [] ->
  fetchAbstracts E (selectedArticleIds cl) w = (Ok abstracts, w1) ->
  fullTextLoop E (selectedArticleIds cl) w1 = (Ok fullTexts, w2) ->
  fetchReferences E (selectedArticleIds cl) w2 = (Ok refIds, w3) ->
  (exists r evs,
    referenceDetail E refIds w3 = (r, w3 ++ evs) /\
    Forall (requestTo [summaryUrl (take 8 refIds); abstractsUrl (take 8 refIds)]) evs /\
    (forall x, (EvFetch (pmcLinkUrl x) ∉ evs) /\ (EvFetch (pmcTextUrl x) ∉ evs)) /\
    (length (take 8 refIds) <= 8)%nat /\
    take 8 refIds `prefix_of` refIds /\
    match r with
    | Throw _ => snd (handleDeepReview E cl w) = w3 ++ evs
    | Ok refData =>
        List.map id refData = take 8 refIds /\
        Forall (fun a => fullText a = None /\ is_Some (abstract a)) refData /\
        snd (handleDeepReview E cl w)
        = (w3 ++ evs)
            ++ [EvReview (targetText cl) (mergeSelected cl abstracts fullTexts)
                         refData]
    end) /\
  (refIds = [] -> referenceDetail E refIds w3 = (Ok [], w3)) /\
  (refIds <> [] ->
   exists k1,
     (k1 <= 3)%nat /\
     snd (fetchSummary E (take 8 refIds) w3)
     = w3 ++ attempts (summaryUrl (take 8 refIds)) k1 /\
     match fetchSummary E (take 8 refIds) w3 with
     | (Throw e, wS) => referenceDetail E refIds w3 = (Throw e, wS)
     | (Ok refSummaries, wS) =>
         exists k2,
           (k2 <= 3)%nat /\
           snd (fetchAbstracts E (take 8 refIds) wS)
           = wS ++ attempts (abstractsUrl (take 8 refIds)) k2 /\
           match fetchAbstracts E (take 8 refIds) wS with
           | (Throw e, wA) => referenceDetail E refIds w3 = (Throw e, wA)
           | (Ok refAbs, wA) =>
               exists refData,
                 referenceDetail E refIds w3 = (Ok refData, wA) /\
                 (fetchCount w3 + 2 <= fetchCount wA)%nat /\
                 Forall2
                   (fun s r =>
                      id r = id s /\ pmid r = pmid s /\ title r = title s /\
                      titleJa r = titleJa s /\ authors r = authors s /\
                      journal r = journal s /\ pubdate r = pubdate s /\
                      abstract r = Some (optOrElse (refAbs !! id s) []) /\
                      fullText r = None)
                   refSummaries refData
           end
     end).
Proof.
  intros Hsel Ha Hl Hr. split; [|split].
  - destruct (emits_referenceDetail E refIds w3) as (evs & Hlog & Hevs).
    destruct (referenceDetail E refIds w3) as [r w4] eqn:Hd. simpl in Hlog. subst w4.
    exists r, evs. split; [done|]. split; [done|].
    split; [intros x; by eapply requestTo_not_fullText|].
    split; [rewrite length_take; lia|].
    split; [apply prefix_take|].
    destruct r as [refData|e].
    + destruct (referenceDetail_records E _ _ _ _ Hd) as [Hids Hlight].
      split; [done|]. split; [done|].
      by eapply handleDeepReview_reaches_synthesis.
    + by rewrite (handleDeepReview_run E cl w Hsel), Ha, Hl, Hr, Hd.
  - by intros ->.
  - intros Hne.
    assert (Htop : take 8 refIds <> []) by (by destruct refIds).
    rewrite (referenceDetail_cases E refIds w3 Hne).
    destruct (accessors_make_one_fetch_call_aux E (take 8 refIds) w3 Htop)
      as ((k1 & Hk1 & Hs) & _ & _).
    exists k1. split; [done|]. split; [done|].
    destruct (fetchSummary E (take 8 refIds) w3) as [[refSummaries|e] wS] eqn:Hsum;
      [|done].
    simpl in Hs.
    destruct (accessors_make_one_fetch_call_aux E (take 8 refIds) wS Htop)
      as (_ & (k2 & Hk2 & Hab) & _).
    exists k2. split; [done|]. split; [done|].
    destruct (fetchAbstracts E (take 8 refIds) wS) as [[refAbs|e] wA]; [|done].
    simpl in Hab. eexists. split; [reflexivity|]. split.
    + subst wA wS. rewrite !fetchCount_attempts. lia.
    + apply fetchSummary_light in Hsum.
      apply Forall2_map_r. intros s Hin.
      rewrite Forall_forall in Hsum. specialize (Hsum s Hin).
      by repeat split.
Qed.

Lemma references_capped_and_lightly_enriched_witness :
  exists k1,
    (k1 <= 3)%nat /\
    snd (fetchSummary envDemo (take 8 [lit "11"; lit "12"]) demoLogReferences)
    = demoLogReferences ++ attempts (summaryUrl (take 8 [lit "11"; lit "12"])) k1 /\
    match fetchSummary envDemo (take 8 [lit "11"; lit "12"]) demoLogReferences with
    | (Throw e, wS) =>
        referenceDetail envDemo [lit "11"; lit "12"] demoLogReferences = (Throw e, wS)
    | (Ok refSummaries, wS) =>
        exists k2,
          (k2 <= 3)%nat /\
          snd (fetchAbstracts envDemo (take 8 [lit "11"; lit "12"]) wS)
          = wS ++ attempts (abstractsUrl (take 8 [lit "11"; lit "12"])) k2 /\
          match fetchAbstracts envDemo (take 8 [lit "11"; lit "12"]) wS with
          | (Throw e, wA) =>
              referenceDetail envDemo [lit "11"; lit "12"] demoLogReferences
              = (Throw e, wA)
          | (Ok refAbs, wA) =>
              exists refData,
                referenceDetail envDemo [lit "11"; lit "12"] demoLogReferences
                = (Ok refData, wA) /\
                (fetchCount demoLogReferences + 2 <= fetchCount wA)%nat /\
                Forall2
                  (fun s r =>
                     id r = id s /\ pmid r = pmid s /\ title r = title s /\
                     titleJa r = titleJa s /\ authors r = authors s /\
                     journal r = journal s /\ pubdate r = pubdate s /\
                     abstract r = Some (optOrElse (refAbs !! id s) []) /\
                     fullText r = None)
                  refSummaries refData
          end
    end.
Proof.
  destruct (references_capped_and_lightly_enriched envDemo renderSelected []
              demoLogAbstracts demoLogFullText demoLogReferences
              demoAbstracts demoFullTexts [lit "11"; lit "12"])
    as (_ & _ & Hdetail).
  - discriminate.
  - vm_compute. reflexivity.
  - vm_compute. reflexivity.
  - vm_compute. reflexivity.
  - apply Hdetail. discriminate.
Defined.
